(** * valeri-audio: the recording-to-callback pipeline

    A shallow embedding of the TypeScript services of the repository
    (recording controller, recording service, recording processor,
    storage service and text-to-speech service) together with the
    properties of the pipeline that the specification states.

    Conventions of the embedding.
    - A JavaScript string is modelled as the [string] of the bytes of
      its UTF-8 encoding.  [toLowerCase] changes the ASCII letters and
      leaves the other bytes as they are; the white space that
      [parseInt] skips is the whole of ECMAScript's, in its UTF-8 form.
    - A JavaScript number produced by [parseInt] is a double: [NaN], an
      integer that a double holds (the digits read, rounded to the
      nearest double), minus zero or an infinity.
    - A thrown value is an [ApiError]: an object that may carry a
      [message] and an HTTP [response].  [new Error(m)] is the object
      whose only field is [message = m].
    - Every remote collaborator (HTTP download, object storage, the
      metadata table, the transcription, completion and speech APIs, the
      telephony API) is an oracle of the environment [Env]; what the
      services do with the replies is the code under verification.
    - [async] functions are computations over the observable state
      [World] that either resolve with a value or reject with an error.
      The state records what the collaborators hold and what was asked
      of them, the delays awaited, and the lines of [logger.error];
      [logger.info] and [console.error] write to the console only and
      are left out.
    - [Promise.all] returns the state in which both of its tasks have
      settled.  When it rejects while a task is still running, the
      lines which that task logs later are in the log of that state,
      before the lines of the handlers that the program writes first.
    - The retry loops run on fuel; the outcome [Diverge] stands for a run
      out of fuel, and the loops are proved never to reach it. *)

From Stdlib Require Import String Ascii List ZArith Bool Lia Arith.
From Stdlib Require DecimalString.
Import ListNotations.
Local Open Scope string_scope.
Local Open Scope Z_scope.

(** ** JavaScript helpers *)

Module Js.

(** [String.prototype.toLowerCase] on the ASCII letters. *)
Definition lower_ascii (c : ascii) : ascii :=
  let n := nat_of_ascii c in
  if (Nat.leb 65 n && Nat.leb n 90)%bool then ascii_of_nat (n + 32) else c.

Fixpoint toLowerCase (s : string) : string :=
  match s with
  | EmptyString => EmptyString
  | String c r => String (lower_ascii c) (toLowerCase r)
  end.

(** [String.prototype.includes]: [needle] occurs in [s]. *)
Fixpoint includes (needle s : string) : bool :=
  String.prefix needle s ||
  match s with
  | EmptyString => false
  | String _ r => includes needle r
  end.

(** Truthiness of a possibly undefined string: [!!v]. *)
Definition truthy (v : option string) : bool :=
  match v with
  | Some EmptyString => false
  | Some _ => true
  | None => false
  end.

(** [v || d] for a possibly undefined string [v]. *)
Definition or_else (v : option string) (d : string) : string :=
  if truthy v then match v with Some s => s | None => d end else d.

(** [v || null] for a string written into a nullable column. *)
Definition or_null (v : option string) : option string :=
  if truthy v then v else None.

(** A template-literal hole [${v}] for a possibly undefined string. *)
Definition show (v : option string) : string :=
  match v with Some s => s | None => "undefined" end.

(** Numbers returned by [parseInt]: the doubles [NaN], an integer
    ([Int 0] is +0), -0 and the two infinities. *)
Inductive number : Type :=
| NaN
| Int (z : Z)
| NegZero
| Infinity
| NegInfinity.

(** The Number value of an integer: the nearest double, a tie going to
    the even significand of 53 bits; from 2^1024 - 2^970 on the double
    is infinite. *)
Definition to_double (z : Z) : number :=
  let a := Z.abs z in
  if a <=? 2 ^ 53 then Int z
  else
    let e := Z.log2 a - 52 in
    let q := a / 2 ^ e in
    let rest := a mod 2 ^ e in
    let half := 2 ^ (e - 1) in
    let q' := if (half <? rest) || ((rest =? half) && Z.odd q) then q + 1 else q in
    let m := q' * 2 ^ e in
    if 2 ^ 1024 <=? m then (if z <? 0 then NegInfinity else Infinity)
    else Int (Z.sgn z * m).

(** The white space of ECMAScript (WhiteSpace and LineTerminator), each
    code point in UTF-8: TAB, LF, VT, FF, CR, SP, U+00A0, U+1680,
    U+2000 to U+200A, U+2028, U+2029, U+202F, U+205F, U+3000, U+FEFF. *)
Definition white_space : list string :=
  map string_of_list_byte
    [ [Byte.x09]; [Byte.x0a]; [Byte.x0b]; [Byte.x0c]; [Byte.x0d]; [Byte.x20];
      [Byte.xc2; Byte.xa0];
      [Byte.xe1; Byte.x9a; Byte.x80];
      [Byte.xe2; Byte.x80; Byte.x80]; [Byte.xe2; Byte.x80; Byte.x81];
      [Byte.xe2; Byte.x80; Byte.x82]; [Byte.xe2; Byte.x80; Byte.x83];
      [Byte.xe2; Byte.x80; Byte.x84]; [Byte.xe2; Byte.x80; Byte.x85];
      [Byte.xe2; Byte.x80; Byte.x86]; [Byte.xe2; Byte.x80; Byte.x87];
      [Byte.xe2; Byte.x80; Byte.x88]; [Byte.xe2; Byte.x80; Byte.x89];
      [Byte.xe2; Byte.x80; Byte.x8a];
      [Byte.xe2; Byte.x80; Byte.xa8]; [Byte.xe2; Byte.x80; Byte.xa9];
      [Byte.xe2; Byte.x80; Byte.xaf];
      [Byte.xe2; Byte.x81; Byte.x9f];
      [Byte.xe3; Byte.x80; Byte.x80];
      [Byte.xef; Byte.xbb; Byte.xbf] ].

Definition is_white_space (s : string) : bool :=
  existsb (String.eqb s) white_space.

(** [TrimString(s, start)]: the white space at the start of [s] is
    removed, one code point (of one, two or three bytes) at a time. *)
Fixpoint trimStart (s : string) : string :=
  match s with
  | EmptyString => EmptyString
  | String c1 r1 =>
      if is_white_space (String c1 EmptyString) then trimStart r1 else
      match r1 with
      | EmptyString => s
      | String c2 r2 =>
          if is_white_space (String c1 (String c2 EmptyString)) then trimStart r2 else
          match r2 with
          | EmptyString => s
          | String c3 r3 =>
              if is_white_space (String c1 (String c2 (String c3 EmptyString)))
              then trimStart r3 else s
          end
      end
  end.

(** Value of a character as a digit, for radices up to 16. *)
Definition digit_value (c : ascii) : option Z :=
  let n := nat_of_ascii c in
  if (Nat.leb 48 n && Nat.leb n 57)%bool then Some (Z.of_nat (n - 48))
  else if (Nat.leb 97 n && Nat.leb n 102)%bool then Some (Z.of_nat (n - 87))
  else if (Nat.leb 65 n && Nat.leb n 70)%bool then Some (Z.of_nat (n - 55))
  else None.

Definition radix_digit (radix : Z) (c : ascii) : option Z :=
  match digit_value c with
  | Some d => if d <? radix then Some d else None
  | None => None
  end.

(** Longest prefix of digits of [s], read left to right into [acc];
    [seen] records whether a digit was read. *)
Fixpoint read_digits (radix : Z) (s : string) (seen : bool) (acc : Z) : option Z :=
  match s with
  | EmptyString => if seen then Some acc else None
  | String c r =>
      match radix_digit radix c with
      | Some d => read_digits radix r true (acc * radix + d)
      | None => if seen then Some acc else None
      end
  end.

(** The result of [parseInt] for the digits read, if any: no digit is
    [NaN], zero keeps the sign, and another value is the double nearest
    to it. *)
Definition of_digits (sign : Z) (digits : option Z) : number :=
  match digits with
  | Some n =>
      if n =? 0 then (if sign <? 0 then NegZero else Int 0)
      else to_double (sign * n)
  | None => NaN
  end.

(** [parseInt(s)] with no radix argument: white space is skipped, a sign
    is read, a [0x] or [0X] prefix selects radix 16, and the longest
    prefix of digits is the value. *)
Definition parseInt_string (s : string) : number :=
  let s1 := trimStart s in
  let '(sign, s2) :=
    match s1 with
    | String "-" r => (-1, r)
    | String "+" r => (1, r)
    | _ => (1, s1)
    end in
  let '(radix, s3) :=
    match s2 with
    | String "0" (String "x" r) => (16, r)
    | String "0" (String "X" r) => (16, r)
    | _ => (10, s2)
    end in
  of_digits sign (read_digits radix s3 false 0).

(** [parseInt(v)] where [v] may be [undefined]: the argument is first
    converted to a string. *)
Definition parseInt (v : option string) : number :=
  parseInt_string (show v).

(** Decimal rendering of an integer in a template literal. *)
Definition show_int (z : Z) : string :=
  DecimalString.NilZero.string_of_int (Z.to_int z).

End Js.

(** ** Thrown values *)

(** The [ApiError] interface of recordingProcessorService.ts: an [Error]
    with an optional HTTP [response]; every field may be missing. *)
Record ErrorBody : Type := mkErrorBody {
  err_type : option string;
  err_code : option string;
  err_message : option string
}.

Record ErrorData : Type := mkErrorData {
  data_error : option ErrorBody
}.

Record ErrorResponse : Type := mkErrorResponse {
  resp_data : option ErrorData;
  resp_status : option Z
}.

Record ApiError : Type := mkApiError {
  message : option string;
  response : option ErrorResponse
}.

(** [new Error(m)]. *)
Definition Error (m : string) : ApiError :=
  {| message := Some m; response := None |}.

(** [error instanceof Error ? error.message : 'Unknown error']: a thrown
    value without a message is not an [Error]. *)
Definition message_or_unknown (e : ApiError) : string :=
  match message e with Some m => m | None => "Unknown error" end.

(** [error instanceof Error ? error.message : String(error)]. *)
Definition string_of_error (e : ApiError) : string :=
  match message e with Some m => m | None => "[object Object]" end.

(** ** Observable state *)

(** An object of a storage bucket. *)
Record StoredObject : Type := mkStoredObject {
  obj_bucket : string;
  obj_name : string;
  obj_body : list Byte.byte;
  obj_contentType : string;
  obj_cacheControl : string
}.

(** A row of the [recordings] table (the Metadata Record). *)
Record Row : Type := mkRow {
  recording_sid : string;
  call_sid : string;
  duration : Js.number;
  audio_summary : option string;
  audio_url : option string;
  transcript_url : option string;
  created_at : string
}.

(** The [RecordingMetadata] interface handed to [storeRecording]. *)
Record RecordingMetadata : Type := mkRecordingMetadata {
  md_recording_sid : string;
  md_call_sid : string;
  md_duration : Js.number;
  md_audio_url : option string;
  md_transcript_url : option string;
  md_audio_summary : option string
}.

(** The argument of [twilioClient.calls.create]. *)
Record OutboundCall : Type := mkOutboundCall {
  call_to : string;
  call_from : string;
  call_twiml : string
}.

Record World : Type := mkWorld {
  objects : list StoredObject;          (* storage buckets *)
  recordings : list Row;                (* table 'recordings' *)
  transcription_requests : nat;         (* POST /v1/audio/transcriptions *)
  completion_requests : nat;            (* chat.completions.create *)
  speech_requests : list string;        (* audio.speech.create inputs *)
  timeouts : list Z;                    (* awaited setTimeout delays, ms *)
  calls_created : list OutboundCall;    (* calls.create requests accepted *)
  error_log : list (string * string)    (* logger.error(label, detail) *)
}.

Definition empty_world : World :=
  mkWorld [] [] 0 0 [] [] [] [].

Definition set_objects (f : list StoredObject -> list StoredObject) (w : World) : World :=
  mkWorld (f (objects w)) (recordings w) (transcription_requests w)
          (completion_requests w) (speech_requests w) (timeouts w)
          (calls_created w) (error_log w).

Definition set_recordings (f : list Row -> list Row) (w : World) : World :=
  mkWorld (objects w) (f (recordings w)) (transcription_requests w)
          (completion_requests w) (speech_requests w) (timeouts w)
          (calls_created w) (error_log w).

Definition set_transcription_requests (f : nat -> nat) (w : World) : World :=
  mkWorld (objects w) (recordings w) (f (transcription_requests w))
          (completion_requests w) (speech_requests w) (timeouts w)
          (calls_created w) (error_log w).

Definition set_completion_requests (f : nat -> nat) (w : World) : World :=
  mkWorld (objects w) (recordings w) (transcription_requests w)
          (f (completion_requests w)) (speech_requests w) (timeouts w)
          (calls_created w) (error_log w).

Definition set_speech_requests (f : list string -> list string) (w : World) : World :=
  mkWorld (objects w) (recordings w) (transcription_requests w)
          (completion_requests w) (f (speech_requests w)) (timeouts w)
          (calls_created w) (error_log w).

Definition set_timeouts (f : list Z -> list Z) (w : World) : World :=
  mkWorld (objects w) (recordings w) (transcription_requests w)
          (completion_requests w) (speech_requests w) (f (timeouts w))
          (calls_created w) (error_log w).

Definition set_calls_created (f : list OutboundCall -> list OutboundCall) (w : World) : World :=
  mkWorld (objects w) (recordings w) (transcription_requests w)
          (completion_requests w) (speech_requests w) (timeouts w)
          (f (calls_created w)) (error_log w).

Definition set_error_log (f : list (string * string) -> list (string * string)) (w : World) : World :=
  mkWorld (objects w) (recordings w) (transcription_requests w)
          (completion_requests w) (speech_requests w) (timeouts w)
          (calls_created w) (f (error_log w)).

(** ** Remote collaborators *)

(** The reply to a remote request: the promise resolves or rejects. *)
Inductive Reply (A : Type) : Type :=
| Resolved (a : A)
| Rejected (e : ApiError).
Arguments Resolved {A} a.
Arguments Rejected {A} e.

(** A node-fetch response. *)
Record HttpResponse : Type := mkHttpResponse {
  http_status : Z;
  http_statusText : string;
  http_body : list Byte.byte
}.

(** [Response.ok]: the status is in the range 200-299. *)
Definition http_ok (r : HttpResponse) : bool :=
  (200 <=? http_status r) && (http_status r <? 300).

(** The part of a chat completion that [generateSummary] reads:
    [choices[0]?.message?.content]. *)
Record ChatMessage : Type := mkChatMessage {
  content : option string
}.

Record ChatChoice : Type := mkChatChoice {
  choice_message : option ChatMessage
}.

Record ChatCompletion : Type := mkChatCompletion {
  choices : list ChatChoice
}.

(** A chat completion request. *)
Record ChatRequest : Type := mkChatRequest {
  chat_model : string;
  chat_system : option string;
  chat_user : string;
  chat_max_tokens : Z
}.

(** The part of a Twilio call resource that the pipeline reads. *)
Record CallResource : Type := mkCallResource {
  from : option string
}.

Record Env : Type := mkEnv {
  (* config/env.ts *)
  accountSid : string;
  authToken : string;
  phoneNumber : string;
  (* Buffer.from(s).toString('base64') *)
  base64 : string -> string;
  (* new Date().toISOString() at the insert of the Metadata Record *)
  now : string;
  (* fetch(url, { headers: { Authorization } }) *)
  fetch : string -> string -> Reply HttpResponse;
  (* storage.from(bucket).upload(...): the error message, if any, given
     the objects already stored *)
  storage_upload : list StoredObject -> StoredObject -> option string;
  (* storage.from(bucket).getPublicUrl(fileName).data.publicUrl *)
  getPublicUrl : string -> string -> string;
  (* from('recordings').insert(row): the error message, if any *)
  table_insert : list Row -> Row -> option string;
  (* from('recordings').update(...).eq('recording_sid', sid) *)
  table_update : list Row -> string -> option string;
  (* the n-th transcription request *)
  whisper : nat -> list Byte.byte -> Reply string;
  (* the n-th chat completion request *)
  chat : nat -> ChatRequest -> Reply ChatCompletion;
  (* openai.audio.speech.create({ model, voice, input }) *)
  speech : string -> string -> string -> Reply (list Byte.byte);
  (* twilioClient.calls(callSid).fetch() *)
  calls_fetch : string -> Reply CallResource;
  (* twilioClient.calls.create(...) *)
  calls_create : OutboundCall -> option ApiError;
  (* when both tasks of the concurrent phase reject: whether the storage
     task is the first to do so *)
  storage_rejects_first : bool
}.

(** ** Asynchronous computations *)

Inductive Outcome (A : Type) : Type :=
| Resolve (a : A)        (* the promise resolves *)
| Reject (e : ApiError)  (* the promise rejects: an exception *)
| Diverge.               (* the loop bound of the model was too small *)
Arguments Resolve {A} a.
Arguments Reject {A} e.
Arguments Diverge {A}.

Definition Async (A : Type) : Type := World -> Outcome A * World.

Definition ret {A} (a : A) : Async A := fun w => (Resolve a, w).

Definition throw {A} (e : ApiError) : Async A := fun w => (Reject e, w).

Definition diverge {A} : Async A := fun w => (Diverge, w).

Definition bind {A B} (c : Async A) (k : A -> Async B) : Async B :=
  fun w =>
    match c w with
    | (Resolve a, w') => k a w'
    | (Reject e, w') => (Reject e, w')
    | (Diverge, w') => (Diverge, w')
    end.

(** [try { c } catch (e) { h e }]. *)
Definition try_catch {A} (c : Async A) (h : ApiError -> Async A) : Async A :=
  fun w =>
    match c w with
    | (Reject e, w') => h e w'
    | r => r
    end.

Declare Scope async_scope.
Delimit Scope async_scope with async.
Notation "x <- c ;; k" := (bind c (fun x => k))
  (at level 61, c at next level, right associativity) : async_scope.
Notation "c ;; k" := (bind c (fun _ => k))
  (at level 61, right associativity) : async_scope.
Local Open Scope async_scope.

(** A try block whose body either returns from the enclosing function
    with a value or is caught: the result tells which. *)
Definition attempt {A} (c : Async A) : Async (ApiError + A) :=
  try_catch (a <- c ;; ret (inr a)) (fun e => ret (inl e)).

Definition modify (f : World -> World) : Async unit :=
  fun w => (Resolve tt, f w).

(** [logger.error(label, detail)]. *)
Definition logger_error (label detail : string) : Async unit :=
  modify (set_error_log (fun l => (l ++ [(label, detail)])%list)).

(** [await new Promise(resolve => setTimeout(resolve, delayMs))]. *)
Definition sleep (delayMs : Z) : Async unit :=
  modify (set_timeouts (fun l => (l ++ [delayMs])%list)).

(** ** services/recordingProcessorService.ts *)

Module RecordingProcessorService.

Definition dquote : string := String (ascii_of_nat 34) EmptyString.

(** The instruction sent as the system message. *)
Definition prompt : string :=
"
Please analyze this phone call transcription and provide a concise summary with the following components:

Hi there! I've analyzed your recent call and prepared a quick summary for you:

First, here's what the call was mainly about:
[OVERVIEW - 1-2 conversational sentences about the main purpose and outcome]

I noticed these people were part of the conversation:
[KEY PARTICIPANTS - Casual mention of speakers and their roles]

The most important points that came up were:
- [POINT 1]
- [POINT 2]
- [POINT 3]
(And maybe 1-2 more if they were truly important)

Let me highlight what needs follow-up:
[ACTION ITEMS - Conversational description of who needs to do what and when]

Something worth remembering - during the call, someone said:
" ++ dquote ++ "[NOTABLE QUOTE]" ++ dquote ++ "

Overall, the conversation felt [SENTIMENT - casual description like " ++ dquote ++ "pretty friendly" ++ dquote ++ " or " ++ dquote ++ "a bit tense" ++ dquote ++ "]

For next steps:
[NEXT STEPS - Simple description of follow-up plans]

Hope this helps! If anything seemed unclear in the recording, I've noted that you might want to double-check about [UNCLEAR POINTS].
".

Record ProcessedRecording : Type := mkProcessedRecording {
  transcription : string;
  summary : string
}.

(** [apiError.response?.data?.error?.code] and its siblings. *)
Definition response_error (e : ApiError) : option ErrorBody :=
  match response e with
  | Some r => match resp_data r with
              | Some d => data_error d
              | None => None
              end
  | None => None
  end.

Definition response_code (e : ApiError) : option string :=
  match response_error e with Some b => err_code b | None => None end.

Definition response_type (e : ApiError) : option string :=
  match response_error e with Some b => err_type b | None => None end.

Definition response_status (e : ApiError) : option Z :=
  match response e with Some r => resp_status r | None => None end.

(** [v === s] for a possibly undefined string [v]. *)
Definition is_string (v : option string) (s : string) : bool :=
  match v with Some x => String.eqb x s | None => false end.

(** [v === n] for a possibly undefined number [v]. *)
Definition is_number (v : option Z) (n : Z) : bool :=
  match v with Some x => Z.eqb x n | None => false end.

(** Check if the error is related to quota/billing issues. *)
Definition isQuotaError (apiError : ApiError) : bool :=
  if is_string (response_code apiError) "insufficient_quota"
     || is_string (response_type apiError) "insufficient_quota"
  then true
  else if is_number (response_status apiError) 429
  then true
  else
    let errorMessage :=
      match message apiError with
      | Some m => Js.or_else (Some (Js.toLowerCase m)) ""
      | None => ""
      end in
    Js.includes "quota" errorMessage
    || Js.includes "billing" errorMessage
    || Js.includes "rate limit" errorMessage.

(** [Math.min(1000 * Math.pow(2, retryCount), cap)]. *)
Definition delayMs (retryCount : nat) (cap : Z) : Z :=
  Z.min (1000 * 2 ^ Z.of_nat retryCount) cap.

Section WithEnv.
Variable env : Env.

(** [axios.post('https://api.openai.com/v1/audio/transcriptions', ...)]:
    one more request has been issued, whatever the reply. *)
Definition post_transcription (audioBuffer : list Byte.byte) : Async string :=
  fun w =>
    let w' := set_transcription_requests S w in
    match whisper env (transcription_requests w) audioBuffer with
    | Resolved text => (Resolve text, w')
    | Rejected e => (Reject e, w')
    end.

(** [openai.chat.completions.create(...)]. *)
Definition chat_completions_create (req : ChatRequest) : Async ChatCompletion :=
  fun w =>
    let w' := set_completion_requests S w in
    match chat env (completion_requests w) req with
    | Resolved r => (Resolve r, w')
    | Rejected e => (Reject e, w')
    end.

Definition transcribe_maxRetries : nat := 5.

(** The [while (retryCount < maxRetries)] loop of [transcribeAudio];
    [fuel] bounds the number of iterations of the model. *)
Fixpoint transcribe_loop (fuel : nat) (audioBuffer : list Byte.byte)
    (retryCount : nat) : Async string :=
  if (retryCount <? transcribe_maxRetries)%nat then
    match fuel with
    | O => diverge
    | S fuel' =>
        r <- attempt (
               (if (0 <? retryCount)%nat
                then sleep (delayMs retryCount 30000)
                else ret tt) ;;
               text <- post_transcription audioBuffer ;;
               ret text) ;;
        match r with
        | inr text => ret text
        | inl apiError =>
            logger_error "Axios error details:" (Js.show (message apiError)) ;;
            if isQuotaError apiError then
              logger_error "API quota exceeded or billing issue detected" "" ;;
              throw (Error ("OpenAI API quota exceeded. Please check your billing details: "
                            ++ Js.show (message apiError)))
            else
              let retryCount := S retryCount in
              if (transcribe_maxRetries <=? retryCount)%nat then
                logger_error "All transcription attempts failed" "" ;;
                throw (Error ("Transcription failed after "
                              ++ Js.show_int (Z.of_nat transcribe_maxRetries)
                              ++ " attempts: " ++ Js.show (message apiError)))
              else transcribe_loop fuel' audioBuffer retryCount
        end
    end
  else throw (Error "Failed to transcribe after maximum retries").

(** Transcribe audio using the transcription API. *)
Definition transcribeAudio (audioBuffer : list Byte.byte) : Async string :=
  transcribe_loop transcribe_maxRetries audioBuffer 0.

Definition summary_maxRetries : nat := 3.

Definition summary_request (transcription : string) : ChatRequest :=
  {| chat_model := "gpt-4o-mini-2024-07-18";
     chat_system := Some prompt;
     chat_user := "Please provide a concise summary of the following phone call transcript:

" ++ transcription;
     chat_max_tokens := 500 |}.

(** [response.choices[0]?.message?.content]. *)
Definition first_content (r : ChatCompletion) : option string :=
  match choices r with
  | c :: _ => match choice_message c with
              | Some m => content m
              | None => None
              end
  | [] => None
  end.

(** The [while (retryCount < maxRetries)] loop of [generateSummary]. *)
Fixpoint summary_loop (fuel : nat) (transcription : string)
    (retryCount : nat) : Async string :=
  if (retryCount <? summary_maxRetries)%nat then
    match fuel with
    | O => diverge
    | S fuel' =>
        r <- attempt (
               (if (0 <? retryCount)%nat
                then sleep (delayMs retryCount 10000)
                else ret tt) ;;
               response <- chat_completions_create (summary_request transcription) ;;
               ret (Js.or_else (first_content response) "No summary generated")) ;;
        match r with
        | inr text => ret text
        | inl apiError =>
            logger_error "Summary generation error:" (Js.show (message apiError)) ;;
            if isQuotaError apiError then
              logger_error "API quota exceeded or billing issue detected during summary generation" "" ;;
              throw (Error ("OpenAI API quota exceeded when generating summary. Please check your billing details: "
                            ++ Js.show (message apiError)))
            else
              let retryCount := S retryCount in
              if (summary_maxRetries <=? retryCount)%nat then
                logger_error "All summary generation attempts failed" "" ;;
                ret "Error generating summary. Please try again later."
              else summary_loop fuel' transcription retryCount
        end
    end
  else ret "Unable to generate summary after multiple attempts".

(** Generate a summary of the transcribed text. *)
Definition generateSummary (transcription : string) : Async string :=
  summary_loop summary_maxRetries transcription 0.

(** Process an audio recording to get transcription and summary. *)
Definition processRecording (audioBuffer : list Byte.byte) : Async ProcessedRecording :=
  try_catch
    (transcription <- transcribeAudio audioBuffer ;;
     summary <- generateSummary transcription ;;
     ret {| transcription := transcription; summary := summary |})
    (fun error =>
       logger_error "Error processing recording:" (string_of_error error) ;;
       if isQuotaError error then
         throw (Error "OpenAI API quota exceeded. Please check your billing details or try again later.")
       else throw error).

(** Check API quota status before processing. *)
Definition checkApiQuota : Async bool :=
  try_catch
    (chat_completions_create
       {| chat_model := "gpt-3.5-turbo"; chat_system := None;
          chat_user := "Test"; chat_max_tokens := 5 |} ;;
     ret true)
    (fun apiError =>
       if isQuotaError apiError then
         logger_error "API quota check failed - insufficient quota" "" ;;
         ret false
       else ret true).

End WithEnv.

End RecordingProcessorService.

(** ** services/storageService.ts *)

Module StorageService.

Section WithEnv.
Variable env : Env.

(** [supabase.storage.from(bucket).upload(fileName, body, options)]:
    resolves with the provider's error, if any; an accepted object is
    added to the bucket (the latest object of a name is the current
    one). *)
Definition upload (bucketName fileName : string) (body : list Byte.byte)
    (contentType cacheControl : string) : Async (option string) :=
  fun w =>
    let o := mkStoredObject bucketName fileName body contentType cacheControl in
    match storage_upload env (objects w) o with
    | Some m => (Resolve (Some m), w)
    | None => (Resolve None, set_objects (fun l => (l ++ [o])%list) w)
    end.

(** [supabase.from('recordings').insert(row)]. *)
Definition insert (row : Row) : Async (option string) :=
  fun w =>
    match table_insert env (recordings w) row with
    | Some m => (Resolve (Some m), w)
    | None => (Resolve None, set_recordings (fun l => (l ++ [row])%list) w)
    end.

(** The rows changed by [update({ transcript_url, audio_summary })
    .eq('recording_sid', recordingSid)]: every matching row, none other. *)
Definition update_row (recordingSid transcript_url summary : string) (r : Row) : Row :=
  if String.eqb (recording_sid r) recordingSid then
    {| recording_sid := recording_sid r;
       call_sid := call_sid r;
       duration := duration r;
       audio_summary := Some summary;
       audio_url := audio_url r;
       transcript_url := Some transcript_url;
       created_at := created_at r |}
  else r.

Definition update (recordingSid transcript_url summary : string) : Async (option string) :=
  fun w =>
    match table_update env (recordings w) recordingSid with
    | Some m => (Resolve (Some m), w)
    | None =>
        (Resolve None,
         set_recordings (map (update_row recordingSid transcript_url summary)) w)
    end.

Definition storeRecording (recording : list Byte.byte) (metadata : RecordingMetadata)
    : Async string :=
  try_catch
    (let fileName := md_recording_sid metadata ++ ".mp3" in
     let bucketName := "recordings" in
     uploadError <- upload bucketName fileName recording "audio/mpeg" "3600" ;;
     match uploadError with
     | Some m => throw (Error ("Failed to upload recording: " ++ m))
     | None =>
         let audio_url := getPublicUrl env bucketName fileName in
         metadataError <-
           insert {| recording_sid := md_recording_sid metadata;
                     call_sid := md_call_sid metadata;
                     duration := md_duration metadata;
                     audio_summary := Js.or_null (md_audio_summary metadata);
                     audio_url := Some audio_url;
                     transcript_url := Js.or_null (md_transcript_url metadata);
                     created_at := now env |} ;;
         match metadataError with
         | Some m => throw (Error ("Failed to store metadata: " ++ m))
         | None => ret audio_url
         end
     end)
    (fun error => (* console.error(...) *) throw error).

Definition storeTranscriptionAndSummary (recordingSid transcription summary : string)
    : Async (string * string) :=
  try_catch
    (let fileName := recordingSid ++ "_transcript.txt" in
     let bucketName := "recordings" in
     uploadError <- upload bucketName fileName (list_byte_of_string transcription)
                      "text/plain" "3600" ;;
     match uploadError with
     | Some m => throw (Error ("Failed to upload transcript: " ++ m))
     | None =>
         let transcript_url := getPublicUrl env bucketName fileName in
         updateError <- update recordingSid transcript_url summary ;;
         match updateError with
         | Some m => throw (Error ("Failed to update recording with transcript: " ++ m))
         | None => ret (transcript_url, summary)
         end
     end)
    (fun error => (* console.error(...) *) throw error).

End WithEnv.

End StorageService.

(** ** services/ttsService.ts *)

Module TtsService.

Section WithEnv.
Variable env : Env.

(** [openai.audio.speech.create({ model, voice, input })]. *)
Definition speech_create (model voice input : string) : Async (list Byte.byte) :=
  fun w =>
    let w' := set_speech_requests (fun l => (l ++ [input])%list) w in
    match speech env model voice input with
    | Resolved audio => (Resolve audio, w')
    | Rejected e => (Reject e, w')
    end.

(** Generate human-like speech from text. *)
Definition generateSpeech (text recordingSid : string) : Async string :=
  try_catch
    (audioBuffer <- speech_create "tts-1" "nova" text ;;
     let fileName := recordingSid ++ "_summary_speech.mp3" in
     let bucketName := "recordings" in
     uploadError <- StorageService.upload env bucketName fileName audioBuffer
                      "audio/mpeg" "3600" ;;
     match uploadError with
     | Some m => throw (Error ("Failed to upload speech: " ++ m))
     | None => ret (getPublicUrl env bucketName fileName)
     end)
    (fun error =>
       logger_error "Error generating speech:" (message_or_unknown error) ;;
       throw error).

End WithEnv.

End TtsService.

(** ** services/recordingService.ts *)

Module RecordingService.

Section WithEnv.
Variable env : Env.

(** [await fetch(url, { method: 'GET', headers: { Authorization } })]. *)
Definition fetch_get (url authorization : string) : Async HttpResponse :=
  fun w =>
    match fetch env url authorization with
    | Resolved r => (Resolve r, w)
    | Rejected e => (Reject e, w)
    end.

(** [await Promise.all([a, b])]: both tasks are started and run to their
    end, also when the other one rejects; the result rejects with the
    first rejection.  The world returned is the one reached when both
    tasks have settled.  The storage task only touches the bucket and
    the table, the processing task only the request counters, the
    timeouts and the log, so the order in which the tasks take their
    steps does not show in that world (lemma [concurrent_phase_order]
    below).  The program itself goes on at the first rejection, while
    the other task may still be running: what that task logs from then
    on is written after the lines of the handlers, whereas the log of
    the settled world has it before them.  The log of the model holds
    the lines that a run writes, those of each task in their order; the
    place of a handler's line among the lines of a task left running is
    not that of the program. *)
Definition promise_all {A B} (a : Async A) (b : Async B) : Async (A * B) :=
  fun w =>
    let '(ra, w1) := a w in
    let '(rb, w2) := b w1 in
    match ra, rb with
    | Resolve x, Resolve y => (Resolve (x, y), w2)
    | Reject e1, Reject e2 =>
        (Reject (if storage_rejects_first env then e1 else e2), w2)
    | Reject e, Resolve _ => (Reject e, w2)
    | Resolve _, Reject e => (Reject e, w2)
    | Diverge, _ => (Diverge, w2)
    | _, Diverge => (Diverge, w2)
    end.

(** [await twilioClient.calls(callSid).fetch()]. *)
Definition twilio_calls_fetch (callSid : string) : Async CallResource :=
  fun w =>
    match calls_fetch env callSid with
    | Resolved c => (Resolve c, w)
    | Rejected e => (Reject e, w)
    end.

(** [await twilioClient.calls.create({ to, from, twiml })]. *)
Definition twilio_calls_create (c : OutboundCall) : Async unit :=
  fun w =>
    match calls_create env c with
    | Some e => (Reject e, w)
    | None => (Resolve tt, set_calls_created (fun l => (l ++ [c])%list) w)
    end.

(** The call back to the caller: the body of [if (callerNumber)]. *)
Definition call_back (recordingSid summary callerNumber : string) : Async unit :=
  try_catch
    (let summaryText :=
       "Hello, here is a summary of your recent call. " ++ summary
       ++ " Thank you for using our service. Goodbye." in
     speechUrl <- TtsService.generateSpeech env summaryText recordingSid ;;
     twilio_calls_create
       {| call_to := callerNumber;
          call_from := phoneNumber env;
          call_twiml := "<Response>
                      <Play>" ++ speechUrl ++ "</Play>
                    </Response>" |} ;;
     ret tt)
    (fun speechError =>
       logger_error "Error generating or playing speech:"
                    (message_or_unknown speechError)).

Definition processRecording (recordingSid callSid recordingUrl : string)
    (duration : option string) : Async unit :=
  try_catch
    ((* Download the recording with Twilio authentication *)
     recordingResponse <-
       fetch_get (recordingUrl ++ ".mp3")
         ("Basic " ++ base64 env (accountSid env ++ ":" ++ authToken env)) ;;
     if negb (http_ok recordingResponse) then
       throw (Error ("Failed to download recording: "
                     ++ Js.show_int (http_status recordingResponse) ++ " "
                     ++ http_statusText recordingResponse))
     else
       let audioBuffer := http_body recordingResponse in
       (* Run storage and transcription in parallel *)
       results <-
         promise_all
           (StorageService.storeRecording env audioBuffer
              {| md_recording_sid := recordingSid;
                 md_call_sid := callSid;
                 md_duration := Js.parseInt duration;
                 md_audio_url := Some recordingUrl;
                 md_transcript_url := Some "";
                 md_audio_summary := Some "" |})
           (RecordingProcessorService.processRecording env audioBuffer) ;;
       let processingResult := snd results in
       (* After both complete, store the transcription and summary *)
       StorageService.storeTranscriptionAndSummary env recordingSid
         (RecordingProcessorService.transcription processingResult)
         (RecordingProcessorService.summary processingResult) ;;
       (* Get caller info from Twilio *)
       call <- twilio_calls_fetch callSid ;;
       let callerNumber := from call in
       (if Js.truthy callerNumber
        then call_back recordingSid
               (RecordingProcessorService.summary processingResult)
               (Js.or_else callerNumber "")
        else ret tt) ;;
       ret tt)
    (fun error =>
       logger_error "Error processing recording:" (message_or_unknown error) ;;
       throw error).

End WithEnv.

End RecordingService.

(** ** controllers/recordingController.ts *)

Module RecordingController.

(** The body of the [/recording-status] webhook; any field may be
    missing from the request. *)
Record RecordingStatusRequest : Type := mkRecordingStatusRequest {
  RecordingUrl : option string;
  RecordingSid : option string;
  CallSid : option string;
  RecordingDuration : option string;
  RecordingStatus : option string
}.

(** [res.status(code).send(text)]. *)
Record HttpReply : Type := mkHttpReply {
  reply_status : Z;
  reply_text : string
}.

Section WithEnv.
Variable env : Env.

Definition handleRecordingStatus (body : RecordingStatusRequest) : Async HttpReply :=
  try_catch
    (if negb (Js.truthy (RecordingUrl body))
        || negb (Js.truthy (RecordingSid body))
        || negb (Js.truthy (CallSid body))
     then
       logger_error "Missing required fields in recording callback:" "" ;;
       ret {| reply_status := 400; reply_text := "Missing required fields in request" |}
     else
       RecordingService.processRecording env
         (Js.or_else (RecordingSid body) "")
         (Js.or_else (CallSid body) "")
         (Js.or_else (RecordingUrl body) "")
         (RecordingDuration body) ;;
       ret {| reply_status := 200; reply_text := "Recording status processed" |})
    (fun error =>
       logger_error "Error handling recording status:" (message_or_unknown error) ;;
       ret {| reply_status := 500; reply_text := "Error processing recording status" |}).

End WithEnv.

End RecordingController.

(** * Specification vocabulary *)

(** [needle] occurs in [s] when letter case is ignored: some substring
    of [s] is [needle] up to the case of its letters. *)
Definition contains_ci (s needle : string) : Prop :=
  exists pre mid post, s = pre ++ mid ++ post /\ Js.toLowerCase mid = needle.

(** The quota/billing class of API errors, as the specification words
    it: a known error code, a known error type, HTTP status 429, or a
    message that mentions quota, billing or a rate limit. *)
Definition QuotaClass (e : ApiError) : Prop :=
  RecordingProcessorService.response_code e = Some "insufficient_quota"
  \/ RecordingProcessorService.response_type e = Some "insufficient_quota"
  \/ RecordingProcessorService.response_status e = Some 429
  \/ exists m, message e = Some m
               /\ (contains_ci m "quota" \/ contains_ci m "billing"
                   \/ contains_ci m "rate limit").

(** The worlds reached along one iteration of a retry loop. *)

(** Before the request of the attempt numbered [retryCount]: the backoff
    delay has been awaited, unless this is the first attempt. *)
Definition before_attempt (cap : Z) (retryCount : nat) (w : World) : World :=
  if (0 <? retryCount)%nat
  then set_timeouts (fun l => (l ++ [RecordingProcessorService.delayMs retryCount cap])%list) w
  else w.

Definition logged (label detail : string) (w : World) : World :=
  set_error_log (fun l => (l ++ [(label, detail)])%list) w.

(** After the transcription request of the attempt was rejected with [e]. *)
Definition transcription_rejected (retryCount : nat) (e : ApiError) (w : World) : World :=
  logged "Axios error details:" (Js.show (message e))
    (set_transcription_requests S (before_attempt 30000 retryCount w)).

(** After the completion request of the attempt was rejected with [e]. *)
Definition completion_rejected (retryCount : nat) (e : ApiError) (w : World) : World :=
  logged "Summary generation error:" (Js.show (message e))
    (set_completion_requests S (before_attempt 10000 retryCount w)).

(** The first [k] transcription requests issued from [w] are rejected
    with errors outside the quota class. *)
Definition transient_transcriptions (env : Env) (audio : list Byte.byte)
    (w : World) (k : nat) : Prop :=
  forall i, (i < k)%nat ->
    exists e, whisper env (transcription_requests w + i) audio = Rejected e
              /\ ~ QuotaClass e.

(** The first [k] completion requests issued from [w] are rejected with
    errors outside the quota class. *)
Definition transient_completions (env : Env) (transcript : string)
    (w : World) (k : nat) : Prop :=
  forall i, (i < k)%nat ->
    exists e, chat env (completion_requests w + i)
                (RecordingProcessorService.summary_request transcript) = Rejected e
              /\ ~ QuotaClass e.

(** The delays awaited before the retries numbered 1 to [r]. *)
Definition retry_delays (cap : Z) (r : nat) : list Z :=
  map (fun n => RecordingProcessorService.delayMs n cap) (seq 1 r).

(** The delay awaited before the attempt numbered [retryCount], if any. *)
Definition attempt_delay (cap : Z) (retryCount : nat) : list Z :=
  if (0 <? retryCount)%nat
  then [RecordingProcessorService.delayMs retryCount cap]
  else [].

(** The bucket, the table, the speech requests and the outbound calls
    are the same in [w] and [w']. *)
Definition same_stores (w w' : World) : Prop :=
  objects w' = objects w /\ recordings w' = recordings w
  /\ speech_requests w' = speech_requests w
  /\ calls_created w' = calls_created w.

(** Test doubles for the remote collaborators: the happy path of the
    end-to-end scenario, and the ways to make one collaborator fail. *)
Module Mock.

Definition network_error : ApiError := Error "socket hang up".

Definition too_many_requests : ApiError :=
  {| message := Some "Request failed with status code 429";
     response := Some {| resp_data := None; resp_status := Some 429 |} |}.

Definition completion (text : string) : ChatCompletion :=
  {| choices := [ {| choice_message := Some {| content := Some text |} |} ] |}.

Definition mp3 : list Byte.byte := list_byte_of_string "ID3".

Definition env : Env :=
  {| accountSid := "AC0";
     authToken := "secret";
     phoneNumber := "+15550100";
     base64 := fun s => s;
     now := "2025-01-01T00:00:00.000Z";
     fetch := fun _ _ =>
       Resolved {| http_status := 200; http_statusText := "OK"; http_body := mp3 |};
     storage_upload := fun _ _ => None;
     getPublicUrl := fun bucket name =>
       "https://storage.test/object/public/" ++ bucket ++ "/" ++ name;
     table_insert := fun _ _ => None;
     table_update := fun _ _ => None;
     whisper := fun _ _ => Resolved "hello world";
     chat := fun _ _ => Resolved (completion "Quick call about hello world.");
     speech := fun _ _ _ => Resolved mp3;
     calls_fetch := fun _ => Resolved {| from := Some "+15550123" |};
     calls_create := fun _ => None;
     storage_rejects_first := true |}.

Definition with_whisper (f : nat -> list Byte.byte -> Reply string) (e : Env) : Env :=
  mkEnv (accountSid e) (authToken e) (phoneNumber e) (base64 e) (now e) (fetch e)
        (storage_upload e) (getPublicUrl e) (table_insert e) (table_update e)
        f (chat e) (speech e) (calls_fetch e) (calls_create e)
        (storage_rejects_first e).

Definition with_chat (f : nat -> ChatRequest -> Reply ChatCompletion) (e : Env) : Env :=
  mkEnv (accountSid e) (authToken e) (phoneNumber e) (base64 e) (now e) (fetch e)
        (storage_upload e) (getPublicUrl e) (table_insert e) (table_update e)
        (whisper e) f (speech e) (calls_fetch e) (calls_create e)
        (storage_rejects_first e).

Definition with_fetch (f : string -> string -> Reply HttpResponse) (e : Env) : Env :=
  mkEnv (accountSid e) (authToken e) (phoneNumber e) (base64 e) (now e) f
        (storage_upload e) (getPublicUrl e) (table_insert e) (table_update e)
        (whisper e) (chat e) (speech e) (calls_fetch e) (calls_create e)
        (storage_rejects_first e).

Definition with_storage_upload
    (f : list StoredObject -> StoredObject -> option string) (e : Env) : Env :=
  mkEnv (accountSid e) (authToken e) (phoneNumber e) (base64 e) (now e) (fetch e)
        f (getPublicUrl e) (table_insert e) (table_update e)
        (whisper e) (chat e) (speech e) (calls_fetch e) (calls_create e)
        (storage_rejects_first e).

Definition with_speech (f : string -> string -> string -> Reply (list Byte.byte))
    (e : Env) : Env :=
  mkEnv (accountSid e) (authToken e) (phoneNumber e) (base64 e) (now e) (fetch e)
        (storage_upload e) (getPublicUrl e) (table_insert e) (table_update e)
        (whisper e) (chat e) f (calls_fetch e) (calls_create e)
        (storage_rejects_first e).

Definition with_calls_fetch (f : string -> Reply CallResource) (e : Env) : Env :=
  mkEnv (accountSid e) (authToken e) (phoneNumber e) (base64 e) (now e) (fetch e)
        (storage_upload e) (getPublicUrl e) (table_insert e) (table_update e)
        (whisper e) (chat e) (speech e) f (calls_create e)
        (storage_rejects_first e).

Definition with_calls_create (f : OutboundCall -> option ApiError) (e : Env) : Env :=
  mkEnv (accountSid e) (authToken e) (phoneNumber e) (base64 e) (now e) (fetch e)
        (storage_upload e) (getPublicUrl e) (table_insert e) (table_update e)
        (whisper e) (chat e) (speech e) (calls_fetch e) f
        (storage_rejects_first e).

(** The first [k] requests are rejected with [e], the later ones with
    [last]. *)
Definition rejecting {A B} (k : nat) (e last : ApiError) : nat -> A -> Reply B :=
  fun n _ => if (n <? k)%nat then Rejected e else Rejected last.

(** The first [k] requests are rejected with [e], the later ones are
    answered with [b]. *)
Definition failing_then {A B} (k : nat) (e : ApiError) (b : B) : nat -> A -> Reply B :=
  fun n _ => if (n <? k)%nat then Rejected e else Resolved b.

(** One transient failure, then the account is out of quota. *)
Definition quota_after_one : Env :=
  with_whisper (rejecting 1 network_error too_many_requests)
    (with_chat (rejecting 1 network_error too_many_requests) env).

(** Both APIs are unreachable. *)
Definition unreachable : Env :=
  with_whisper (rejecting 0 network_error network_error)
    (with_chat (rejecting 0 network_error network_error) env).

(** One transient failure, then the APIs answer. *)
Definition flaky : Env :=
  with_whisper (failing_then 1 network_error "hello world")
    (with_chat (failing_then 1 network_error
                  (completion "Quick call about hello world.")) env).

Definition recording_url : string := "https://api.twilio.test/Recordings/RE1".

(** The transcription API reports an exhausted quota. *)
Definition out_of_quota : Env :=
  with_whisper (fun _ _ => Rejected too_many_requests) env.

(** The bucket accepts audio but refuses the transcript. *)
Definition transcript_refused : Env :=
  with_storage_upload
    (fun _ o => if String.eqb (obj_contentType o) "text/plain"
                then Some "Payload too large" else None) env.

(** The recording is gone at the provider. *)
Definition not_found : Env :=
  with_fetch (fun _ _ =>
    Resolved {| http_status := 404; http_statusText := "Not Found"; http_body := [] |})
    env.

(** The telephony API fails on the lookup of the call. *)
Definition lookup_fails : Env :=
  with_calls_fetch (fun _ => Rejected network_error) env.

(** The telephony API refuses to place the call. *)
Definition call_refused : Env :=
  with_calls_create (fun _ => Some network_error) env.

(** The call has no caller number. *)
Definition anonymous_caller : Env :=
  with_calls_fetch (fun _ => Resolved {| from := None |}) env.

(** A bucket that refuses a name it already holds, as an upload
    without the upsert option is refused by a provider that does not
    overwrite. *)
Definition no_overwrite : Env :=
  with_storage_upload
    (fun stored o =>
       if existsb (fun x => String.eqb (obj_bucket x) (obj_bucket o)
                            && String.eqb (obj_name x) (obj_name o)) stored
       then Some "The resource already exists" else None) env.

(** The Metadata Record of the scenario after the insert. *)
Definition inserted : Row :=
  {| recording_sid := "RE1";
     call_sid := "CA1";
     duration := Js.Int 12;
     audio_summary := None;
     audio_url := Some "https://storage.test/object/public/recordings/RE1.mp3";
     transcript_url := None;
     created_at := "2025-01-01T00:00:00.000Z" |}.

(** The Metadata Record of the scenario after the update. *)
Definition updated : Row :=
  {| recording_sid := "RE1";
     call_sid := "CA1";
     duration := Js.Int 12;
     audio_summary := Some "Quick call about hello world.";
     audio_url := Some "https://storage.test/object/public/recordings/RE1.mp3";
     transcript_url :=
       Some "https://storage.test/object/public/recordings/RE1_transcript.txt";
     created_at := "2025-01-01T00:00:00.000Z" |}.

End Mock.

(** The schedule of the specification: 1 s before the first retry, doubling
    at each retry, capped. *)
Definition spec_backoff_delay (cap : Z) (n : nat) : Z :=
  Z.min (1000 * 2 ^ (Z.of_nat n - 1)) cap.

(** The pipeline of [RecordingService.processRecording], cut where the
    specification cuts it: steps 1 to 3 (download, concurrent phase,
    persistence of the combined result), then step 4 (the call back).
    Lemma [processRecording_steps] below shows that the function is
    these two parts in sequence, inside its handler. *)
Module Pipeline.

Section WithEnv.
Variable env : Env.

(** The [Authorization] header of the download. *)
Definition authorization : string :=
  "Basic " ++ base64 env (accountSid env ++ ":" ++ authToken env).

(** The object uploaded by [storeRecording]. *)
Definition audio_object (recordingSid : string) (audio : list Byte.byte) : StoredObject :=
  mkStoredObject "recordings" (recordingSid ++ ".mp3") audio "audio/mpeg" "3600".

(** The object uploaded by [storeTranscriptionAndSummary]. *)
Definition transcript_object (recordingSid transcription : string) : StoredObject :=
  mkStoredObject "recordings" (recordingSid ++ "_transcript.txt")
    (list_byte_of_string transcription) "text/plain" "3600".

(** The object uploaded by [generateSpeech]. *)
Definition speech_object (recordingSid : string) (audio : list Byte.byte) : StoredObject :=
  mkStoredObject "recordings" (recordingSid ++ "_summary_speech.mp3") audio
    "audio/mpeg" "3600".

Definition audio_public_url (recordingSid : string) : string :=
  getPublicUrl env "recordings" (recordingSid ++ ".mp3").

Definition transcript_public_url (recordingSid : string) : string :=
  getPublicUrl env "recordings" (recordingSid ++ "_transcript.txt").

(** The Metadata Record inserted by the pipeline run. *)
Definition inserted_row (recordingSid callSid : string) (duration : option string) : Row :=
  {| recording_sid := recordingSid;
     call_sid := callSid;
     duration := Js.parseInt duration;
     audio_summary := None;
     audio_url := Some (audio_public_url recordingSid);
     transcript_url := None;
     created_at := now env |}.

Definition steps_1_to_3 (recordingSid callSid recordingUrl : string)
    (duration : option string) : Async RecordingProcessorService.ProcessedRecording :=
  recordingResponse <-
    RecordingService.fetch_get env (recordingUrl ++ ".mp3") authorization ;;
  if negb (http_ok recordingResponse) then
    throw (Error ("Failed to download recording: "
                  ++ Js.show_int (http_status recordingResponse) ++ " "
                  ++ http_statusText recordingResponse))
  else
    let audioBuffer := http_body recordingResponse in
    results <-
      RecordingService.promise_all env
        (StorageService.storeRecording env audioBuffer
           {| md_recording_sid := recordingSid;
              md_call_sid := callSid;
              md_duration := Js.parseInt duration;
              md_audio_url := Some recordingUrl;
              md_transcript_url := Some "";
              md_audio_summary := Some "" |})
        (RecordingProcessorService.processRecording env audioBuffer) ;;
    StorageService.storeTranscriptionAndSummary env recordingSid
      (RecordingProcessorService.transcription (snd results))
      (RecordingProcessorService.summary (snd results)) ;;
    ret (snd results).

Definition step_4 (recordingSid callSid : string)
    (processingResult : RecordingProcessorService.ProcessedRecording) : Async unit :=
  call <- RecordingService.twilio_calls_fetch env callSid ;;
  (if Js.truthy (from call)
   then RecordingService.call_back env recordingSid
          (RecordingProcessorService.summary processingResult)
          (Js.or_else (from call) "")
   else ret tt) ;;
  ret tt.

End WithEnv.

End Pipeline.

(** A computation that neither reads nor writes the bucket and the
    table: it runs the same way whatever they hold. *)
Definition stores_blind {A} (c : Async A) : Prop :=
  forall f g w,
    c (set_objects f (set_recordings g w))
    = (fst (c w), set_objects f (set_recordings g (snd (c w)))).

Definition is_reject {A} (r : Outcome A) : Prop :=
  match r with Reject _ => True | _ => False end.

(** A decimal digit. *)
Definition is_decimal_digit (c : ascii) : bool :=
  let n := nat_of_ascii c in (Nat.leb 48 n && Nat.leb n 57)%bool.

Fixpoint all_decimal_digits (s : string) : bool :=
  match s with
  | EmptyString => true
  | String c r => is_decimal_digit c && all_decimal_digits r
  end.

(** A numeric duration, as the data model of the specification has it:
    a non-negative integer, written in decimal digits. *)
Definition numeric_duration (v : option string) : bool :=
  match v with
  | Some (String c r) => all_decimal_digits (String c r)
  | _ => false
  end.

(** A run of white space. *)
Inductive blank : string -> Prop :=
| blank_nil : blank ""
| blank_cons (u ws : string) : In u Js.white_space -> blank ws -> blank (u ++ ws).

(** [s] starts with a white space character. *)
Definition starts_blank (s : string) : Prop :=
  exists u r, In u Js.white_space /\ s = u ++ r.

Definition is_sign (c : ascii) : bool := (Ascii.eqb c "+" || Ascii.eqb c "-")%bool.

(** A hexadecimal digit. *)
Definition is_hex_digit (c : ascii) : bool :=
  let n := nat_of_ascii c in
  (is_decimal_digit c || (Nat.leb 97 n && Nat.leb n 102) || (Nat.leb 65 n && Nat.leb n 70))%bool.

Fixpoint all_hex_digits (s : string) : bool :=
  match s with
  | EmptyString => true
  | String c r => is_hex_digit c && all_hex_digits r
  end.

(** The first character of [s], if any, satisfies [p]. *)
Definition first_is (p : ascii -> bool) (s : string) : bool :=
  match s with String c _ => p c | EmptyString => false end.

(** [s] starts with [0x] or [0X]. *)
Definition hex_prefix (s : string) : bool :=
  (String.prefix "0x" s || String.prefix "0X" s)%bool.

(** The value of a digit: 0 to 9, then a or A for 10 up to f or F for 15. *)
Definition digit (c : ascii) : Z :=
  let n := Z.of_nat (nat_of_ascii c) in
  if is_decimal_digit c then n - 48
  else if n <? 97 then n - 55 else n - 87.

(** The value of a numeral: its digits weighed by the powers of the
    radix. *)
Fixpoint numeral (radix : Z) (ds : string) : Z :=
  match ds with
  | EmptyString => 0
  | String c r => digit c * radix ^ Z.of_nat (String.length r) + numeral radix r
  end.

(** The sign that a sign string stands for. *)
Definition sign_of (sg : string) : Z := if String.eqb sg "-" then -1 else 1.

(** The number that [parseInt] returns for the digits of value [n]
    read after the sign [sign]. *)
Definition signed_integer (sign n : Z) : Js.number :=
  Js.of_digits sign (Some n).

(** An integer that a finite double holds: at most 53 significant bits,
    below 2^1024. *)
Definition double_integer (y : Z) : Prop :=
  exists m e, 0 <= e /\ Z.abs m < 2 ^ 53 /\ y = m * 2 ^ e /\ Z.abs y < 2 ^ 1024.

(** [y] is the double to which the integer [z] rounds: a double nearest
    to [z], and when another one is as near, the one of the two whose
    significand is even (a multiple of twice their distance). *)
Definition rounds_to (z y : Z) : Prop :=
  double_integer y
  /\ (forall y', double_integer y' -> Z.abs (z - y) <= Z.abs (z - y'))
  /\ (forall y', double_integer y' -> Z.abs (z - y') = Z.abs (z - y) ->
         y' = y \/ (2 * Z.abs (y - y') | y)).

(** Requests of the [/recording-status] webhook for the recording of
    the scenario, with a given [RecordingDuration]. *)
Definition status_request (d : option string) : RecordingController.RecordingStatusRequest :=
  {| RecordingController.RecordingUrl := Some Mock.recording_url;
     RecordingController.RecordingSid := Some "RE1";
     RecordingController.CallSid := Some "CA1";
     RecordingController.RecordingDuration := d;
     RecordingController.RecordingStatus := Some "completed" |}.

(** A world whose table holds the Metadata Record of the scenario, as
    inserted. *)
Definition world_with_record : World :=
  set_recordings (fun _ => [Mock.inserted]) empty_world.

(** * The rest of the code *)

From Stdlib Require DecimalPos.

(** ** More JavaScript helpers *)

Module JsMore.

(** [parseInt(s, 10)]: as [parseInt] with radix 10 given, so that no
    [0x] prefix is read. *)
Definition parseInt10_string (s : string) : Js.number :=
  let s1 := Js.trimStart s in
  let '(sign, s2) :=
    match s1 with
    | String "-" r => (-1, r)
    | String "+" r => (1, r)
    | _ => (1, s1)
    end in
  Js.of_digits sign (Js.read_digits 10 s2 false 0).

(** [s.replace(/[:.]/g, '-')]. *)
Fixpoint replace_colon_dot (s : string) : string :=
  match s with
  | EmptyString => EmptyString
  | String c r =>
      String (if (Ascii.eqb c ":" || Ascii.eqb c ".")%bool then "-"%char else c)
             (replace_colon_dot r)
  end.

End JsMore.

(** ** The standalone server (the earlier recording handler) *)

Module StandaloneServer.

(** The metadata that [saveRecordingToFile] returns. *)
Record FileMetadata : Type := mkFileMetadata {
  fm_recording_sid : string;
  fm_call_sid : string;
  fm_duration : Js.number;
  fm_file_path : string;
  fm_created_at : string
}.

Record SavedRecording : Type := mkSavedRecording {
  filePath : string;
  metadata : FileMetadata
}.

Section WithEnv.
Variable env : Env.
(** [path.join(__dirname, '../recordings')], and [path.join] itself. *)
Variable recordingsDir : string.
Variable path_join : string -> string -> string.

(** Save recording to local file system: both writes are commented out
    in the source, so the function only computes the path and the
    metadata. *)
Definition saveRecordingToFile (recordingSid callSid : string)
    (fileBuffer : list Byte.byte) (duration : option string) : Async SavedRecording :=
  try_catch
    (let timestamp := JsMore.replace_colon_dot (now env) in
     let fileName := callSid ++ "_" ++ timestamp ++ ".mp3" in
     let filePath := path_join recordingsDir fileName in
     let metadata :=
       {| fm_recording_sid := recordingSid;
          fm_call_sid := callSid;
          fm_duration := JsMore.parseInt10_string (Js.or_else duration "0");
          fm_file_path := filePath;
          fm_created_at := timestamp |} in
     ret {| filePath := filePath; metadata := metadata |})
    (fun error => (* console.error(...) *) throw error).

(** The [/recording-status] route of the standalone server. *)
Definition recording_status (body : RecordingController.RecordingStatusRequest)
    : Async RecordingController.HttpReply :=
  try_catch
    (if negb (Js.truthy (RecordingController.RecordingUrl body))
        || negb (Js.truthy (RecordingController.RecordingSid body))
        || negb (Js.truthy (RecordingController.CallSid body))
     then
       ret {| RecordingController.reply_status := 400;
              RecordingController.reply_text := "Missing required fields in request" |}
     else
       try_catch
         (recordingResponse <-
            RecordingService.fetch_get env
              (Js.or_else (RecordingController.RecordingUrl body) "" ++ ".mp3")
              ("Basic " ++ base64 env (accountSid env ++ ":" ++ authToken env)) ;;
          if negb (http_ok recordingResponse) then
            throw (Error ("Failed to download recording: "
                          ++ Js.show_int (http_status recordingResponse) ++ " "
                          ++ http_statusText recordingResponse))
          else
            saveRecordingToFile
              (Js.or_else (RecordingController.RecordingSid body) "")
              (Js.or_else (RecordingController.CallSid body) "")
              (http_body recordingResponse)
              (RecordingController.RecordingDuration body) ;;
            ret {| RecordingController.reply_status := 200;
                   RecordingController.reply_text := "Recording status processed" |})
         (fun downloadError =>
            ret {| RecordingController.reply_status := 500;
                   RecordingController.reply_text :=
                     "Error downloading recording: " ++ string_of_error downloadError |}))
    (fun error =>
       ret {| RecordingController.reply_status := 500;
              RecordingController.reply_text := "Error processing recording status" |}).

End WithEnv.

End StandaloneServer.

(** ** config/env.ts *)

Module Config.

(** [process.env]. *)
Definition ProcessEnv : Type := string -> option string.

Definition requiredEnvVars : list string :=
  ["TWILIO_ACCOUNT_SID"; "TWILIO_AUTH_TOKEN"].

(** [requiredEnvVars.filter(varName => !process.env[varName])]. *)
Definition missingVars (process_env : ProcessEnv) : list string :=
  filter (fun varName => negb (Js.truthy (process_env varName))) requiredEnvVars.

Record TwilioConfig : Type := mkTwilioConfig {
  cfg_accountSid : string;
  cfg_authToken : string;
  cfg_phoneNumber : string
}.

Record SupabaseConfig : Type := mkSupabaseConfig {
  cfg_url : string;
  cfg_key : string
}.

Record Settings : Type := mkSettings {
  cfg_port : string + Z;              (* process.env.PORT || 3000 *)
  cfg_twilio : TwilioConfig;
  cfg_supabase : SupabaseConfig;
  cfg_openai_apiKey : string;
  cfg_recordingsDir : string
}.

Section WithHost.
(** [process.cwd()] and [path.join]. *)
Variable cwd : string.
Variable path_join : string -> string -> string.

(** The default export of config/env.ts. *)
Definition settings (process_env : ProcessEnv) : Settings :=
  {| cfg_port :=
       if Js.truthy (process_env "PORT")
       then inl (Js.or_else (process_env "PORT") "")
       else inr 3000;
     cfg_twilio :=
       {| cfg_accountSid := Js.or_else (process_env "TWILIO_ACCOUNT_SID") "";
          cfg_authToken := Js.or_else (process_env "TWILIO_AUTH_TOKEN") "";
          cfg_phoneNumber := Js.or_else (process_env "TWILIO_PHONE_NUMBER") "" |};
     cfg_supabase :=
       {| cfg_url := Js.or_else (process_env "SUPABASE_URL") "";
          cfg_key := Js.or_else (process_env "SUPABASE_KEY") "" |};
     cfg_openai_apiKey := Js.or_else (process_env "OPENAI_API_KEY") "";
     cfg_recordingsDir := path_join cwd "recordings" |}.

End WithHost.

End Config.

(** ** Vocabulary of the further properties *)

(** The sum of a list of delays. *)
Definition total (l : list Z) : Z := fold_right Z.add 0 l.

(** The number of Metadata Records of a recording. *)
Definition records_of (sid : string) (l : list Row) : nat :=
  length (filter (fun r => String.eqb (recording_sid r) sid) l).

(** The request of [checkApiQuota]. *)
Definition quota_probe : ChatRequest :=
  {| chat_model := "gpt-3.5-turbo"; chat_system := None;
     chat_user := "Test"; chat_max_tokens := 5 |}.

(** The words spoken to the caller. *)
Definition summary_speech (summary : string) : string :=
  "Hello, here is a summary of your recent call. " ++ summary
  ++ " Thank you for using our service. Goodbye.".

(** The public URL of the speech object of a recording. *)
Definition speech_public_url (env : Env) (recordingSid : string) : string :=
  getPublicUrl env "recordings" (recordingSid ++ "_summary_speech.mp3").

(** The outbound call that plays the speech of a recording. *)
Definition outbound_call (env : Env) (recordingSid callerNumber : string) : OutboundCall :=
  {| call_to := callerNumber;
     call_from := phoneNumber env;
     call_twiml := "<Response>
                      <Play>" ++ speech_public_url env recordingSid ++ "</Play>
                    </Response>" |}.

(** The request counters and the awaited delays are the same in [w] and
    [w']. *)
Definition adapters_quiet (w w' : World) : Prop :=
  transcription_requests w' = transcription_requests w
  /\ completion_requests w' = completion_requests w
  /\ timeouts w' = timeouts w.

(** What one run may cost: between 1 and 5 transcription requests, at
    most 3 completion requests, and backoff delays of 2 to 16 seconds
    that add up to 36 seconds at most. *)
Definition bounded_cost (w w' : World) : Prop :=
  (transcription_requests w + 1 <= transcription_requests w'
   <= transcription_requests w + 5)%nat
  /\ (completion_requests w <= completion_requests w'
      <= completion_requests w + 3)%nat
  /\ exists added,
       timeouts w' = (timeouts w ++ added)%list
       /\ total added <= 36000
       /\ Forall (fun d => 2000 <= d <= 16000) added.

(** The completion API is down, the rest answers. *)
Definition summary_down : Env :=
  Mock.with_chat (Mock.rejecting 0 Mock.network_error Mock.network_error) Mock.env.

(** The three replies of the [/recording-status] webhook. *)
Definition reply_missing_fields : RecordingController.HttpReply :=
  {| RecordingController.reply_status := 400;
     RecordingController.reply_text := "Missing required fields in request" |}.

Definition reply_processed : RecordingController.HttpReply :=
  {| RecordingController.reply_status := 200;
     RecordingController.reply_text := "Recording status processed" |}.


(** A computation that only adds lines to the error log. *)
Definition log_grows {A} (c : Async A) : Prop :=
  forall w, exists added, error_log (snd (c w)) = (error_log w ++ added)%list.

(** One of the three required fields of a webhook request is missing or
    empty. *)
Definition incomplete (body : RecordingController.RecordingStatusRequest) : Prop :=
  Js.truthy (RecordingController.RecordingUrl body) = false
  \/ Js.truthy (RecordingController.RecordingSid body) = false
  \/ Js.truthy (RecordingController.CallSid body) = false.

(** No character of [s] is a colon or a dot. *)
Fixpoint no_colon_no_dot (s : string) : Prop :=
  match s with
  | EmptyString => True
  | String c r => c <> ":"%char /\ c <> "."%char /\ no_colon_no_dot r
  end.

(** * Properties *)

(** ** Strings *)

Section StringFacts.

Lemma prefix_append (n s : string) : String.prefix n (n ++ s) = true.
Proof.
  induction n as [|c n IH]; simpl.
  - destruct s; reflexivity.
  - destruct (Ascii.ascii_dec c c) as [_|H]; [exact IH | now elim H].
Qed.

Lemma prefix_split (n s : string) :
  String.prefix n s = true -> exists post, s = n ++ post.
Proof.
  revert s; induction n as [|c n IH]; intros s H.
  - exists s; reflexivity.
  - destruct s as [|d s]; simpl in H; [discriminate|].
    destruct (Ascii.ascii_dec c d) as [->|_]; [|discriminate].
    destruct (IH s H) as [post ->]. exists post; reflexivity.
Qed.

Lemma includes_unfold (n s : string) :
  Js.includes n s =
  String.prefix n s
  || match s with EmptyString => false | String _ r => Js.includes n r end.
Proof. destruct s; reflexivity. Qed.

Lemma includes_intro (n pre post : string) :
  Js.includes n (pre ++ n ++ post) = true.
Proof.
  induction pre as [|c pre IH]; simpl.
  - rewrite includes_unfold, prefix_append. reflexivity.
  - rewrite IH. apply orb_true_r.
Qed.

Lemma includes_split (n s : string) :
  Js.includes n s = true -> exists pre post, s = pre ++ n ++ post.
Proof.
  induction s as [|c s IH]; intros H; rewrite includes_unfold in H.
  - rewrite orb_false_r in H. destruct (prefix_split _ _ H) as [post E].
    exists "", post. exact E.
  - apply orb_true_iff in H. destruct H as [H|H].
    + destruct (prefix_split _ _ H) as [post E]. exists "", post. exact E.
    + destruct (IH H) as (pre & post & ->).
      exists (String c pre), post. reflexivity.
Qed.

Lemma toLowerCase_append (a b : string) :
  Js.toLowerCase (a ++ b) = Js.toLowerCase a ++ Js.toLowerCase b.
Proof.
  induction a as [|c a IH]; simpl; [reflexivity | now rewrite IH].
Qed.

Lemma toLowerCase_split (s a b : string) :
  Js.toLowerCase s = a ++ b ->
  exists sa sb, s = sa ++ sb /\ Js.toLowerCase sa = a /\ Js.toLowerCase sb = b.
Proof.
  revert s; induction a as [|c a IH]; intros s H.
  - exists "", s. auto.
  - destruct s as [|d s]; simpl in H; [discriminate|].
    injection H as Hc Hs. destruct (IH s Hs) as (sa & sb & -> & Ha & Hb).
    exists (String d sa), sb. simpl. now rewrite Hc, Ha, Hb.
Qed.

End StringFacts.

Lemma includes_lower_iff (s needle : string) :
  Js.includes needle (Js.toLowerCase s) = true <-> contains_ci s needle.
Proof.
  split.
  - intros H. destruct (includes_split _ _ H) as (pre & post & E).
    destruct (toLowerCase_split _ _ _ E) as (sa & sb & -> & Ha & Hb).
    destruct (toLowerCase_split _ _ _ Hb) as (sm & sp & -> & Hm & Hp).
    exists sa, sm, sp. auto.
  - intros (pre & mid & post & -> & <-).
    rewrite !toLowerCase_append. apply includes_intro.
Qed.

Lemma is_string_iff (v : option string) (s : string) :
  RecordingProcessorService.is_string v s = true <-> v = Some s.
Proof.
  destruct v as [x|]; simpl; [|split; discriminate].
  rewrite String.eqb_eq. split; [now intros -> | now intros [= ->]].
Qed.

Lemma is_number_iff (v : option Z) (n : Z) :
  RecordingProcessorService.is_number v n = true <-> v = Some n.
Proof.
  destruct v as [x|]; simpl; [|split; discriminate].
  rewrite Z.eqb_eq. split; [now intros -> | now intros [= ->]].
Qed.

Lemma isQuotaError_iff (e : ApiError) :
  RecordingProcessorService.isQuotaError e = true <-> QuotaClass e.
Proof.
  unfold RecordingProcessorService.isQuotaError, QuotaClass.
  destruct (RecordingProcessorService.is_string
              (RecordingProcessorService.response_code e) _) eqn:Hc.
  { apply is_string_iff in Hc. simpl. tauto. }
  destruct (RecordingProcessorService.is_string
              (RecordingProcessorService.response_type e) _) eqn:Ht.
  { apply is_string_iff in Ht. simpl. tauto. }
  destruct (RecordingProcessorService.is_number
              (RecordingProcessorService.response_status e) _) eqn:Hs.
  { apply is_number_iff in Hs. simpl. tauto. }
  simpl.
  assert (Hc' : RecordingProcessorService.response_code e <> Some "insufficient_quota")
    by (intros H; apply is_string_iff in H; congruence).
  assert (Ht' : RecordingProcessorService.response_type e <> Some "insufficient_quota")
    by (intros H; apply is_string_iff in H; congruence).
  assert (Hs' : RecordingProcessorService.response_status e <> Some 429)
    by (intros H; apply is_number_iff in H; congruence).
  destruct (message e) as [m|].
  - assert (El : Js.or_else (Some (Js.toLowerCase m)) "" = Js.toLowerCase m).
    { unfold Js.or_else. simpl. destruct (Js.toLowerCase m); reflexivity. }
    rewrite El, !orb_true_iff, !includes_lower_iff.
    split.
    + intros H. right; right; right. exists m. split; [reflexivity | tauto].
    + intros [H|[H|[H|(m' & [= <-] & H)]]]; try contradiction. tauto.
  - split; [discriminate|].
    intros [H|[H|[H|(m' & [=] & _)]]]; contradiction.
Qed.

(** ** The retry loops, one iteration at a time *)

Section RetryLoops.
Import RecordingProcessorService.
Variable env : Env.

Lemma not_quota_false (e : ApiError) :
  ~ QuotaClass e -> isQuotaError e = false.
Proof.
  intros H. destruct (isQuotaError e) eqn:E; [|reflexivity].
  apply isQuotaError_iff in E. contradiction.
Qed.

Lemma before_attempt_transcription_requests cap rc w :
  transcription_requests (before_attempt cap rc w) = transcription_requests w.
Proof. unfold before_attempt. destruct (0 <? rc)%nat; reflexivity. Qed.

Lemma before_attempt_completion_requests cap rc w :
  completion_requests (before_attempt cap rc w) = completion_requests w.
Proof. unfold before_attempt. destruct (0 <? rc)%nat; reflexivity. Qed.

Lemma transcribe_step_resolved fuel audio rc w text :
  (rc < transcribe_maxRetries)%nat ->
  whisper env (transcription_requests w) audio = Resolved text ->
  transcribe_loop env (S fuel) audio rc w
  = (Resolve text, set_transcription_requests S (before_attempt 30000 rc w)).
Proof.
  intros Hrc Hw. apply Nat.ltb_lt in Hrc.
  cbn [transcribe_loop]. rewrite Hrc.
  unfold bind, attempt, try_catch, bind, post_transcription, before_attempt, sleep, modify, ret.
  destruct (0 <? rc)%nat; cbn; rewrite Hw; reflexivity.
Qed.

Lemma transcribe_step_quota fuel audio rc w e :
  (rc < transcribe_maxRetries)%nat ->
  whisper env (transcription_requests w) audio = Rejected e ->
  isQuotaError e = true ->
  transcribe_loop env (S fuel) audio rc w
  = (Reject (Error ("OpenAI API quota exceeded. Please check your billing details: "
                    ++ Js.show (message e))),
     logged "API quota exceeded or billing issue detected" ""
       (transcription_rejected rc e w)).
Proof.
  intros Hrc Hw Hq. apply Nat.ltb_lt in Hrc.
  cbn [transcribe_loop]. rewrite Hrc.
  unfold bind, attempt, try_catch, bind, post_transcription, transcription_rejected,
    before_attempt, logged, logger_error, sleep, modify, ret, throw.
  destruct (0 <? rc)%nat; cbn; rewrite Hw; cbn; rewrite Hq; reflexivity.
Qed.

Lemma transcribe_step_last fuel audio rc w e :
  (rc < transcribe_maxRetries)%nat ->
  (transcribe_maxRetries <= S rc)%nat ->
  whisper env (transcription_requests w) audio = Rejected e ->
  isQuotaError e = false ->
  transcribe_loop env (S fuel) audio rc w
  = (Reject (Error ("Transcription failed after 5 attempts: " ++ Js.show (message e))),
     logged "All transcription attempts failed" "" (transcription_rejected rc e w)).
Proof.
  intros Hrc Hlast Hw Hq. unfold transcribe_maxRetries in *.
  assert (rc = 4%nat) as -> by lia.
  cbn [transcribe_loop].
  unfold bind, attempt, try_catch, bind, post_transcription, transcription_rejected,
    before_attempt, logged, logger_error, sleep, modify, ret, throw.
  cbn. rewrite Hw. cbn. rewrite Hq. reflexivity.
Qed.

Lemma transcribe_step_retry fuel audio rc w e :
  (S rc < transcribe_maxRetries)%nat ->
  whisper env (transcription_requests w) audio = Rejected e ->
  isQuotaError e = false ->
  transcribe_loop env (S fuel) audio rc w
  = transcribe_loop env fuel audio (S rc) (transcription_rejected rc e w).
Proof.
  intros Hrc Hw Hq. unfold transcribe_maxRetries in *.
  assert (Hcases : rc = 0%nat \/ rc = 1%nat \/ rc = 2%nat \/ rc = 3%nat) by lia.
  cbn [transcribe_loop].
  unfold bind at 1. unfold attempt, try_catch, bind, post_transcription, transcription_rejected,
    before_attempt, logged, logger_error, sleep, modify, ret, throw.
  destruct Hcases as [-> | [-> | [-> | -> ]]]; cbn; rewrite Hw; cbn; rewrite Hq; reflexivity.
Qed.

Lemma summary_step_resolved fuel transcript rc w r :
  (rc < summary_maxRetries)%nat ->
  chat env (completion_requests w) (summary_request transcript) = Resolved r ->
  summary_loop env (S fuel) transcript rc w
  = (Resolve (Js.or_else (first_content r) "No summary generated"),
     set_completion_requests S (before_attempt 10000 rc w)).
Proof.
  intros Hrc Hw. apply Nat.ltb_lt in Hrc.
  cbn [summary_loop]. rewrite Hrc.
  unfold bind, attempt, try_catch, bind, chat_completions_create, before_attempt,
    sleep, modify, ret.
  destruct (0 <? rc)%nat; cbn; rewrite Hw; reflexivity.
Qed.

Lemma summary_step_quota fuel transcript rc w e :
  (rc < summary_maxRetries)%nat ->
  chat env (completion_requests w) (summary_request transcript) = Rejected e ->
  isQuotaError e = true ->
  summary_loop env (S fuel) transcript rc w
  = (Reject (Error ("OpenAI API quota exceeded when generating summary. Please check your billing details: "
                    ++ Js.show (message e))),
     logged "API quota exceeded or billing issue detected during summary generation" ""
       (completion_rejected rc e w)).
Proof.
  intros Hrc Hw Hq. apply Nat.ltb_lt in Hrc.
  cbn [summary_loop]. rewrite Hrc.
  unfold bind, attempt, try_catch, bind, chat_completions_create, completion_rejected,
    before_attempt, logged, logger_error, sleep, modify, ret, throw.
  destruct (0 <? rc)%nat; cbn; rewrite Hw; cbn; rewrite Hq; reflexivity.
Qed.

Lemma summary_step_last fuel transcript rc w e :
  (rc < summary_maxRetries)%nat ->
  (summary_maxRetries <= S rc)%nat ->
  chat env (completion_requests w) (summary_request transcript) = Rejected e ->
  isQuotaError e = false ->
  summary_loop env (S fuel) transcript rc w
  = (Resolve "Error generating summary. Please try again later.",
     logged "All summary generation attempts failed" "" (completion_rejected rc e w)).
Proof.
  intros Hrc Hlast Hw Hq. unfold summary_maxRetries in *.
  assert (rc = 2%nat) as -> by lia.
  cbn [summary_loop].
  unfold bind, attempt, try_catch, bind, chat_completions_create, completion_rejected,
    before_attempt, logged, logger_error, sleep, modify, ret, throw.
  cbn. rewrite Hw. cbn. rewrite Hq. reflexivity.
Qed.

Lemma summary_step_retry fuel transcript rc w e :
  (S rc < summary_maxRetries)%nat ->
  chat env (completion_requests w) (summary_request transcript) = Rejected e ->
  isQuotaError e = false ->
  summary_loop env (S fuel) transcript rc w
  = summary_loop env fuel transcript (S rc) (completion_rejected rc e w).
Proof.
  intros Hrc Hw Hq. unfold summary_maxRetries in *.
  assert (Hcases : rc = 0%nat \/ rc = 1%nat) by lia.
  cbn [summary_loop].
  unfold bind at 1. unfold attempt, try_catch, bind, chat_completions_create,
    completion_rejected, before_attempt, logged, logger_error, sleep, modify, ret, throw.
  destruct Hcases as [-> | -> ]; cbn; rewrite Hw; cbn; rewrite Hq; reflexivity.
Qed.

Lemma transcribe_loop_exit fuel audio rc w :
  (transcribe_maxRetries <= rc)%nat ->
  transcribe_loop env fuel audio rc w
  = (Reject (Error "Failed to transcribe after maximum retries"), w).
Proof.
  intros H. apply Nat.ltb_ge in H.
  destruct fuel; cbn [transcribe_loop]; rewrite H; reflexivity.
Qed.

Lemma summary_loop_exit fuel transcript rc w :
  (summary_maxRetries <= rc)%nat ->
  summary_loop env fuel transcript rc w
  = (Resolve "Unable to generate summary after multiple attempts", w).
Proof.
  intros H. apply Nat.ltb_ge in H.
  destruct fuel; cbn [summary_loop]; rewrite H; reflexivity.
Qed.

(** What a run of the transcription loop leaves behind, whatever the
    replies: it ends, it has issued [m] requests, one per attempt, it has
    awaited the delays of the attempts it made, and it has touched
    nothing else but the log. *)
Lemma transcribe_loop_run fuel audio rc w :
  (transcribe_maxRetries - rc <= fuel)%nat ->
  exists m,
    fst (transcribe_loop env fuel audio rc w) <> Diverge
    /\ (rc + m <= Nat.max rc transcribe_maxRetries)%nat
    /\ (rc < transcribe_maxRetries -> 1 <= m)%nat
    /\ transcription_requests (snd (transcribe_loop env fuel audio rc w))
       = (transcription_requests w + m)%nat
    /\ timeouts (snd (transcribe_loop env fuel audio rc w))
       = (timeouts w ++ flat_map (attempt_delay 30000) (seq rc m))%list
    /\ completion_requests (snd (transcribe_loop env fuel audio rc w))
       = completion_requests w
    /\ same_stores w (snd (transcribe_loop env fuel audio rc w)).
Proof.
  revert rc w. induction fuel as [|fuel IH]; intros rc w Hfuel.
  - exists 0%nat. rewrite transcribe_loop_exit by lia. cbn.
    rewrite app_nil_r. unfold same_stores. repeat split; try congruence; lia.
  - destruct (Nat.le_gt_cases transcribe_maxRetries rc) as [Hge|Hlt].
    { exists 0%nat. rewrite transcribe_loop_exit by lia. cbn.
      rewrite app_nil_r. unfold same_stores. repeat split; try congruence; lia. }
    destruct (whisper env (transcription_requests w) audio) as [text|e] eqn:Hw.
    { exists 1%nat. rewrite (transcribe_step_resolved _ _ _ _ _ Hlt Hw).
      unfold same_stores, before_attempt, attempt_delay. cbn [seq flat_map].
      destruct (0 <? rc)%nat; cbn; rewrite ?app_nil_r;
        repeat split; try congruence; lia. }
    destruct (isQuotaError e) eqn:Hq.
    { exists 1%nat. rewrite (transcribe_step_quota _ _ _ _ _ Hlt Hw Hq).
      unfold same_stores, transcription_rejected, logged, before_attempt, attempt_delay.
      cbn [seq flat_map].
      destruct (0 <? rc)%nat; cbn; rewrite ?app_nil_r;
        repeat split; try congruence; lia. }
    destruct (Nat.le_gt_cases transcribe_maxRetries (S rc)) as [Hlast|Hmore].
    { exists 1%nat. rewrite (transcribe_step_last _ _ _ _ _ Hlt Hlast Hw Hq).
      unfold same_stores, transcription_rejected, logged, before_attempt, attempt_delay.
      cbn [seq flat_map].
      destruct (0 <? rc)%nat; cbn; rewrite ?app_nil_r;
        repeat split; try congruence; lia. }
    rewrite (transcribe_step_retry _ _ _ _ _ Hmore Hw Hq).
    destruct (IH (S rc) (transcription_rejected rc e w)) as
      (m & Hd & Hm & Hm1 & Hreq & Htime & Hcomp & Ho & Hr & Hs & Hc); [lia|].
    exists (S m). split; [exact Hd|].
    rewrite Hreq, Htime, Hcomp. unfold same_stores.
    rewrite Ho, Hr, Hs, Hc. clear Hd Hreq Htime Hcomp Ho Hr Hs Hc IH.
    unfold transcription_rejected, logged, before_attempt, attempt_delay.
    cbn [seq flat_map].
    destruct (0 <? rc)%nat; cbn; rewrite <- ?app_assoc;
      repeat split; try congruence; try lia.
Qed.

(** The same for the summary loop. *)
Lemma summary_loop_run fuel transcript rc w :
  (summary_maxRetries - rc <= fuel)%nat ->
  exists m,
    fst (summary_loop env fuel transcript rc w) <> Diverge
    /\ (rc + m <= Nat.max rc summary_maxRetries)%nat
    /\ (rc < summary_maxRetries -> 1 <= m)%nat
    /\ completion_requests (snd (summary_loop env fuel transcript rc w))
       = (completion_requests w + m)%nat
    /\ timeouts (snd (summary_loop env fuel transcript rc w))
       = (timeouts w ++ flat_map (attempt_delay 10000) (seq rc m))%list
    /\ transcription_requests (snd (summary_loop env fuel transcript rc w))
       = transcription_requests w
    /\ same_stores w (snd (summary_loop env fuel transcript rc w)).
Proof.
  revert rc w. induction fuel as [|fuel IH]; intros rc w Hfuel.
  - exists 0%nat. rewrite summary_loop_exit by lia. cbn.
    rewrite app_nil_r. unfold same_stores. repeat split; try congruence; lia.
  - destruct (Nat.le_gt_cases summary_maxRetries rc) as [Hge|Hlt].
    { exists 0%nat. rewrite summary_loop_exit by lia. cbn.
      rewrite app_nil_r. unfold same_stores. repeat split; try congruence; lia. }
    destruct (chat env (completion_requests w) (summary_request transcript)) as [text|e] eqn:Hw.
    { exists 1%nat. rewrite (summary_step_resolved _ _ _ _ _ Hlt Hw).
      unfold same_stores, before_attempt, attempt_delay. cbn [seq flat_map].
      destruct (0 <? rc)%nat; cbn; rewrite ?app_nil_r;
        repeat split; try congruence; lia. }
    destruct (isQuotaError e) eqn:Hq.
    { exists 1%nat. rewrite (summary_step_quota _ _ _ _ _ Hlt Hw Hq).
      unfold same_stores, completion_rejected, logged, before_attempt, attempt_delay.
      cbn [seq flat_map].
      destruct (0 <? rc)%nat; cbn; rewrite ?app_nil_r;
        repeat split; try congruence; lia. }
    destruct (Nat.le_gt_cases summary_maxRetries (S rc)) as [Hlast|Hmore].
    { exists 1%nat. rewrite (summary_step_last _ _ _ _ _ Hlt Hlast Hw Hq).
      unfold same_stores, completion_rejected, logged, before_attempt, attempt_delay.
      cbn [seq flat_map].
      destruct (0 <? rc)%nat; cbn; rewrite ?app_nil_r;
        repeat split; try congruence; lia. }
    rewrite (summary_step_retry _ _ _ _ _ Hmore Hw Hq).
    destruct (IH (S rc) (completion_rejected rc e w)) as
      (m & Hd & Hm & Hm1 & Hreq & Htime & Hcomp & Ho & Hr & Hs & Hc); [lia|].
    exists (S m). split; [exact Hd|].
    rewrite Hreq, Htime, Hcomp. unfold same_stores.
    rewrite Ho, Hr, Hs, Hc. clear Hd Hreq Htime Hcomp Ho Hr Hs Hc IH.
    unfold completion_rejected, logged, before_attempt, attempt_delay.
    cbn [seq flat_map].
    destruct (0 <? rc)%nat; cbn; rewrite <- ?app_assoc;
      repeat split; try congruence; try lia.
Qed.


Lemma attempt_delays_from (cap : Z) (start k : nat) :
  (1 <= start)%nat ->
  flat_map (attempt_delay cap) (seq start k)
  = map (fun n => delayMs n cap) (seq start k).
Proof.
  revert start. induction k as [|k IH]; intros start H; [reflexivity|].
  cbn [seq flat_map map]. rewrite IH by lia.
  unfold attempt_delay. destruct (Nat.ltb_spec 0 start); [reflexivity | lia].
Qed.

Lemma attempt_delays_retries (cap : Z) (m : nat) :
  (1 <= m)%nat ->
  flat_map (attempt_delay cap) (seq 0 m) = retry_delays cap (m - 1).
Proof.
  intros H. destruct m as [|k]; [lia|].
  cbn [seq flat_map]. unfold attempt_delay at 1. cbn [Nat.ltb Nat.leb app].
  rewrite attempt_delays_from by lia.
  unfold retry_delays. now replace (S k - 1)%nat with k by lia.
Qed.

End RetryLoops.

(** ** Runs of transient failures *)

Section TransientRuns.
Import RecordingProcessorService.
Variable env : Env.

Lemma quota_false_not_class (e : ApiError) :
  isQuotaError e = false -> ~ QuotaClass e.
Proof. intros H Hq. apply isQuotaError_iff in Hq. congruence. Qed.

Lemma transcription_rejected_requests rc e w :
  transcription_requests (transcription_rejected rc e w)
  = S (transcription_requests w).
Proof.
  unfold transcription_rejected, logged, before_attempt.
  destruct (0 <? rc)%nat; reflexivity.
Qed.

Lemma transcription_rejected_timeouts rc e w :
  timeouts (transcription_rejected rc e w)
  = (timeouts w ++ attempt_delay 30000 rc)%list.
Proof.
  unfold transcription_rejected, logged, before_attempt, attempt_delay.
  destruct (0 <? rc)%nat; cbn; [reflexivity | now rewrite app_nil_r].
Qed.

Lemma completion_rejected_requests rc e w :
  completion_requests (completion_rejected rc e w)
  = S (completion_requests w).
Proof.
  unfold completion_rejected, logged, before_attempt.
  destruct (0 <? rc)%nat; reflexivity.
Qed.

Lemma completion_rejected_timeouts rc e w :
  timeouts (completion_rejected rc e w)
  = (timeouts w ++ attempt_delay 10000 rc)%list.
Proof.
  unfold completion_rejected, logged, before_attempt, attempt_delay.
  destruct (0 <? rc)%nat; cbn; [reflexivity | now rewrite app_nil_r].
Qed.

Lemma transient_transcriptions_tail audio rc e w k :
  transient_transcriptions env audio w (S k) ->
  transient_transcriptions env audio (transcription_rejected rc e w) k.
Proof.
  intros H i Hi. rewrite transcription_rejected_requests.
  destruct (H (S i)) as (e' & He & Hq); [lia|].
  exists e'. split; [|exact Hq]. rewrite <- He. f_equal. lia.
Qed.

Lemma transient_completions_tail transcript rc e w k :
  transient_completions env transcript w (S k) ->
  transient_completions env transcript (completion_rejected rc e w) k.
Proof.
  intros H i Hi. rewrite completion_rejected_requests.
  destruct (H (S i)) as (e' & He & Hq); [lia|].
  exists e'. split; [|exact Hq]. rewrite <- He. f_equal. lia.
Qed.

(** [k] transient failures in a row, with attempts to spare, take the
    transcription loop from attempt [rc] to attempt [rc + k]. *)
Lemma transcribe_loop_transient k : forall fuel audio rc w,
  (rc + k < transcribe_maxRetries)%nat ->
  transient_transcriptions env audio w k ->
  exists w',
    transcribe_loop env (k + fuel) audio rc w
    = transcribe_loop env fuel audio (rc + k) w'
    /\ transcription_requests w' = (transcription_requests w + k)%nat
    /\ timeouts w' = (timeouts w ++ flat_map (attempt_delay 30000) (seq rc k))%list.
Proof.
  induction k as [|k IH]; intros fuel audio rc w Hrc Ht.
  - exists w. rewrite !Nat.add_0_r, app_nil_r. auto.
  - destruct (Ht 0%nat) as (e & He & Hq); [lia|].
    rewrite Nat.add_0_r in He. apply not_quota_false in Hq.
    cbn [Nat.add].
    rewrite (transcribe_step_retry env _ _ _ _ e) by (auto; lia).
    destruct (IH fuel audio (S rc) (transcription_rejected rc e w)) as
      (w' & Heq & Hreq & Htime);
      [lia | eapply transient_transcriptions_tail; eauto |].
    exists w'. rewrite Heq, Hreq, Htime.
    rewrite transcription_rejected_requests, transcription_rejected_timeouts.
    cbn [seq flat_map]. rewrite <- app_assoc.
    repeat split; try lia. f_equal. lia.
Qed.

Lemma summary_loop_transient k : forall fuel transcript rc w,
  (rc + k < summary_maxRetries)%nat ->
  transient_completions env transcript w k ->
  exists w',
    summary_loop env (k + fuel) transcript rc w
    = summary_loop env fuel transcript (rc + k) w'
    /\ completion_requests w' = (completion_requests w + k)%nat
    /\ timeouts w' = (timeouts w ++ flat_map (attempt_delay 10000) (seq rc k))%list.
Proof.
  induction k as [|k IH]; intros fuel transcript rc w Hrc Ht.
  - exists w. rewrite !Nat.add_0_r, app_nil_r. auto.
  - destruct (Ht 0%nat) as (e & He & Hq); [lia|].
    rewrite Nat.add_0_r in He. apply not_quota_false in Hq.
    cbn [Nat.add].
    rewrite (summary_step_retry env _ _ _ _ e) by (auto; lia).
    destruct (IH fuel transcript (S rc) (completion_rejected rc e w)) as
      (w' & Heq & Hreq & Htime);
      [lia | eapply transient_completions_tail; eauto |].
    exists w'. rewrite Heq, Hreq, Htime.
    rewrite completion_rejected_requests, completion_rejected_timeouts.
    cbn [seq flat_map]. rewrite <- app_assoc.
    repeat split; try lia. f_equal. lia.
Qed.

Lemma attempt_delays_snoc cap k :
  (flat_map (attempt_delay cap) (seq 0 k) ++ attempt_delay cap k)%list
  = retry_delays cap k.
Proof.
  replace k with (S k - 1)%nat at 3 by lia.
  rewrite <- (attempt_delays_retries cap (S k)) by lia.
  rewrite seq_S, flat_map_app. cbn [flat_map Nat.add]. now rewrite app_nil_r.
Qed.

End TransientRuns.

(** ** The transcription and summarization adapter *)

Section Adapter.
Import RecordingProcessorService.
Variable env : Env.

Lemma transcribeAudio_after_transient k audio w :
  (k < transcribe_maxRetries)%nat ->
  transient_transcriptions env audio w k ->
  exists w',
    transcribeAudio env audio w
    = transcribe_loop env (transcribe_maxRetries - k) audio k w'
    /\ transcription_requests w' = (transcription_requests w + k)%nat
    /\ timeouts w' = (timeouts w ++ flat_map (attempt_delay 30000) (seq 0 k))%list.
Proof.
  intros Hk Ht.
  destruct (transcribe_loop_transient env k (transcribe_maxRetries - k) audio 0 w)
    as (w' & Heq & Hreq & Htime); [lia | exact Ht |].
  exists w'. unfold transcribeAudio.
  replace (k + (transcribe_maxRetries - k))%nat with transcribe_maxRetries in Heq by lia.
  auto.
Qed.

Lemma generateSummary_after_transient k transcript w :
  (k < summary_maxRetries)%nat ->
  transient_completions env transcript w k ->
  exists w',
    generateSummary env transcript w
    = summary_loop env (summary_maxRetries - k) transcript k w'
    /\ completion_requests w' = (completion_requests w + k)%nat
    /\ timeouts w' = (timeouts w ++ flat_map (attempt_delay 10000) (seq 0 k))%list.
Proof.
  intros Hk Ht.
  destruct (summary_loop_transient env k (summary_maxRetries - k) transcript 0 w)
    as (w' & Heq & Hreq & Htime); [lia | exact Ht |].
  exists w'. unfold generateSummary.
  replace (k + (summary_maxRetries - k))%nat with summary_maxRetries in Heq by lia.
  auto.
Qed.

Lemma transient_transcriptions_snoc audio w k e :
  transient_transcriptions env audio w k ->
  whisper env (transcription_requests w + k) audio = Rejected e ->
  ~ QuotaClass e ->
  transient_transcriptions env audio w (S k).
Proof.
  intros Ht He Hq i Hi. destruct (Nat.eq_dec i k) as [->|Hne].
  - exists e. auto.
  - apply Ht. lia.
Qed.

Lemma transient_completions_snoc transcript w k e :
  transient_completions env transcript w k ->
  chat env (completion_requests w + k) (summary_request transcript) = Rejected e ->
  ~ QuotaClass e ->
  transient_completions env transcript w (S k).
Proof.
  intros Ht He Hq i Hi. destruct (Nat.eq_dec i k) as [->|Hne].
  - exists e. auto.
  - apply Ht. lia.
Qed.

(** A quota error at the attempt that follows [k] transient failures
    ends [transcribeAudio] there. *)
Lemma transcribeAudio_quota k audio w e :
  (k < transcribe_maxRetries)%nat ->
  transient_transcriptions env audio w k ->
  whisper env (transcription_requests w + k) audio = Rejected e ->
  QuotaClass e ->
  fst (transcribeAudio env audio w)
  = Reject (Error ("OpenAI API quota exceeded. Please check your billing details: "
                   ++ Js.show (message e)))
  /\ transcription_requests (snd (transcribeAudio env audio w))
     = (transcription_requests w + k + 1)%nat
  /\ timeouts (snd (transcribeAudio env audio w))
     = (timeouts w ++ retry_delays 30000 k)%list.
Proof.
  intros Hk Ht He Hq. apply isQuotaError_iff in Hq.
  destruct (transcribeAudio_after_transient k audio w Hk Ht) as (w' & -> & Hreq & Htime).
  rewrite <- Hreq in He.
  destruct (transcribe_maxRetries - k)%nat as [|fuel] eqn:Hf; [lia|].
  rewrite (transcribe_step_quota env fuel audio k w' e Hk He Hq).
  cbn [fst snd]. split; [reflexivity|].
  unfold logged. cbn [transcription_requests timeouts set_error_log].
  rewrite transcription_rejected_requests, transcription_rejected_timeouts, Hreq, Htime.
  rewrite <- app_assoc, attempt_delays_snoc. split; [lia | reflexivity].
Qed.

(** A transient error with attempts to spare is followed by the backoff
    delay and one more request. *)
Lemma transcribeAudio_retries k audio w e :
  (S k < transcribe_maxRetries)%nat ->
  transient_transcriptions env audio w k ->
  whisper env (transcription_requests w + k) audio = Rejected e ->
  ~ QuotaClass e ->
  (transcription_requests w + k + 2
   <= transcription_requests (snd (transcribeAudio env audio w)))%nat
  /\ exists rest,
       timeouts (snd (transcribeAudio env audio w))
       = (timeouts w ++ retry_delays 30000 (S k) ++ rest)%list.
Proof.
  intros Hk Ht He Hq.
  pose proof (transient_transcriptions_snoc audio w k e Ht He Hq) as Ht'.
  destruct (transcribeAudio_after_transient (S k) audio w Hk Ht') as (w' & -> & Hreq & Htime).
  destruct (transcribe_loop_run env (transcribe_maxRetries - S k) audio (S k) w')
    as (m & _ & _ & Hm & Hreq' & Htime' & _); [lia|].
  specialize (Hm Hk). rewrite Hreq', Htime', Hreq, Htime. split; [lia|].
  destruct m as [|m]; [lia|]. cbn [seq flat_map].
  exists (flat_map (attempt_delay 30000) (seq (S (S k)) m)).
  rewrite <- attempt_delays_snoc, <- !app_assoc. reflexivity.
Qed.

Lemma generateSummary_quota k transcript w e :
  (k < summary_maxRetries)%nat ->
  transient_completions env transcript w k ->
  chat env (completion_requests w + k) (summary_request transcript) = Rejected e ->
  QuotaClass e ->
  fst (generateSummary env transcript w)
  = Reject (Error ("OpenAI API quota exceeded when generating summary. Please check your billing details: "
                   ++ Js.show (message e)))
  /\ completion_requests (snd (generateSummary env transcript w))
     = (completion_requests w + k + 1)%nat
  /\ timeouts (snd (generateSummary env transcript w))
     = (timeouts w ++ retry_delays 10000 k)%list.
Proof.
  intros Hk Ht He Hq. apply isQuotaError_iff in Hq.
  destruct (generateSummary_after_transient k transcript w Hk Ht) as (w' & -> & Hreq & Htime).
  rewrite <- Hreq in He.
  destruct (summary_maxRetries - k)%nat as [|fuel] eqn:Hf; [lia|].
  rewrite (summary_step_quota env fuel transcript k w' e Hk He Hq).
  cbn [fst snd]. split; [reflexivity|].
  unfold logged. cbn [completion_requests timeouts set_error_log].
  rewrite completion_rejected_requests, completion_rejected_timeouts, Hreq, Htime.
  rewrite <- app_assoc, attempt_delays_snoc. split; [lia | reflexivity].
Qed.

Lemma generateSummary_retries k transcript w e :
  (S k < summary_maxRetries)%nat ->
  transient_completions env transcript w k ->
  chat env (completion_requests w + k) (summary_request transcript) = Rejected e ->
  ~ QuotaClass e ->
  (completion_requests w + k + 2
   <= completion_requests (snd (generateSummary env transcript w)))%nat
  /\ exists rest,
       timeouts (snd (generateSummary env transcript w))
       = (timeouts w ++ retry_delays 10000 (S k) ++ rest)%list.
Proof.
  intros Hk Ht He Hq.
  pose proof (transient_completions_snoc transcript w k e Ht He Hq) as Ht'.
  destruct (generateSummary_after_transient (S k) transcript w Hk Ht') as (w' & -> & Hreq & Htime).
  destruct (summary_loop_run env (summary_maxRetries - S k) transcript (S k) w')
    as (m & _ & _ & Hm & Hreq' & Htime' & _); [lia|].
  specialize (Hm Hk). rewrite Hreq', Htime', Hreq, Htime. split; [lia|].
  destruct m as [|m]; [lia|]. cbn [seq flat_map].
  exists (flat_map (attempt_delay 10000) (seq (S (S k)) m)).
  rewrite <- attempt_delays_snoc, <- !app_assoc. reflexivity.
Qed.

End Adapter.

Section AdapterResults.
Import RecordingProcessorService.
Variable env : Env.

Lemma transient_transcriptions_le audio w k k' :
  (k' <= k)%nat ->
  transient_transcriptions env audio w k -> transient_transcriptions env audio w k'.
Proof. intros Hle H i Hi. apply H. lia. Qed.

Lemma transient_completions_le transcript w k k' :
  (k' <= k)%nat ->
  transient_completions env transcript w k -> transient_completions env transcript w k'.
Proof. intros Hle H i Hi. apply H. lia. Qed.

Lemma transient_completions_cons transcript rc e w k :
  chat env (completion_requests w) (summary_request transcript) = Rejected e ->
  isQuotaError e = false ->
  transient_completions env transcript (completion_rejected rc e w) k ->
  transient_completions env transcript w (S k).
Proof.
  intros He Hq H i Hi. destruct i as [|i].
  - exists e. rewrite Nat.add_0_r. split; [exact He | now apply quota_false_not_class].
  - destruct (H i) as (e' & He' & Hq'); [lia|].
    rewrite completion_rejected_requests in He'.
    exists e'. split; [|exact Hq']. rewrite <- He'. f_equal. lia.
Qed.

(** How the summary loop comes to return a string. *)
Lemma summary_loop_resolves fuel : forall transcript rc w s,
  (summary_maxRetries - rc <= fuel)%nat ->
  fst (summary_loop env fuel transcript rc w) = Resolve s ->
  (exists n r,
      (rc + n < summary_maxRetries)%nat
      /\ transient_completions env transcript w n
      /\ chat env (completion_requests w + n) (summary_request transcript) = Resolved r
      /\ s = Js.or_else (first_content r) "No summary generated")
  \/ ((rc < summary_maxRetries)%nat
      /\ transient_completions env transcript w (summary_maxRetries - rc)
      /\ s = "Error generating summary. Please try again later.")
  \/ ((summary_maxRetries <= rc)%nat
      /\ s = "Unable to generate summary after multiple attempts").
Proof.
  induction fuel as [|fuel IH]; intros transcript rc w s Hfuel H.
  - rewrite summary_loop_exit in H by lia. injection H as <-.
    right; right. split; [lia | reflexivity].
  - destruct (Nat.le_gt_cases summary_maxRetries rc) as [Hge|Hlt].
    { rewrite summary_loop_exit in H by lia. injection H as <-.
      right; right. split; [lia | reflexivity]. }
    destruct (chat env (completion_requests w) (summary_request transcript))
      as [r|e] eqn:Hc.
    { rewrite (summary_step_resolved env _ _ _ _ _ Hlt Hc) in H. injection H as <-.
      left. exists 0%nat, r. rewrite !Nat.add_0_r.
      repeat split; auto. intros i Hi; lia. }
    destruct (isQuotaError e) eqn:Hq.
    { rewrite (summary_step_quota env _ _ _ _ _ Hlt Hc Hq) in H. discriminate. }
    destruct (Nat.le_gt_cases summary_maxRetries (S rc)) as [Hlast|Hmore].
    { rewrite (summary_step_last env _ _ _ _ _ Hlt Hlast Hc Hq) in H. injection H as <-.
      right; left. repeat split; auto.
      replace (summary_maxRetries - rc)%nat with 1%nat by lia.
      apply (transient_completions_cons transcript rc e w); auto.
      intros i Hi; lia. }
    rewrite (summary_step_retry env _ _ _ _ _ Hmore Hc Hq) in H.
    apply IH in H; [|lia].
    destruct H as [(n & r & Hn & Ht & Hr & Hs) | [(Hrc & Ht & Hs) | (Hrc & Hs)]].
    + left. exists (S n), r. rewrite completion_rejected_requests in Hr.
      repeat split; auto; try lia.
      * apply (transient_completions_cons transcript rc e w); auto.
      * rewrite <- Hr. f_equal. lia.
    + right; left. repeat split; auto.
      replace (summary_maxRetries - rc)%nat with (S (summary_maxRetries - S rc)) by lia.
      apply (transient_completions_cons transcript rc e w); auto.
    + lia.
Qed.

Lemma or_else_nonempty (v : option string) (d : string) :
  d <> "" -> Js.or_else v d <> "".
Proof.
  intros Hd. unfold Js.or_else. destruct v as [[|c s]|]; cbn; congruence.
Qed.

Lemma or_else_cases (v : option string) (d : string) :
  (exists c, v = Some c /\ c <> "" /\ Js.or_else v d = c)
  \/ ((v = None \/ v = Some "") /\ Js.or_else v d = d).
Proof.
  destruct v as [[|c s]|]; cbn; eauto.
  left. exists (String c s). repeat split; congruence.
Qed.

End AdapterResults.

(** C3. An API error is in the quota/billing class when its code or its
    type is [insufficient_quota], its HTTP status is 429, or its message
    mentions quota, billing or a rate limit in any letter case.  Whatever
    the attempt at which it comes, [transcribeAudio] and [generateSummary]
    then fail at once with their quota error: no further request is
    issued and no delay is awaited after it.  An error outside the class
    that leaves attempts to spare is followed by the backoff delay and a
    further request. *)
Theorem quota_errors_fail_without_retry
    (env : Env) (audio : list Byte.byte) (transcript : string)
    (w : World) (k : nat) (e : ApiError) :
  ((k < 5)%nat ->
   transient_transcriptions env audio w k ->
   whisper env (transcription_requests w + k) audio = Rejected e ->
   (QuotaClass e ->
    fst (RecordingProcessorService.transcribeAudio env audio w)
    = Reject (Error ("OpenAI API quota exceeded. Please check your billing details: "
                     ++ Js.show (message e)))
    /\ transcription_requests (snd (RecordingProcessorService.transcribeAudio env audio w))
       = (transcription_requests w + k + 1)%nat
    /\ timeouts (snd (RecordingProcessorService.transcribeAudio env audio w))
       = (timeouts w ++ retry_delays 30000 k)%list)
   /\ (~ QuotaClass e -> (S k < 5)%nat ->
       (transcription_requests w + k + 2
        <= transcription_requests
             (snd (RecordingProcessorService.transcribeAudio env audio w)))%nat
       /\ exists rest,
            timeouts (snd (RecordingProcessorService.transcribeAudio env audio w))
            = (timeouts w ++ retry_delays 30000 (S k) ++ rest)%list))
  /\
  ((k < 3)%nat ->
   transient_completions env transcript w k ->
   chat env (completion_requests w + k)
     (RecordingProcessorService.summary_request transcript) = Rejected e ->
   (QuotaClass e ->
    fst (RecordingProcessorService.generateSummary env transcript w)
    = Reject (Error ("OpenAI API quota exceeded when generating summary. Please check your billing details: "
                     ++ Js.show (message e)))
    /\ completion_requests (snd (RecordingProcessorService.generateSummary env transcript w))
       = (completion_requests w + k + 1)%nat
    /\ timeouts (snd (RecordingProcessorService.generateSummary env transcript w))
       = (timeouts w ++ retry_delays 10000 k)%list)
   /\ (~ QuotaClass e -> (S k < 3)%nat ->
       (completion_requests w + k + 2
        <= completion_requests
             (snd (RecordingProcessorService.generateSummary env transcript w)))%nat
       /\ exists rest,
            timeouts (snd (RecordingProcessorService.generateSummary env transcript w))
            = (timeouts w ++ retry_delays 10000 (S k) ++ rest)%list)).
Proof.
  split; intros Hk Ht He; split.
  - intros Hq. now apply transcribeAudio_quota.
  - intros Hq Hk'. now apply (transcribeAudio_retries env k audio w e).
  - intros Hq. now apply generateSummary_quota.
  - intros Hq Hk'. now apply (generateSummary_retries env k transcript w e).
Qed.

Lemma quota_errors_fail_without_retry_witness :
  QuotaClass Mock.too_many_requests
  /\ transient_transcriptions Mock.quota_after_one Mock.mp3 empty_world 1
  /\ transient_completions Mock.quota_after_one "hello world" empty_world 1
  /\ fst (RecordingProcessorService.transcribeAudio Mock.quota_after_one Mock.mp3 empty_world)
     = Reject (Error "OpenAI API quota exceeded. Please check your billing details: Request failed with status code 429")
  /\ transcription_requests
       (snd (RecordingProcessorService.transcribeAudio Mock.quota_after_one Mock.mp3 empty_world))
     = 2%nat
  /\ fst (RecordingProcessorService.generateSummary Mock.quota_after_one "hello world" empty_world)
     = Reject (Error "OpenAI API quota exceeded when generating summary. Please check your billing details: Request failed with status code 429")
  /\ completion_requests
       (snd (RecordingProcessorService.generateSummary Mock.quota_after_one "hello world" empty_world))
     = 2%nat.
Proof.
  assert (Hq : QuotaClass Mock.too_many_requests)
    by (right; right; left; reflexivity).
  assert (Ht : transient_transcriptions Mock.quota_after_one Mock.mp3 empty_world 1).
  { intros i Hi. exists Mock.network_error. destruct i as [|i]; [|lia].
    split; [reflexivity | apply quota_false_not_class; reflexivity]. }
  assert (Hs : transient_completions Mock.quota_after_one "hello world" empty_world 1).
  { intros i Hi. exists Mock.network_error. destruct i as [|i]; [|lia].
    split; [reflexivity | apply quota_false_not_class; reflexivity]. }
  destruct (quota_errors_fail_without_retry Mock.quota_after_one Mock.mp3
              "hello world" empty_world 1 Mock.too_many_requests) as [HT HS].
  destruct HT as [HT _]; [lia | exact Ht | reflexivity |].
  destruct HS as [HS _]; [lia | exact Hs | reflexivity |].
  destruct (HT Hq) as (T1 & T2 & _). destruct (HS Hq) as (S1 & S2 & _).
  repeat split; assumption.
Defined.

(** C4. When every attempt fails with an error outside the quota class,
    [transcribeAudio] issues exactly 5 requests and throws its terminal
    error, and [generateSummary] issues exactly 3 requests and returns
    the fallback string. *)
Theorem retry_bounds
    (env : Env) (audio : list Byte.byte) (transcript : string) (w : World) :
  transient_transcriptions env audio w 5 ->
  transient_completions env transcript w 3 ->
  (exists e,
      whisper env (transcription_requests w + 4) audio = Rejected e
      /\ fst (RecordingProcessorService.transcribeAudio env audio w)
         = Reject (Error ("Transcription failed after 5 attempts: "
                          ++ Js.show (message e))))
  /\ transcription_requests (snd (RecordingProcessorService.transcribeAudio env audio w))
     = (transcription_requests w + 5)%nat
  /\ fst (RecordingProcessorService.generateSummary env transcript w)
     = Resolve "Error generating summary. Please try again later."
  /\ completion_requests (snd (RecordingProcessorService.generateSummary env transcript w))
     = (completion_requests w + 3)%nat.
Proof.
  intros Ht Hs.
  destruct (Ht 4%nat) as (e & He & Hq); [lia|].
  destruct (Hs 2%nat) as (e' & He' & Hq'); [lia|].
  apply not_quota_false in Hq, Hq'.
  destruct (transcribeAudio_after_transient env 4 audio w) as (w1 & E1 & Hreq1 & _);
    [unfold RecordingProcessorService.transcribe_maxRetries; lia
    | eapply transient_transcriptions_le; [|exact Ht]; lia |].
  destruct (generateSummary_after_transient env 2 transcript w) as (w2 & E2 & Hreq2 & _);
    [unfold RecordingProcessorService.summary_maxRetries; lia
    | eapply transient_completions_le; [|exact Hs]; lia |].
  pose proof He as He0.
  rewrite <- Hreq1 in He. rewrite <- Hreq2 in He'.
  rewrite E1, E2.
  change (RecordingProcessorService.transcribe_maxRetries - 4)%nat with 1%nat.
  change (RecordingProcessorService.summary_maxRetries - 2)%nat with 1%nat.
  rewrite (transcribe_step_last env 0 audio 4 w1 e), (summary_step_last env 0 transcript 2 w2 e');
    auto; try (unfold RecordingProcessorService.transcribe_maxRetries,
                 RecordingProcessorService.summary_maxRetries; lia).
  cbn [fst snd]. unfold logged.
  cbn [transcription_requests completion_requests set_error_log].
  rewrite transcription_rejected_requests, completion_rejected_requests, Hreq1, Hreq2.
  split; [exists e; split; [exact He0 | reflexivity] | repeat split; lia].
Qed.

Lemma retry_bounds_witness :
  transient_transcriptions Mock.unreachable Mock.mp3 empty_world 5
  /\ transient_completions Mock.unreachable "hello world" empty_world 3
  /\ fst (RecordingProcessorService.transcribeAudio Mock.unreachable Mock.mp3 empty_world)
     = Reject (Error "Transcription failed after 5 attempts: socket hang up")
  /\ transcription_requests
       (snd (RecordingProcessorService.transcribeAudio Mock.unreachable Mock.mp3 empty_world))
     = 5%nat
  /\ fst (RecordingProcessorService.generateSummary Mock.unreachable "hello world" empty_world)
     = Resolve "Error generating summary. Please try again later."
  /\ completion_requests
       (snd (RecordingProcessorService.generateSummary Mock.unreachable "hello world" empty_world))
     = 3%nat.
Proof.
  assert (Ht : transient_transcriptions Mock.unreachable Mock.mp3 empty_world 5).
  { intros i Hi. exists Mock.network_error.
    split; [reflexivity | apply quota_false_not_class; reflexivity]. }
  assert (Hs : transient_completions Mock.unreachable "hello world" empty_world 3).
  { intros i Hi. exists Mock.network_error.
    split; [reflexivity | apply quota_false_not_class; reflexivity]. }
  destruct (retry_bounds Mock.unreachable Mock.mp3 "hello world" empty_world Ht Hs)
    as ((e & He & T1) & T2 & S1 & S2).
  injection He as <-.
  repeat split; assumption.
Defined.

(** C5, as the code has it.  The delay awaited before the n-th retry is
    [min(1000 * 2^n, cap)] milliseconds: 2 s before the first retry,
    then 4 s, 8 s and 16 s in [transcribeAudio] (at most 4 retries, cap
    30 s) and 2 s then 4 s in [generateSummary] (at most 2 retries, cap
    10 s); no other delay is awaited, and neither cap is reached. *)
Theorem backoff_schedule
    (env : Env) (audio : list Byte.byte) (transcript : string) (w : World) :
  (exists r,
      (r <= 4)%nat
      /\ transcription_requests (snd (RecordingProcessorService.transcribeAudio env audio w))
         = (transcription_requests w + r + 1)%nat
      /\ timeouts (snd (RecordingProcessorService.transcribeAudio env audio w))
         = (timeouts w ++ retry_delays 30000 r)%list
      /\ retry_delays 30000 r = firstn r [2000; 4000; 8000; 16000])
  /\ (exists r,
      (r <= 2)%nat
      /\ completion_requests (snd (RecordingProcessorService.generateSummary env transcript w))
         = (completion_requests w + r + 1)%nat
      /\ timeouts (snd (RecordingProcessorService.generateSummary env transcript w))
         = (timeouts w ++ retry_delays 10000 r)%list
      /\ retry_delays 10000 r = firstn r [2000; 4000]).
Proof.
  split.
  - destruct (transcribe_loop_run env RecordingProcessorService.transcribe_maxRetries
                audio 0 w) as (m & _ & Hm & Hm1 & Hreq & Htime & _); [lia|].
    unfold RecordingProcessorService.transcribe_maxRetries in Hm, Hm1.
    specialize (Hm1 ltac:(lia)). cbn in Hm.
    exists (m - 1)%nat. unfold RecordingProcessorService.transcribeAudio.
    rewrite Hreq, Htime, attempt_delays_retries by lia.
    repeat split; try lia.
    destruct m as [|[|[|[|[|[|m]]]]]]; try lia; reflexivity.
  - destruct (summary_loop_run env RecordingProcessorService.summary_maxRetries
                transcript 0 w) as (m & _ & Hm & Hm1 & Hreq & Htime & _); [lia|].
    unfold RecordingProcessorService.summary_maxRetries in Hm, Hm1.
    specialize (Hm1 ltac:(lia)). cbn in Hm.
    exists (m - 1)%nat. unfold RecordingProcessorService.generateSummary.
    rewrite Hreq, Htime, attempt_delays_retries by lia.
    repeat split; try lia.
    destruct m as [|[|[|[|m]]]]; try lia; reflexivity.
Qed.

(** C5, as the specification has it, fails on a run with one retry:
    the delay awaited before the first retry is 2 s in both functions,
    not the 1 s of the specification's schedule. *)
Lemma backoff_first_retry_counterexample :
  transcription_requests
    (snd (RecordingProcessorService.transcribeAudio Mock.flaky Mock.mp3 empty_world)) = 2%nat
  /\ timeouts (snd (RecordingProcessorService.transcribeAudio Mock.flaky Mock.mp3 empty_world))
     = [2000]
  /\ completion_requests
       (snd (RecordingProcessorService.generateSummary Mock.flaky "hello world" empty_world))
     = 2%nat
  /\ timeouts (snd (RecordingProcessorService.generateSummary Mock.flaky "hello world" empty_world))
     = [2000]
  /\ spec_backoff_delay 30000 1 = 1000
  /\ spec_backoff_delay 10000 1 = 1000
  /\ timeouts (snd (RecordingProcessorService.transcribeAudio Mock.flaky Mock.mp3 empty_world))
     <> [spec_backoff_delay 30000 1]
  /\ timeouts (snd (RecordingProcessorService.generateSummary Mock.flaky "hello world" empty_world))
     <> [spec_backoff_delay 10000 1].
Proof.
  repeat split; try reflexivity; vm_compute; discriminate.
Qed.

(** C10. A string returned by [generateSummary] is not empty.  It is the
    content of the first choice of a completion when that content is not
    empty, ['No summary generated'] when the completion has no content or
    an empty one, or the fallback string when all 3 attempts failed with
    errors outside the quota class. *)
Theorem generateSummary_returns_nonempty
    (env : Env) (transcript : string) (w : World) (s : string) :
  fst (RecordingProcessorService.generateSummary env transcript w) = Resolve s ->
  s <> ""
  /\ ((exists n r,
         (n < 3)%nat
         /\ transient_completions env transcript w n
         /\ chat env (completion_requests w + n)
              (RecordingProcessorService.summary_request transcript) = Resolved r
         /\ ((exists c, RecordingProcessorService.first_content r = Some c
                        /\ c <> "" /\ s = c)
             \/ ((RecordingProcessorService.first_content r = None
                  \/ RecordingProcessorService.first_content r = Some "")
                 /\ s = "No summary generated")))
      \/ (transient_completions env transcript w 3
          /\ s = "Error generating summary. Please try again later.")).
Proof.
  intros H. unfold RecordingProcessorService.generateSummary in H.
  apply summary_loop_resolves in H; [|lia].
  destruct H as [(n & r & Hn & Ht & Hr & Hs) | [(_ & Ht & Hs) | (Hrc & _)]].
  - split; [subst s; apply or_else_nonempty; discriminate|].
    left. exists n, r. repeat split; auto.
    destruct (or_else_cases (RecordingProcessorService.first_content r)
                "No summary generated") as [(c & Hc & Hne & E) | (Hc & E)].
    + left. exists c. repeat split; auto. congruence.
    + right. split; [exact Hc | congruence].
  - split; [subst s; discriminate|]. right. split; [exact Ht | exact Hs].
  - unfold RecordingProcessorService.summary_maxRetries in Hrc. lia.
Qed.

Lemma generateSummary_returns_nonempty_witness :
  fst (RecordingProcessorService.generateSummary Mock.env "hello world" empty_world)
  = Resolve "Quick call about hello world."
  /\ "Quick call about hello world." <> "".
Proof.
  assert (H : fst (RecordingProcessorService.generateSummary Mock.env "hello world" empty_world)
              = Resolve "Quick call about hello world.") by reflexivity.
  split; [exact H|].
  exact (proj1 (generateSummary_returns_nonempty Mock.env "hello world" empty_world _ H)).
Defined.

(** ** The storage and speech adapters *)

Section Adapters.
Variable env : Env.

Lemma storeRecording_eq (audio : list Byte.byte) (md : RecordingMetadata) (w : World) :
  StorageService.storeRecording env audio md w
  = let o := Pipeline.audio_object (md_recording_sid md) audio in
    let row :=
      {| recording_sid := md_recording_sid md;
         call_sid := md_call_sid md;
         duration := md_duration md;
         audio_summary := Js.or_null (md_audio_summary md);
         audio_url := Some (Pipeline.audio_public_url env (md_recording_sid md));
         transcript_url := Js.or_null (md_transcript_url md);
         created_at := now env |} in
    match storage_upload env (objects w) o with
    | Some m => (Reject (Error ("Failed to upload recording: " ++ m)), w)
    | None =>
        let w1 := set_objects (fun l => (l ++ [o])%list) w in
        match table_insert env (recordings w) row with
        | Some m => (Reject (Error ("Failed to store metadata: " ++ m)), w1)
        | None => (Resolve (Pipeline.audio_public_url env (md_recording_sid md)),
                   set_recordings (fun l => (l ++ [row])%list) w1)
        end
    end.
Proof.
  unfold StorageService.storeRecording, try_catch, bind, StorageService.upload,
    StorageService.insert, Pipeline.audio_object, throw, ret. cbn.
  destruct (storage_upload env (objects w) _); [reflexivity|]. cbn.
  destruct (table_insert env (recordings w) _); reflexivity.
Qed.

Lemma storeTranscriptionAndSummary_eq (sid transcription summary : string) (w : World) :
  StorageService.storeTranscriptionAndSummary env sid transcription summary w
  = let o := Pipeline.transcript_object sid transcription in
    let url := Pipeline.transcript_public_url env sid in
    match storage_upload env (objects w) o with
    | Some m => (Reject (Error ("Failed to upload transcript: " ++ m)), w)
    | None =>
        let w1 := set_objects (fun l => (l ++ [o])%list) w in
        match table_update env (recordings w) sid with
        | Some m =>
            (Reject (Error ("Failed to update recording with transcript: " ++ m)), w1)
        | None =>
            (Resolve (url, summary),
             set_recordings (map (StorageService.update_row sid url summary)) w1)
        end
    end.
Proof.
  unfold StorageService.storeTranscriptionAndSummary, try_catch, bind,
    StorageService.upload, StorageService.update, Pipeline.transcript_object, throw, ret.
  cbn.
  destruct (storage_upload env (objects w) _); [reflexivity|]. cbn.
  destruct (table_update env (recordings w) _); reflexivity.
Qed.

(** [generateSpeech] and the call back never touch the table. *)
Lemma generateSpeech_run (text sid : string) (w : World) :
  fst (TtsService.generateSpeech env text sid w) <> Diverge
  /\ recordings (snd (TtsService.generateSpeech env text sid w)) = recordings w
  /\ calls_created (snd (TtsService.generateSpeech env text sid w)) = calls_created w
  /\ speech_requests (snd (TtsService.generateSpeech env text sid w))
     = (speech_requests w ++ [text])%list.
Proof.
  unfold TtsService.generateSpeech, try_catch, bind, TtsService.speech_create,
    StorageService.upload, logger_error, modify, throw, ret.
  destruct (speech env "tts-1" "nova" text); cbn.
  - destruct (storage_upload env _ _); cbn; repeat split; congruence.
  - repeat split; congruence.
Qed.

Lemma call_back_run (sid summary callerNumber : string) (w : World) :
  fst (RecordingService.call_back env sid summary callerNumber w) = Resolve tt
  /\ recordings (snd (RecordingService.call_back env sid summary callerNumber w))
     = recordings w
  /\ ((exists c, calls_created (snd (RecordingService.call_back env sid summary callerNumber w))
                 = (calls_created w ++ [c])%list
                 /\ call_to c = callerNumber)
      \/ (calls_created (snd (RecordingService.call_back env sid summary callerNumber w))
          = calls_created w
          /\ exists m, In ("Error generating or playing speech:", m)
                          (error_log (snd (RecordingService.call_back env sid summary
                                             callerNumber w))))).
Proof.
  unfold RecordingService.call_back, try_catch, bind. cbv zeta.
  set (text := "Hello, here is a summary of your recent call. " ++ summary
               ++ " Thank you for using our service. Goodbye.").
  destruct (generateSpeech_run text sid w) as (Hd & Hr & Hc & _).
  destruct (TtsService.generateSpeech env text sid w) as [[speechUrl|e|] w1];
    cbn [fst snd] in *; [| |congruence].
  - unfold RecordingService.twilio_calls_create, logger_error, modify, ret.
    destruct (calls_create env _) as [e|]; cbn.
    + split; [reflexivity|]. split; [exact Hr|]. right. split; [exact Hc|].
      eexists. apply in_or_app. right. left. reflexivity.
    + split; [reflexivity|]. split; [exact Hr|]. left.
      eexists. rewrite Hc. split; reflexivity.
  - unfold logger_error, modify. cbn.
    split; [reflexivity|]. split; [exact Hr|]. right. split; [exact Hc|].
    eexists. apply in_or_app. right. left. reflexivity.
Qed.

End Adapters.

(** ** The pipeline *)

Section PipelineFacts.
Variable env : Env.

(** The processing task ends and leaves the bucket, the table, the
    speech requests and the outbound calls as they are. *)
Lemma processor_run (audio : list Byte.byte) (w : World) :
  fst (RecordingProcessorService.processRecording env audio w) <> Diverge
  /\ same_stores w (snd (RecordingProcessorService.processRecording env audio w)).
Proof.
  unfold RecordingProcessorService.processRecording, try_catch, bind,
    RecordingProcessorService.transcribeAudio,
    RecordingProcessorService.generateSummary.
  destruct (transcribe_loop_run env RecordingProcessorService.transcribe_maxRetries audio 0 w)
    as (m & Hd & _ & _ & _ & _ & _ & Hs); [lia|].
  destruct (RecordingProcessorService.transcribe_loop env _ audio 0 w)
    as [[text|e|] w1]; cbn [fst snd] in *; [| |congruence].
  - destruct (summary_loop_run env RecordingProcessorService.summary_maxRetries text 0 w1)
      as (m' & Hd' & _ & _ & _ & _ & _ & Hs'); [lia|].
    destruct (RecordingProcessorService.summary_loop env _ text 0 w1)
      as [[s|e|] w2]; cbn [fst snd] in *; [| |congruence].
    + split; [discriminate|]. unfold same_stores in *. cbn.
      destruct Hs as (? & ? & ? & ?), Hs' as (? & ? & ? & ?).
      repeat split; congruence.
    + unfold logger_error, modify, throw.
      destruct (RecordingProcessorService.isQuotaError e); cbn;
        (split; [discriminate|]); unfold same_stores in *; cbn;
        destruct Hs as (? & ? & ? & ?), Hs' as (? & ? & ? & ?);
        repeat split; congruence.
  - unfold logger_error, modify, throw.
    destruct (RecordingProcessorService.isQuotaError e); cbn;
      (split; [discriminate|]); unfold same_stores in *; cbn;
      destruct Hs as (? & ? & ? & ?); repeat split; congruence.
Qed.

(** [processRecording] is steps 1 to 3 followed by step 4, inside the
    handler that logs and rethrows. *)
Lemma processRecording_steps (sid callSid url : string) (d : option string) (w : World) :
  RecordingService.processRecording env sid callSid url d w
  = try_catch
      (pr <- Pipeline.steps_1_to_3 env sid callSid url d ;;
       Pipeline.step_4 env sid callSid pr)
      (fun error =>
         logger_error "Error processing recording:" (message_or_unknown error) ;;
         throw error) w.
Proof.
  unfold RecordingService.processRecording, Pipeline.steps_1_to_3, Pipeline.step_4,
    Pipeline.authorization, try_catch, bind.
  destruct (RecordingService.fetch_get env _ _ w) as [[resp|e|] w1]; try reflexivity.
  destruct (negb (http_ok resp)); [reflexivity|]. cbv zeta.
  destruct (RecordingService.promise_all env _ _ w1) as [[results|e|] w2];
    try reflexivity.
  destruct (StorageService.storeTranscriptionAndSummary env _ _ _ w2)
    as [[x|e|] w3]; reflexivity.
Qed.

(** Step 4 ends, and never touches the table. *)
Lemma step_4_run (sid callSid : string)
    (pr : RecordingProcessorService.ProcessedRecording) (w : World) :
  fst (Pipeline.step_4 env sid callSid pr w) <> Diverge
  /\ recordings (snd (Pipeline.step_4 env sid callSid pr w)) = recordings w.
Proof.
  unfold Pipeline.step_4, bind, RecordingService.twilio_calls_fetch, ret.
  destruct (calls_fetch env callSid) as [c|e]; cbn; [|split; [discriminate|reflexivity]].
  destruct (Js.truthy (from c)); cbn; [|split; [discriminate|reflexivity]].
  destruct (call_back_run env sid (RecordingProcessorService.summary pr)
              (Js.or_else (from c) "") w) as (Hf & Hr & _).
  destruct (RecordingService.call_back env sid _ _ w) as [[[]|e|] w1];
    cbn [fst snd] in *; try discriminate.
  split; [discriminate | exact Hr].
Qed.

(** When the lookup of the call succeeds, step 4 resolves: either the
    call has a caller number and the call back was placed or its failure
    was logged and swallowed, or there is no caller number and nothing
    was done. *)
Lemma step_4_lookup_ok (sid callSid : string)
    (pr : RecordingProcessorService.ProcessedRecording) (w : World) (c : CallResource) :
  calls_fetch env callSid = Resolved c ->
  Pipeline.step_4 env sid callSid pr w
  = if Js.truthy (from c)
    then (Resolve tt,
          snd (RecordingService.call_back env sid
                 (RecordingProcessorService.summary pr) (Js.or_else (from c) "") w))
    else (Resolve tt, w).
Proof.
  intros Hc.
  unfold Pipeline.step_4, bind, RecordingService.twilio_calls_fetch, ret.
  rewrite Hc. destruct (Js.truthy (from c)); [|reflexivity].
  destruct (call_back_run env sid (RecordingProcessorService.summary pr)
              (Js.or_else (from c) "") w) as (Hf & _).
  destruct (RecordingService.call_back env sid _ _ w) as [[[]|e|] w1];
    cbn [fst snd] in *; try discriminate.
  reflexivity.
Qed.

Lemma step_4_lookup_fails (sid callSid : string)
    (pr : RecordingProcessorService.ProcessedRecording) (w : World) (e : ApiError) :
  calls_fetch env callSid = Rejected e ->
  Pipeline.step_4 env sid callSid pr w = (Reject e, w).
Proof.
  intros Hc.
  unfold Pipeline.step_4, bind, RecordingService.twilio_calls_fetch.
  rewrite Hc. reflexivity.
Qed.

End PipelineFacts.

(** ** The two tasks of the concurrent phase do not interfere *)

Create HintDb blind.

Section Interference.
Variable env : Env.

Lemma stores_blind_ret {A} (a : A) : stores_blind (ret a).
Proof. intros f g w. reflexivity. Qed.

Lemma stores_blind_throw {A} (e : ApiError) : stores_blind (@throw A e).
Proof. intros f g w. reflexivity. Qed.

Lemma stores_blind_diverge {A} : stores_blind (@diverge A).
Proof. intros f g w. reflexivity. Qed.

Lemma stores_blind_bind {A B} (c : Async A) (k : A -> Async B) :
  stores_blind c -> (forall a, stores_blind (k a)) -> stores_blind (bind c k).
Proof.
  intros Hc Hk f g w. unfold bind. rewrite Hc.
  destruct (c w) as [[a|e|] w']; cbn [fst snd]; [apply Hk | reflexivity | reflexivity].
Qed.

Lemma stores_blind_try_catch {A} (c : Async A) (h : ApiError -> Async A) :
  stores_blind c -> (forall e, stores_blind (h e)) -> stores_blind (try_catch c h).
Proof.
  intros Hc Hh f g w. unfold try_catch. rewrite Hc.
  destruct (c w) as [[a|e|] w']; cbn [fst snd]; [reflexivity | apply Hh | reflexivity].
Qed.

Lemma stores_blind_attempt {A} (c : Async A) :
  stores_blind c -> stores_blind (attempt c).
Proof.
  intros Hc. unfold attempt. apply stores_blind_try_catch.
  - apply stores_blind_bind; [exact Hc | intros a; apply stores_blind_ret].
  - intros e. apply stores_blind_ret.
Qed.

Lemma stores_blind_sleep (ms : Z) : stores_blind (sleep ms).
Proof. intros f g w. reflexivity. Qed.

Lemma stores_blind_logger_error (label detail : string) :
  stores_blind (logger_error label detail).
Proof. intros f g w. reflexivity. Qed.

Lemma stores_blind_post_transcription (audio : list Byte.byte) :
  stores_blind (RecordingProcessorService.post_transcription env audio).
Proof.
  intros f g w. unfold RecordingProcessorService.post_transcription.
  cbn [transcription_requests set_objects set_recordings].
  destruct (whisper env (transcription_requests w) audio); reflexivity.
Qed.

Lemma stores_blind_chat_completions_create (req : ChatRequest) :
  stores_blind (RecordingProcessorService.chat_completions_create env req).
Proof.
  intros f g w. unfold RecordingProcessorService.chat_completions_create.
  cbn [completion_requests set_objects set_recordings].
  destruct (chat env (completion_requests w) req); reflexivity.
Qed.

#[local] Hint Resolve stores_blind_ret stores_blind_throw stores_blind_diverge
  stores_blind_sleep stores_blind_logger_error stores_blind_post_transcription
  stores_blind_chat_completions_create : blind.

Ltac blind :=
  repeat first
    [ progress auto with blind
    | apply stores_blind_bind; [|intros ?]
    | apply stores_blind_try_catch; [|intros ?]
    | apply stores_blind_attempt
    | match goal with
      | |- stores_blind (if ?b then _ else _) => destruct b
      | |- stores_blind (match ?x with inl _ => _ | inr _ => _ end) => destruct x
      end ].

Lemma stores_blind_transcribe_loop (fuel : nat) : forall audio rc,
  stores_blind (RecordingProcessorService.transcribe_loop env fuel audio rc).
Proof.
  induction fuel as [|fuel IH]; intros audio rc;
    cbn [RecordingProcessorService.transcribe_loop]; blind.
Qed.

Lemma stores_blind_summary_loop (fuel : nat) : forall transcript rc,
  stores_blind (RecordingProcessorService.summary_loop env fuel transcript rc).
Proof.
  induction fuel as [|fuel IH]; intros transcript rc;
    cbn [RecordingProcessorService.summary_loop]; blind.
Qed.

Lemma stores_blind_processRecording (audio : list Byte.byte) :
  stores_blind (RecordingProcessorService.processRecording env audio).
Proof.
  unfold RecordingProcessorService.processRecording,
    RecordingProcessorService.transcribeAudio,
    RecordingProcessorService.generateSummary.
  apply stores_blind_try_catch.
  - apply stores_blind_bind; [apply stores_blind_transcribe_loop|]. intros t.
    apply stores_blind_bind; [apply stores_blind_summary_loop|]. intros s.
    apply stores_blind_ret.
  - intros e. blind.
Qed.

(** The world in which both tasks of the concurrent phase have settled,
    and their two outcomes, are the same whichever task runs first. *)
Lemma concurrent_phase_order (audio : list Byte.byte) (md : RecordingMetadata)
    (w : World) :
  let store := StorageService.storeRecording env audio md in
  let process := RecordingProcessorService.processRecording env audio in
  fst (store (snd (process w))) = fst (store w)
  /\ fst (process (snd (store w))) = fst (process w)
  /\ snd (store (snd (process w))) = snd (process (snd (store w))).
Proof.
  cbv zeta.
  destruct (processor_run env audio w) as (_ & Ho & Hr & _).
  pose proof (stores_blind_processRecording audio) as Hb.
  rewrite !storeRecording_eq. cbv zeta. rewrite Ho, Hr.
  destruct (storage_upload env (objects w) _); [auto|].
  destruct (table_insert env (recordings w) _); cbn [fst snd].
  - specialize (Hb (fun l => (l ++ [Pipeline.audio_object (md_recording_sid md) audio])%list)
                  (fun l => l) w).
    replace (set_recordings (fun l => l) w) with w in Hb by (destruct w; reflexivity).
    rewrite Hb. cbn [fst snd].
    replace (set_recordings (fun l => l)
               (snd (RecordingProcessorService.processRecording env audio w)))
      with (snd (RecordingProcessorService.processRecording env audio w))
      by (destruct (snd (RecordingProcessorService.processRecording env audio w));
          reflexivity).
    auto.
  - match goal with
    | |- context [set_recordings ?g (set_objects ?f w)] =>
        specialize (Hb f g w);
        change (set_recordings g (set_objects f w))
          with (set_objects f (set_recordings g w))
    end.
    rewrite Hb. cbn [fst snd]. auto.
Qed.

End Interference.

Section StepsOneToThree.
Variable env : Env.

(** Steps 1 to 3, case by case on the replies of the collaborators. *)
Lemma steps_1_to_3_cases (sid callSid url : string) (d : option string) (w : World) :
  fst (Pipeline.steps_1_to_3 env sid callSid url d w) <> Diverge
  /\ match fetch env (url ++ ".mp3") (Pipeline.authorization env) with
     | Rejected e => Pipeline.steps_1_to_3 env sid callSid url d w = (Reject e, w)
     | Resolved resp =>
         if http_ok resp then
           match storage_upload env (objects w)
                   (Pipeline.audio_object sid (http_body resp)) with
           | Some _ =>
               is_reject (fst (Pipeline.steps_1_to_3 env sid callSid url d w))
               /\ recordings (snd (Pipeline.steps_1_to_3 env sid callSid url d w))
                  = recordings w
           | None =>
               match table_insert env (recordings w)
                       (Pipeline.inserted_row env sid callSid d) with
               | Some _ =>
                   is_reject (fst (Pipeline.steps_1_to_3 env sid callSid url d w))
                   /\ recordings (snd (Pipeline.steps_1_to_3 env sid callSid url d w))
                      = recordings w
               | None =>
                   (is_reject (fst (Pipeline.steps_1_to_3 env sid callSid url d w))
                    /\ recordings (snd (Pipeline.steps_1_to_3 env sid callSid url d w))
                       = (recordings w
                          ++ [Pipeline.inserted_row env sid callSid d])%list)
                   \/ exists pr,
                        fst (Pipeline.steps_1_to_3 env sid callSid url d w) = Resolve pr
                        /\ recordings (snd (Pipeline.steps_1_to_3 env sid callSid url d w))
                           = map (StorageService.update_row sid
                                    (Pipeline.transcript_public_url env sid)
                                    (RecordingProcessorService.summary pr))
                                 (recordings w
                                  ++ [Pipeline.inserted_row env sid callSid d])
               end
           end
         else
           Pipeline.steps_1_to_3 env sid callSid url d w
           = (Reject (Error ("Failed to download recording: "
                             ++ Js.show_int (http_status resp) ++ " "
                             ++ http_statusText resp)), w)
     end.
Proof.
  remember (Pipeline.steps_1_to_3 env sid callSid url d w) as r eqn:Er.
  unfold Pipeline.steps_1_to_3, bind, RecordingService.fetch_get,
    RecordingService.promise_all in Er.
  destruct (fetch env _ _) as [resp|e]; [|subst r; split; [discriminate|reflexivity]].
  destruct (http_ok resp); cbn [negb] in Er;
    [|subst r; split; [discriminate|reflexivity]].
  cbv zeta in Er. rewrite storeRecording_eq in Er. cbv zeta in Er.
  cbn [md_recording_sid md_call_sid md_duration
    md_audio_summary md_transcript_url Js.or_null Js.truthy] in Er.
  change (mkRow sid callSid (Js.parseInt d) None
            (Some (Pipeline.audio_public_url env sid)) None (now env))
    with (Pipeline.inserted_row env sid callSid d) in Er.
  destruct (storage_upload env (objects w) _) as [m|].
  { destruct (processor_run env (http_body resp) w) as (Hd & _ & Hr & _).
    destruct (RecordingProcessorService.processRecording env (http_body resp) w)
      as [[pr|e|] w2]; cbn [fst snd] in *; try congruence;
      subst r; (split; [discriminate|]); split; cbn; auto. }
  destruct (table_insert env (recordings w) _) as [m|].
  { match type of Er with
    | context [RecordingProcessorService.processRecording env ?a ?w0] =>
        destruct (processor_run env a w0) as (Hd & _ & Hr & _);
        destruct (RecordingProcessorService.processRecording env a w0)
          as [[pr|e|] w2]
    end; cbn [fst snd] in *; try congruence;
      subst r; (split; [discriminate|]); split; cbn; auto. }
  match type of Er with
  | context [RecordingProcessorService.processRecording env ?a ?w0] =>
      destruct (processor_run env a w0) as (Hd & Ho & Hr & _);
      destruct (RecordingProcessorService.processRecording env a w0)
        as [[pr|e|] w2]
  end; cbn [fst snd] in *; try congruence.
  - rewrite storeTranscriptionAndSummary_eq in Er. cbv zeta in Er.
    destruct (storage_upload env (objects w2) _) as [m|].
    { subst r. split; [discriminate|]. left. split; cbn; auto. }
    destruct (table_update env (recordings w2) sid) as [m|].
    { subst r. split; [discriminate|]. left. split; cbn; auto. }
    subst r. split; [discriminate|]. right.
    exists pr. split; [reflexivity|]. cbn. now rewrite Hr.
  - subst r. split; [discriminate|]. left. split; cbn; auto.
Qed.

(** Steps 1 to 3 once the storage task has committed its record: the
    outcome follows the processing task, then the transcript upload and
    the update, and the record stays as inserted unless all three
    succeed. *)
Lemma steps_1_to_3_committed (sid callSid url : string) (d : option string) (w : World)
    (resp : HttpResponse) :
  fetch env (url ++ ".mp3") (Pipeline.authorization env) = Resolved resp ->
  http_ok resp = true ->
  storage_upload env (objects w) (Pipeline.audio_object sid (http_body resp)) = None ->
  table_insert env (recordings w) (Pipeline.inserted_row env sid callSid d) = None ->
  let r3 := Pipeline.steps_1_to_3 env sid callSid url d w in
  let row := Pipeline.inserted_row env sid callSid d in
  let stored := (objects w ++ [Pipeline.audio_object sid (http_body resp)])%list in
  match fst (RecordingProcessorService.processRecording env (http_body resp) w) with
  | Reject e =>
      fst r3 = Reject e /\ recordings (snd r3) = (recordings w ++ [row])%list
  | Resolve pr =>
      match storage_upload env stored
              (Pipeline.transcript_object sid
                 (RecordingProcessorService.transcription pr)) with
      | Some m =>
          fst r3 = Reject (Error ("Failed to upload transcript: " ++ m))
          /\ recordings (snd r3) = (recordings w ++ [row])%list
      | None =>
          match table_update env (recordings w ++ [row]) sid with
          | Some m =>
              fst r3 = Reject (Error ("Failed to update recording with transcript: "
                                      ++ m))
              /\ recordings (snd r3) = (recordings w ++ [row])%list
          | None =>
              fst r3 = Resolve pr
              /\ recordings (snd r3)
                 = map (StorageService.update_row sid
                          (Pipeline.transcript_public_url env sid)
                          (RecordingProcessorService.summary pr))
                       (recordings w ++ [row])
          end
      end
  | Diverge => False
  end.
Proof.
  intros Hfetch Hok Hup Hins. cbv zeta.
  remember (Pipeline.steps_1_to_3 env sid callSid url d w) as r eqn:Er.
  unfold Pipeline.steps_1_to_3, bind, RecordingService.fetch_get,
    RecordingService.promise_all in Er.
  rewrite Hfetch, Hok in Er. cbn [negb] in Er.
  cbv zeta in Er. rewrite storeRecording_eq in Er. cbv zeta in Er.
  cbn [md_recording_sid md_call_sid md_duration
    md_audio_summary md_transcript_url Js.or_null Js.truthy] in Er.
  change (mkRow sid callSid (Js.parseInt d) None
            (Some (Pipeline.audio_public_url env sid)) None (now env))
    with (Pipeline.inserted_row env sid callSid d) in Er.
  rewrite Hup, Hins in Er.
  destruct (processor_run env (http_body resp) w) as (Hd & Ho & Hr & _).
  match type of Er with
  | context [RecordingProcessorService.processRecording env ?a
               (set_recordings ?g (set_objects ?f w))] =>
      pose proof (stores_blind_processRecording env a f g w) as Hb;
      change (set_recordings g (set_objects f w))
        with (set_objects f (set_recordings g w)) in Er
  end.
  rewrite Hb in Er. clear Hb.
  destruct (RecordingProcessorService.processRecording env (http_body resp) w)
    as [[pr|e|] w2]; cbn [fst snd] in *; [| |now elim Hd].
  - rewrite storeTranscriptionAndSummary_eq in Er. cbv zeta in Er.
    cbn [objects recordings set_objects set_recordings] in Er.
    rewrite Ho, Hr in Er.
    match goal with
    | |- match ?x with _ => _ end => destruct x as [m|]
    end; [subst r; split; cbn; congruence|].
    match goal with
    | |- match ?x with _ => _ end => destruct x as [m|]
    end; subst r; split; cbn; congruence.
  - subst r. split; cbn; congruence.
Qed.

End StepsOneToThree.

Section WholePipeline.
Variable env : Env.

(** The handler of [processRecording] logs and rethrows: it changes
    neither the outcome nor anything but the log. *)
Lemma rethrow_run {A} (c : Async A) (label : string) (w : World) :
  let h := fun error =>
             logger_error label (message_or_unknown error) ;; @throw A error in
  fst (try_catch c h w) = fst (c w)
  /\ recordings (snd (try_catch c h w)) = recordings (snd (c w))
  /\ objects (snd (try_catch c h w)) = objects (snd (c w))
  /\ speech_requests (snd (try_catch c h w)) = speech_requests (snd (c w))
  /\ calls_created (snd (try_catch c h w)) = calls_created (snd (c w))
  /\ (forall x, In x (error_log (snd (c w))) -> In x (error_log (snd (try_catch c h w)))).
Proof.
  unfold try_catch, bind, logger_error, modify, throw.
  destruct (c w) as [[a|e|] w1]; cbn; repeat split; auto.
  intros x Hx. apply in_or_app. now left.
Qed.

(** Steps 1 to 3 request no speech and place no call. *)
Lemma steps_1_to_3_frame (sid callSid url : string) (d : option string) (w : World) :
  speech_requests (snd (Pipeline.steps_1_to_3 env sid callSid url d w))
  = speech_requests w
  /\ calls_created (snd (Pipeline.steps_1_to_3 env sid callSid url d w))
     = calls_created w.
Proof.
  remember (Pipeline.steps_1_to_3 env sid callSid url d w) as r eqn:Er.
  unfold Pipeline.steps_1_to_3, bind, RecordingService.fetch_get,
    RecordingService.promise_all in Er.
  destruct (fetch env _ _) as [resp|e]; [|subst r; split; reflexivity].
  destruct (http_ok resp); cbn [negb] in Er; [|subst r; split; reflexivity].
  cbv zeta in Er. rewrite storeRecording_eq in Er. cbv zeta in Er.
  assert (Hp : forall w0,
             speech_requests w0 = speech_requests w ->
             calls_created w0 = calls_created w ->
             speech_requests
               (snd (RecordingProcessorService.processRecording env (http_body resp) w0))
             = speech_requests w
             /\ calls_created
                  (snd (RecordingProcessorService.processRecording env (http_body resp) w0))
                = calls_created w).
  { intros w0 H1 H2.
    destruct (processor_run env (http_body resp) w0) as (_ & _ & _ & Hs & Hc).
    split; congruence. }
  destruct (storage_upload env (objects w) _) as [m|].
  { destruct (Hp w eq_refl eq_refl) as (H1 & H2).
    destruct (RecordingProcessorService.processRecording env (http_body resp) w)
      as [[pr|e|] w2]; subst r; auto. }
  destruct (table_insert env (recordings w) _) as [m|].
  { match type of Er with
    | context [RecordingProcessorService.processRecording env ?a ?w0] =>
        destruct (Hp w0 eq_refl eq_refl) as (H1 & H2);
        destruct (RecordingProcessorService.processRecording env a w0)
          as [[pr|e|] w2]
    end; subst r; auto. }
  match type of Er with
  | context [RecordingProcessorService.processRecording env ?a ?w0] =>
      destruct (Hp w0 eq_refl eq_refl) as (H1 & H2);
      destruct (RecordingProcessorService.processRecording env a w0)
        as [[pr|e|] w2]
  end; cbn [fst snd] in *; try (subst r; auto; fail).
  rewrite storeTranscriptionAndSummary_eq in Er. cbv zeta in Er.
  destruct (storage_upload env (objects w2) _) as [m|]; [subst r; auto|].
  destruct (table_update env (recordings w2) sid) as [m|]; subst r; auto.
Qed.

(** The outcome and the table of [processRecording] when steps 1 to 3
    do not resolve: those of steps 1 to 3. *)
Lemma processRecording_early (sid callSid url : string) (d : option string) (w : World) :
  (forall pr, fst (Pipeline.steps_1_to_3 env sid callSid url d w) <> Resolve pr) ->
  fst (RecordingService.processRecording env sid callSid url d w)
  = match fst (Pipeline.steps_1_to_3 env sid callSid url d w) with
    | Resolve _ => Resolve tt
    | Reject e => Reject e
    | Diverge => Diverge
    end
  /\ recordings (snd (RecordingService.processRecording env sid callSid url d w))
     = recordings (snd (Pipeline.steps_1_to_3 env sid callSid url d w))
  /\ objects (snd (RecordingService.processRecording env sid callSid url d w))
     = objects (snd (Pipeline.steps_1_to_3 env sid callSid url d w)).
Proof.
  intros Hn. rewrite processRecording_steps.
  match goal with
  | |- context [try_catch ?c ?h w] =>
      destruct (rethrow_run c "Error processing recording:" w) as (Hf & Hr & Ho & _)
  end.
  cbv zeta in Hf, Hr, Ho. rewrite Hf, Hr, Ho. unfold bind.
  destruct (Pipeline.steps_1_to_3 env sid callSid url d w) as [[pr|e|] w1];
    cbn [fst snd] in *; auto.
  exfalso. now apply (Hn pr).
Qed.

(** The outcome and the table of [processRecording] when steps 1 to 3
    resolve: the outcome of step 4, the table of step 3. *)
Lemma processRecording_late (sid callSid url : string) (d : option string) (w w3 : World)
    (pr : RecordingProcessorService.ProcessedRecording) :
  Pipeline.steps_1_to_3 env sid callSid url d w = (Resolve pr, w3) ->
  fst (RecordingService.processRecording env sid callSid url d w)
  = fst (Pipeline.step_4 env sid callSid pr w3)
  /\ recordings (snd (RecordingService.processRecording env sid callSid url d w))
     = recordings w3
  /\ speech_requests (snd (RecordingService.processRecording env sid callSid url d w))
     = speech_requests (snd (Pipeline.step_4 env sid callSid pr w3))
  /\ calls_created (snd (RecordingService.processRecording env sid callSid url d w))
     = calls_created (snd (Pipeline.step_4 env sid callSid pr w3))
  /\ objects (snd (RecordingService.processRecording env sid callSid url d w))
     = objects (snd (Pipeline.step_4 env sid callSid pr w3))
  /\ (forall x, In x (error_log (snd (Pipeline.step_4 env sid callSid pr w3))) ->
                In x (error_log (snd (RecordingService.processRecording env sid callSid
                                        url d w)))).
Proof.
  intros H123. rewrite processRecording_steps.
  match goal with
  | |- context [try_catch ?c ?h w] =>
      destruct (rethrow_run c "Error processing recording:" w)
        as (Hf & Hr & Ho & Hs & Hc & Hl)
  end.
  cbv zeta in Hf, Hr, Ho, Hs, Hc, Hl. rewrite Hf, Hr, Ho, Hs, Hc.
  unfold bind in *. rewrite H123 in *.
  destruct (step_4_run env sid callSid pr w3) as (_ & Hr4).
  repeat split; auto.
Qed.

End WholePipeline.

Section PipelineCases.
Variable env : Env.

(** [processRecording], case by case on the replies of the
    collaborators: its outcome and the table it leaves. *)
Lemma processRecording_cases (sid callSid url : string) (d : option string) (w : World) :
  let r := RecordingService.processRecording env sid callSid url d w in
  let row := Pipeline.inserted_row env sid callSid d in
  fst r <> Diverge
  /\ match fetch env (url ++ ".mp3") (Pipeline.authorization env) with
     | Rejected e =>
         fst r = Reject e /\ recordings (snd r) = recordings w
         /\ objects (snd r) = objects w
     | Resolved resp =>
         if http_ok resp then
           match storage_upload env (objects w)
                   (Pipeline.audio_object sid (http_body resp)) with
           | Some _ => is_reject (fst r) /\ recordings (snd r) = recordings w
           | None =>
               match table_insert env (recordings w) row with
               | Some _ => is_reject (fst r) /\ recordings (snd r) = recordings w
               | None =>
                   (is_reject (fst r)
                    /\ recordings (snd r) = (recordings w ++ [row])%list)
                   \/ exists s,
                        recordings (snd r)
                        = map (StorageService.update_row sid
                                 (Pipeline.transcript_public_url env sid) s)
                              (recordings w ++ [row])
               end
           end
         else
           fst r = Reject (Error ("Failed to download recording: "
                                  ++ Js.show_int (http_status resp) ++ " "
                                  ++ http_statusText resp))
           /\ recordings (snd r) = recordings w
           /\ objects (snd r) = objects w
     end.
Proof.
  cbv zeta.
  destruct (steps_1_to_3_cases env sid callSid url d w) as (Hd & Hcases).
  destruct (Pipeline.steps_1_to_3 env sid callSid url d w) as [[pr|e|] w3] eqn:E;
    [| |now elim Hd].
  - (* steps 1 to 3 resolve *)
    destruct (processRecording_late env sid callSid url d w w3 pr E)
      as (Hf & Hr & _).
    destruct (step_4_run env sid callSid pr w3) as (Hd4 & _).
    rewrite Hf, Hr. split; [exact Hd4|].
    destruct (fetch env _ _) as [resp|e]; [|discriminate].
    destruct (http_ok resp); [|discriminate].
    cbn [fst snd] in Hcases.
    destruct (storage_upload env _ _); [now destruct Hcases|].
    destruct (table_insert env _ _); [now destruct Hcases|].
    destruct Hcases as [(Hrej & _) | (pr' & _ & Hrec)]; [now elim Hrej|].
    right. eexists. exact Hrec.
  - (* steps 1 to 3 reject *)
    destruct (processRecording_early env sid callSid url d w) as (Hf & Hr & Ho).
    { rewrite E. discriminate. }
    rewrite E in Hf, Hr, Ho. cbn [fst snd] in *. rewrite Hf, Hr, Ho.
    split; [discriminate|].
    destruct (fetch env _ _) as [resp|e0].
    + destruct (http_ok resp).
      * destruct (storage_upload env _ _); [exact Hcases|].
        destruct (table_insert env _ _); [exact Hcases|].
        destruct Hcases as [Hc | (pr' & Hc & _)]; [now left | discriminate].
      * repeat split; congruence.
    + repeat split; congruence.
Qed.

Lemma update_row_audio_url (sid url s : string) (r : Row) :
  audio_url (StorageService.update_row sid url s r) = audio_url r.
Proof.
  unfold StorageService.update_row.
  destruct (String.eqb (recording_sid r) sid); reflexivity.
Qed.

Lemma update_row_recording_sid (sid url s : string) (r : Row) :
  recording_sid (StorageService.update_row sid url s r) = recording_sid r.
Proof.
  unfold StorageService.update_row.
  destruct (String.eqb (recording_sid r) sid); reflexivity.
Qed.

Lemma update_row_duration (sid url s : string) (r : Row) :
  duration (StorageService.update_row sid url s r) = duration r.
Proof.
  unfold StorageService.update_row.
  destruct (String.eqb (recording_sid r) sid); reflexivity.
Qed.

Lemma update_row_matching (sid url s : string) (r : Row) :
  recording_sid r = sid ->
  transcript_url (StorageService.update_row sid url s r) = Some url
  /\ audio_summary (StorageService.update_row sid url s r) = Some s.
Proof.
  intros H. unfold StorageService.update_row.
  rewrite (proj2 (String.eqb_eq _ _) H). split; reflexivity.
Qed.

Lemma update_row_other (sid url s : string) (r : Row) :
  recording_sid r <> sid -> StorageService.update_row sid url s r = r.
Proof.
  intros H. unfold StorageService.update_row.
  now rewrite (proj2 (String.eqb_neq _ _) H).
Qed.

(** A second update of the same recording overwrites the first. *)
Lemma update_row_twice (sid url1 s1 url2 s2 : string) (r : Row) :
  StorageService.update_row sid url2 s2 (StorageService.update_row sid url1 s1 r)
  = StorageService.update_row sid url2 s2 r.
Proof.
  unfold StorageService.update_row.
  destruct (String.eqb (recording_sid r) sid) eqn:E; cbn; rewrite E; reflexivity.
Qed.

Lemma audio_url_set_after_update (sid url s : string) (l : list Row) :
  Forall (fun x => audio_url x <> None) l ->
  Forall (fun x => audio_url x <> None) (map (StorageService.update_row sid url s) l).
Proof.
  intros H. apply Forall_map. eapply Forall_impl; [|exact H].
  intros r Hr. now rewrite update_row_audio_url.
Qed.

End PipelineCases.

(** ** The orchestrator *)

(** The end-to-end scenario of the specification: one Metadata Record,
    complete, and one outbound call to the caller of the recorded call. *)
Example end_to_end_scenario :
  let r := RecordingService.processRecording Mock.env "RE1" "CA1" Mock.recording_url
             (Some "12") empty_world in
  fst r = Resolve tt
  /\ recordings (snd r) = [Mock.updated]
  /\ map call_to (calls_created (snd r)) = ["+15550123"]
  /\ map obj_name (objects (snd r))
     = ["RE1.mp3"; "RE1_transcript.txt"; "RE1_summary_speech.mp3"]
  /\ error_log (snd r) = [].
Proof. cbv zeta. repeat split; reflexivity. Qed.

(** C1, as the code has it.  [processRecording] resolves or throws.
    When it resolves, the Metadata Record of the run is committed with
    its transcript URL and its summary.  When the download fails, or the
    upload or the insert of the storage task is refused, it throws and
    the table is as it was.  When the storage task succeeds, the record
    it inserted is committed whatever becomes of the rest: if the
    processing task throws, or the transcript upload or the update of
    step 3 is refused, [processRecording] throws that error and the
    record stays as inserted, with no transcript URL and no summary; if
    they succeed the record carries both, and [processRecording]
    resolves unless the lookup of the call throws.  The record is
    inserted with the public URL of the stored audio as its [audio_url],
    no run changes the [audio_url] of a record, and that of the new
    record is not empty when the public URL is not. *)
Theorem record_is_committed_by_the_storage_task
    (env : Env) (sid callSid url : string) (d : option string) (w : World) :
  let r := RecordingService.processRecording env sid callSid url d w in
  let row := Pipeline.inserted_row env sid callSid d in
  let updated s :=
    map (StorageService.update_row sid (Pipeline.transcript_public_url env sid) s)
        (recordings w ++ [row]) in
  fst r <> Diverge
  /\ (fst r = Resolve tt -> exists s, recordings (snd r) = updated s)
  /\ (forall e,
        fetch env (url ++ ".mp3") (Pipeline.authorization env) = Rejected e ->
        fst r = Reject e /\ recordings (snd r) = recordings w)
  /\ (forall resp,
        fetch env (url ++ ".mp3") (Pipeline.authorization env) = Resolved resp ->
        http_ok resp = false
        \/ storage_upload env (objects w)
             (Pipeline.audio_object sid (http_body resp)) <> None
        \/ table_insert env (recordings w) row <> None ->
        is_reject (fst r) /\ recordings (snd r) = recordings w)
  /\ (forall resp,
        fetch env (url ++ ".mp3") (Pipeline.authorization env) = Resolved resp ->
        http_ok resp = true ->
        storage_upload env (objects w)
          (Pipeline.audio_object sid (http_body resp)) = None ->
        table_insert env (recordings w) row = None ->
        match fst (RecordingProcessorService.processRecording env (http_body resp) w) with
        | Reject e =>
            fst r = Reject e /\ recordings (snd r) = (recordings w ++ [row])%list
        | Resolve pr =>
            match storage_upload env
                    (objects w ++ [Pipeline.audio_object sid (http_body resp)])
                    (Pipeline.transcript_object sid
                       (RecordingProcessorService.transcription pr)) with
            | Some m =>
                fst r = Reject (Error ("Failed to upload transcript: " ++ m))
                /\ recordings (snd r) = (recordings w ++ [row])%list
            | None =>
                match table_update env (recordings w ++ [row]) sid with
                | Some m =>
                    fst r = Reject (Error ("Failed to update recording with transcript: "
                                           ++ m))
                    /\ recordings (snd r) = (recordings w ++ [row])%list
                | None =>
                    recordings (snd r)
                    = updated (RecordingProcessorService.summary pr)
                    /\ match calls_fetch env callSid with
                       | Resolved _ => fst r = Resolve tt
                       | Rejected e => fst r = Reject e
                       end
                end
            end
        | Diverge => False
        end)
  /\ (transcript_url row = None /\ audio_summary row = None
      /\ audio_url row = Some (Pipeline.audio_public_url env sid))
  /\ (map audio_url (recordings (snd r)) = map audio_url (recordings w)
      \/ map audio_url (recordings (snd r))
         = (map audio_url (recordings w)
            ++ [Some (Pipeline.audio_public_url env sid)])%list)
  /\ (Pipeline.audio_public_url env sid <> "" ->
      Forall (fun x => Js.truthy (audio_url x) = true) (recordings w) ->
      Forall (fun x => Js.truthy (audio_url x) = true) (recordings (snd r))).
Proof.
  cbv zeta.
  destruct (processRecording_cases env sid callSid url d w) as (Hd & Hc).
  cbv zeta in Hc.
  set (r := RecordingService.processRecording env sid callSid url d w) in *.
  set (row := Pipeline.inserted_row env sid callSid d) in *.
  assert (Htable :
            recordings (snd r) = recordings w
            \/ recordings (snd r) = (recordings w ++ [row])%list
            \/ exists s,
                 recordings (snd r)
                 = map (StorageService.update_row sid
                          (Pipeline.transcript_public_url env sid) s)
                       (recordings w ++ [row])).
  { destruct (fetch env (url ++ ".mp3") (Pipeline.authorization env)) as [resp|e];
      [|left; apply Hc].
    destruct (http_ok resp); [|left; apply Hc].
    destruct (storage_upload env (objects w) _); [left; apply Hc|].
    destruct (table_insert env (recordings w) row); [left; apply Hc|].
    destruct Hc as [(_ & Hc) | Hc]; auto. }
  assert (Hurls :
            map audio_url (recordings (snd r)) = map audio_url (recordings w)
            \/ map audio_url (recordings (snd r))
               = (map audio_url (recordings w)
                  ++ [Some (Pipeline.audio_public_url env sid)])%list).
  { destruct Htable as [-> | [-> | (s & ->)]]; [now left|right..].
    - now rewrite map_app.
    - rewrite map_map.
      transitivity (map audio_url (recordings w ++ [row])%list);
        [apply map_ext; intros x; apply update_row_audio_url | now rewrite map_app]. }
  split; [exact Hd|].
  refine (conj _ (conj _ (conj _ (conj _ (conj _ (conj Hurls _)))))).
  - (* a run that resolves *)
    intros Hres.
    destruct (fetch env (url ++ ".mp3") (Pipeline.authorization env)) as [resp|e];
      [|destruct Hc as (Hf & _); congruence].
    destruct (http_ok resp); [|destruct Hc as (Hf & _); congruence].
    destruct (storage_upload env (objects w) _);
      [destruct Hc as (Hrej & _); rewrite Hres in Hrej; now elim Hrej|].
    destruct (table_insert env (recordings w) row);
      [destruct Hc as (Hrej & _); rewrite Hres in Hrej; now elim Hrej|].
    destruct Hc as [(Hrej & _) | Hu]; [|exact Hu].
    rewrite Hres in Hrej. now elim Hrej.
  - (* the download is rejected *)
    intros e Hf. rewrite Hf in Hc. split; apply Hc.
  - (* the download, the upload or the insert fails *)
    intros resp Hf Hfail. rewrite Hf in Hc.
    destruct (http_ok resp).
    + destruct (storage_upload env (objects w) _) as [m|]; [exact Hc|].
      destruct (table_insert env (recordings w) row) as [m|]; [exact Hc|].
      destruct Hfail as [H | [H | H]]; congruence.
    + destruct Hc as (Hf' & Hrec & _). rewrite Hf'. split; [exact I | exact Hrec].
  - (* the storage task has committed the record *)
    intros resp Hf Hok Hup Hins.
    pose proof (steps_1_to_3_committed env sid callSid url d w resp Hf Hok Hup Hins)
      as H3.
    cbv zeta in H3. fold row in H3.
    assert (Hearly : forall e,
              fst (Pipeline.steps_1_to_3 env sid callSid url d w) = Reject e ->
              fst r = Reject e
              /\ recordings (snd r)
                 = recordings (snd (Pipeline.steps_1_to_3 env sid callSid url d w))).
    { intros e He.
      destruct (processRecording_early env sid callSid url d w) as (H1 & H2 & _).
      - rewrite He. discriminate.
      - rewrite He in H1. auto. }
    destruct (fst (RecordingProcessorService.processRecording env (http_body resp) w))
      as [pr|e|]; [| |exact H3].
    + destruct (storage_upload env _ (Pipeline.transcript_object sid _)) as [m|].
      { destruct H3 as (H3 & H3'). destruct (Hearly _ H3) as (-> & ->). auto. }
      destruct (table_update env _ sid) as [m|].
      { destruct H3 as (H3 & H3'). destruct (Hearly _ H3) as (-> & ->). auto. }
      destruct H3 as (H3 & H3').
      destruct (Pipeline.steps_1_to_3 env sid callSid url d w) as [o w3] eqn:E.
      cbn [fst snd] in H3, H3'. subst o.
      destruct (processRecording_late env sid callSid url d w w3 pr E) as (H1 & H2 & _).
      fold r in H1, H2. rewrite H2. split; [exact H3'|].
      destruct (calls_fetch env callSid) as [c|e] eqn:Hcall.
      * rewrite H1, (step_4_lookup_ok env sid callSid pr w3 c Hcall).
        destruct (Js.truthy (from c)); reflexivity.
      * now rewrite H1, (step_4_lookup_fails env sid callSid pr w3 e Hcall).
    + destruct H3 as (H3 & H3'). destruct (Hearly _ H3) as (-> & ->). auto.
  - (* the record as inserted *)
    repeat split; reflexivity.
  - (* no record is left with an empty audio_url *)
    intros Hurl HF.
    assert (Hmap : forall l,
              Forall (fun x => Js.truthy (audio_url x) = true) l
              <-> Forall (fun u => Js.truthy u = true) (map audio_url l)).
    { intros l. rewrite Forall_map. reflexivity. }
    apply Hmap. apply Hmap in HF.
    destruct Hurls as [-> | ->]; [exact HF|].
    apply Forall_app. split; [exact HF|]. constructor; [|constructor].
    destruct (Pipeline.audio_public_url env sid); [congruence | reflexivity].
Qed.

Lemma record_is_committed_by_the_storage_task_witness :
  fst (RecordingService.processRecording Mock.env "RE1" "CA1" Mock.recording_url
         (Some "12") empty_world) = Resolve tt
  /\ exists s,
       recordings (snd (RecordingService.processRecording Mock.env "RE1" "CA1"
                          Mock.recording_url (Some "12") empty_world))
       = map (StorageService.update_row "RE1"
                (Pipeline.transcript_public_url Mock.env "RE1") s)
             ([] ++ [Pipeline.inserted_row Mock.env "RE1" "CA1" (Some "12")]).
Proof.
  assert (H : fst (RecordingService.processRecording Mock.env "RE1" "CA1"
                     Mock.recording_url (Some "12") empty_world) = Resolve tt)
    by reflexivity.
  split; [exact H|].
  exact (proj1 (proj2 (record_is_committed_by_the_storage_task Mock.env "RE1" "CA1"
                         Mock.recording_url (Some "12") empty_world)) H).
Defined.

(** C1, as the specification has it, fails: a run whose transcription
    is refused for quota throws and leaves the Metadata Record that the
    storage task inserted, and so does a run whose transcript upload is
    refused in step 3. *)
Lemma failed_run_leaves_record_counterexample :
  fst (RecordingService.processRecording Mock.out_of_quota "RE1" "CA1"
         Mock.recording_url (Some "12") empty_world)
  = Reject (Error "OpenAI API quota exceeded. Please check your billing details or try again later.")
  /\ recordings (snd (RecordingService.processRecording Mock.out_of_quota "RE1" "CA1"
                        Mock.recording_url (Some "12") empty_world))
     = [Mock.inserted]
  /\ fst (RecordingService.processRecording Mock.transcript_refused "RE1" "CA1"
            Mock.recording_url (Some "12") empty_world)
     = Reject (Error "Failed to upload transcript: Payload too large")
  /\ recordings (snd (RecordingService.processRecording Mock.transcript_refused "RE1" "CA1"
                        Mock.recording_url (Some "12") empty_world))
     = [Mock.inserted].
Proof. repeat split; reflexivity. Qed.

(** C2, as the code has it.  Once steps 1 to 3 have succeeded, the
    Metadata Record they committed stays as it is whatever happens in
    step 4.  When the lookup of the call succeeds, [processRecording]
    resolves: a failure of the speech synthesis, of the upload of the
    speech or of the outbound call is logged and swallowed. *)
Theorem speech_and_call_failures_are_swallowed
    (env : Env) (sid callSid url : string) (d : option string) (w w3 : World)
    (pr : RecordingProcessorService.ProcessedRecording) :
  Pipeline.steps_1_to_3 env sid callSid url d w = (Resolve pr, w3) ->
  let r := RecordingService.processRecording env sid callSid url d w in
  recordings (snd r) = recordings w3
  /\ forall c,
       calls_fetch env callSid = Resolved c ->
       fst r = Resolve tt
       /\ (Js.truthy (from c) = true ->
           (exists call,
               calls_created (snd r) = (calls_created w3 ++ [call])%list
               /\ call_to call = Js.or_else (from c) "")
           \/ (calls_created (snd r) = calls_created w3
               /\ exists m, In ("Error generating or playing speech:", m)
                               (error_log (snd r)))).
Proof.
  intros H123. cbv zeta.
  destruct (processRecording_late env sid callSid url d w w3 pr H123)
    as (Hf & Hr & _ & Hc & _ & Hl).
  split; [exact Hr|].
  intros c Hfetch. rewrite Hf, Hc.
  rewrite (step_4_lookup_ok env sid callSid pr w3 c Hfetch) in *.
  destruct (Js.truthy (from c)); [|split; [reflexivity | discriminate]].
  split; [reflexivity|]. intros _. cbn [fst snd] in *.
  destruct (call_back_run env sid (RecordingProcessorService.summary pr)
              (Js.or_else (from c) "") w3) as (_ & _ & [Hplaced | (Hsame & m & Hm)]).
  - left. exact Hplaced.
  - right. split; [exact Hsame|]. exists m. apply Hl. exact Hm.
Qed.

Lemma speech_and_call_failures_are_swallowed_witness :
  fst (RecordingService.processRecording Mock.call_refused "RE1" "CA1"
         Mock.recording_url (Some "12") empty_world) = Resolve tt
  /\ recordings (snd (RecordingService.processRecording Mock.call_refused "RE1" "CA1"
                        Mock.recording_url (Some "12") empty_world))
     = [Mock.updated].
Proof.
  destruct (Pipeline.steps_1_to_3 Mock.call_refused "RE1" "CA1" Mock.recording_url
              (Some "12") empty_world) as [o w3] eqn:E.
  assert (Ho : o = Resolve {| RecordingProcessorService.transcription := "hello world";
                              RecordingProcessorService.summary :=
                                "Quick call about hello world." |})
    by (apply (f_equal fst) in E; vm_compute in E; congruence).
  assert (Hw : recordings w3 = [Mock.updated])
    by (apply (f_equal snd) in E; cbn [snd] in E; subst w3; reflexivity).
  subst o.
  destruct (speech_and_call_failures_are_swallowed Mock.call_refused "RE1" "CA1"
              Mock.recording_url (Some "12") empty_world w3 _ E) as (Hr & Hres).
  split.
  - exact (proj1 (Hres {| from := Some "+15550123" |} eq_refl)).
  - rewrite Hr. exact Hw.
Defined.

(** C2, as the specification has it, fails: a failure of the lookup of
    the call is outside the inner [try] and is rethrown by the outer
    handler, so [processRecording] rejects; the record stays committed. *)
Lemma lookup_failure_propagates_counterexample :
  fst (RecordingService.processRecording Mock.lookup_fails "RE1" "CA1"
         Mock.recording_url (Some "12") empty_world)
  = Reject Mock.network_error
  /\ recordings (snd (RecordingService.processRecording Mock.lookup_fails "RE1" "CA1"
                        Mock.recording_url (Some "12") empty_world))
     = [Mock.updated].
Proof. split; reflexivity. Qed.

(** C6. When the download is answered with a status outside 200-299,
    [processRecording] throws an error that carries the status and the
    reason; nothing has been written to the bucket and the table has no
    new record. *)
Theorem download_failure_throws_before_any_write
    (env : Env) (sid callSid url : string) (d : option string) (w : World)
    (resp : HttpResponse) :
  fetch env (url ++ ".mp3") (Pipeline.authorization env) = Resolved resp ->
  ~ (200 <= http_status resp < 300) ->
  fst (RecordingService.processRecording env sid callSid url d w)
  = Reject (Error ("Failed to download recording: "
                   ++ Js.show_int (http_status resp) ++ " " ++ http_statusText resp))
  /\ objects (snd (RecordingService.processRecording env sid callSid url d w))
     = objects w
  /\ recordings (snd (RecordingService.processRecording env sid callSid url d w))
     = recordings w.
Proof.
  intros Hfetch Hstatus.
  assert (Hok : http_ok resp = false).
  { unfold http_ok. apply andb_false_iff.
    destruct (Z.leb_spec 200 (http_status resp)); [|now left].
    destruct (Z.ltb_spec (http_status resp) 300); [lia | now right]. }
  destruct (processRecording_cases env sid callSid url d w) as (_ & Hc).
  cbv zeta in Hc. rewrite Hfetch, Hok in Hc.
  destruct Hc as (Hf & Hr & Ho). auto.
Qed.

Lemma download_failure_throws_before_any_write_witness :
  ~ (200 <= 404 < 300)
  /\ fst (RecordingService.processRecording Mock.not_found "RE1" "CA1"
            Mock.recording_url (Some "12") empty_world)
     = Reject (Error "Failed to download recording: 404 Not Found")
  /\ objects (snd (RecordingService.processRecording Mock.not_found "RE1" "CA1"
                     Mock.recording_url (Some "12") empty_world)) = []
  /\ recordings (snd (RecordingService.processRecording Mock.not_found "RE1" "CA1"
                        Mock.recording_url (Some "12") empty_world)) = [].
Proof.
  assert (H : ~ (200 <= 404 < 300)) by lia.
  split; [exact H|].
  exact (download_failure_throws_before_any_write Mock.not_found "RE1" "CA1"
           Mock.recording_url (Some "12") empty_world
           {| http_status := 404; http_statusText := "Not Found"; http_body := [] |}
           eq_refl H).
Defined.

(** C9. When steps 1 to 3 have succeeded, the lookup of the call
    succeeds and the call has no caller number, [processRecording]
    resolves in the world step 3 left: no speech was requested, no
    speech object was stored and no outbound call was placed. *)
Theorem no_caller_number_no_call_back
    (env : Env) (sid callSid url : string) (d : option string) (w w3 : World)
    (pr : RecordingProcessorService.ProcessedRecording) (c : CallResource) :
  Pipeline.steps_1_to_3 env sid callSid url d w = (Resolve pr, w3) ->
  calls_fetch env callSid = Resolved c ->
  Js.truthy (from c) = false ->
  let r := RecordingService.processRecording env sid callSid url d w in
  fst r = Resolve tt
  /\ speech_requests (snd r) = speech_requests w
  /\ calls_created (snd r) = calls_created w
  /\ objects (snd r) = objects w3
  /\ recordings (snd r) = recordings w3.
Proof.
  intros H123 Hfetch Hfrom. cbv zeta.
  destruct (processRecording_late env sid callSid url d w w3 pr H123)
    as (Hf & Hr & Hs & Hc & Ho & _).
  destruct (steps_1_to_3_frame env sid callSid url d w) as (Hs3 & Hc3).
  rewrite H123 in Hs3, Hc3. cbn [snd] in Hs3, Hc3.
  rewrite (step_4_lookup_ok env sid callSid pr w3 c Hfetch), Hfrom in *.
  cbn [fst snd] in *. repeat split; congruence.
Qed.

Lemma no_caller_number_no_call_back_witness :
  fst (RecordingService.processRecording Mock.anonymous_caller "RE1" "CA1"
         Mock.recording_url (Some "12") empty_world) = Resolve tt
  /\ speech_requests (snd (RecordingService.processRecording Mock.anonymous_caller
                             "RE1" "CA1" Mock.recording_url (Some "12") empty_world))
     = []
  /\ calls_created (snd (RecordingService.processRecording Mock.anonymous_caller
                           "RE1" "CA1" Mock.recording_url (Some "12") empty_world))
     = [].
Proof.
  destruct (Pipeline.steps_1_to_3 Mock.anonymous_caller "RE1" "CA1" Mock.recording_url
              (Some "12") empty_world) as [o w3] eqn:E.
  assert (Ho : o = Resolve {| RecordingProcessorService.transcription := "hello world";
                              RecordingProcessorService.summary :=
                                "Quick call about hello world." |})
    by (apply (f_equal fst) in E; vm_compute in E; congruence).
  subst o.
  destruct (no_caller_number_no_call_back Mock.anonymous_caller "RE1" "CA1"
              Mock.recording_url (Some "12") empty_world w3 _ {| from := None |}
              E eq_refl eq_refl) as (H1 & H2 & H3 & _).
  repeat split; assumption.
Defined.

(** ** The artifact store *)

(** C7, as the code has it.  A call of [storeTranscriptionAndSummary]
    succeeds exactly when the provider accepts the upload of the
    transcript and the table accepts the update.  After a first call
    that succeeded the bucket holds the transcript object, and the code
    uploads the second transcript under the same name with no upsert
    option: the second call succeeds exactly when the provider accepts
    that second upload and the second update.  When it does, every
    record of the recording carries the summary of the second call and
    the transcript URL, the same for both calls; the records are the
    same in number and in identity (rows are updated, none is inserted)
    and the records of other recordings are untouched.  When the
    provider refuses the second upload, the second call throws and the
    bucket and the table stay as the first call left them. *)
Theorem second_store_overwrites_first
    (env : Env) (sid t1 s1 t2 s2 : string) (w : World) :
  let url := Pipeline.transcript_public_url env sid in
  let c1 := StorageService.storeTranscriptionAndSummary env sid t1 s1 w in
  let c2 := StorageService.storeTranscriptionAndSummary env sid t2 s2 (snd c1) in
  let second_upload :=
    storage_upload env (objects w ++ [Pipeline.transcript_object sid t1])
      (Pipeline.transcript_object sid t2) in
  let second_update :=
    table_update env (map (StorageService.update_row sid url s1) (recordings w)) sid in
  (fst c1 = Resolve (url, s1) <->
   storage_upload env (objects w) (Pipeline.transcript_object sid t1) = None
   /\ table_update env (recordings w) sid = None)
  /\ (fst c1 = Resolve (url, s1) ->
      objects (snd c1) = (objects w ++ [Pipeline.transcript_object sid t1])%list
      /\ recordings (snd c1) = map (StorageService.update_row sid url s1) (recordings w)
      /\ (fst c2 = Resolve (url, s2) <-> second_upload = None /\ second_update = None)
      /\ (fst c2 = Resolve (url, s2) ->
          recordings (snd c2) = map (StorageService.update_row sid url s2) (recordings w)
          /\ map recording_sid (recordings (snd c2)) = map recording_sid (recordings w)
          /\ (forall r, In r (recordings (snd c2)) -> recording_sid r = sid ->
                        transcript_url r = Some url /\ audio_summary r = Some s2)
          /\ (forall r, In r (recordings w) -> recording_sid r <> sid ->
                        In r (recordings (snd c2))))
      /\ (forall m, second_upload = Some m ->
          fst c2 = Reject (Error ("Failed to upload transcript: " ++ m))
          /\ snd c2 = snd c1)
      /\ (forall m, second_upload = None -> second_update = Some m ->
          fst c2 = Reject (Error ("Failed to update recording with transcript: " ++ m))
          /\ recordings (snd c2) = recordings (snd c1))).
Proof.
  cbv zeta.
  rewrite (storeTranscriptionAndSummary_eq env sid t1 s1 w). cbv zeta.
  destruct (storage_upload env (objects w) (Pipeline.transcript_object sid t1))
    as [m1|] eqn:Hu1.
  { cbn [fst]. split; [split; [discriminate | intros (H & _); discriminate]|].
    discriminate. }
  destruct (table_update env (recordings w) sid) as [m1|] eqn:Hd1.
  { cbn [fst]. split; [split; [discriminate | intros (_ & H); discriminate]|].
    discriminate. }
  cbn [fst snd]. split; [split; auto|]. intros _.
  rewrite storeTranscriptionAndSummary_eq. cbv zeta.
  cbn [objects recordings set_objects set_recordings].
  split; [reflexivity|]. split; [reflexivity|].
  destruct (storage_upload env (objects w ++ [Pipeline.transcript_object sid t1])
              (Pipeline.transcript_object sid t2)) as [m2|] eqn:Hu2.
  { cbn [fst snd].
    refine (conj _ (conj _ (conj _ _))).
    - split; [discriminate | intros (H & _); discriminate].
    - discriminate.
    - intros m [= <-]. split; reflexivity.
    - discriminate. }
  destruct (table_update env
              (map (StorageService.update_row sid (Pipeline.transcript_public_url env sid)
                      s1) (recordings w)) sid) as [m2|] eqn:Hd2.
  { cbn [fst snd].
    refine (conj _ (conj _ (conj _ _))).
    - split; [discriminate | intros (_ & H); discriminate].
    - discriminate.
    - discriminate.
    - intros m _ [= <-]. split; reflexivity. }
  cbn [fst snd recordings set_recordings set_objects].
  rewrite map_map.
  assert (Hmap : map (fun x => StorageService.update_row sid
                                 (Pipeline.transcript_public_url env sid) s2
                                 (StorageService.update_row sid
                                    (Pipeline.transcript_public_url env sid) s1 x))
                     (recordings w)
                 = map (StorageService.update_row sid
                          (Pipeline.transcript_public_url env sid) s2) (recordings w)).
  { apply map_ext. intros r. apply update_row_twice. }
  rewrite Hmap.
  refine (conj _ (conj _ (conj _ _))); try discriminate; [split; auto|].
  intros _. refine (conj eq_refl (conj _ (conj _ _))).
  - rewrite map_map. apply map_ext. intros r. apply update_row_recording_sid.
  - intros r Hin Hsid. apply in_map_iff in Hin. destruct Hin as (r0 & <- & _).
    apply update_row_matching. now rewrite update_row_recording_sid in Hsid.
  - intros r Hin Hsid. apply in_map_iff. exists r.
    split; [now apply update_row_other | exact Hin].
Qed.

Lemma second_store_overwrites_first_witness :
  fst (StorageService.storeTranscriptionAndSummary Mock.env "RE1"
         "hello world, again" "Second summary."
         (snd (StorageService.storeTranscriptionAndSummary Mock.env "RE1"
                 "hello world" "First summary." world_with_record)))
  = Resolve ("https://storage.test/object/public/recordings/RE1_transcript.txt",
             "Second summary.")
  /\ map audio_summary
       (recordings
          (snd (StorageService.storeTranscriptionAndSummary Mock.env "RE1"
                  "hello world, again" "Second summary."
                  (snd (StorageService.storeTranscriptionAndSummary Mock.env "RE1"
                          "hello world" "First summary." world_with_record)))))
     = [Some "Second summary."].
Proof.
  destruct (second_store_overwrites_first Mock.env "RE1" "hello world" "First summary."
              "hello world, again" "Second summary." world_with_record)
    as (_ & H).
  destruct (H eq_refl) as (_ & _ & (_ & Hiff) & Hrec & _).
  assert (H2 : fst (StorageService.storeTranscriptionAndSummary Mock.env "RE1"
                      "hello world, again" "Second summary."
                      (snd (StorageService.storeTranscriptionAndSummary Mock.env "RE1"
                              "hello world" "First summary." world_with_record)))
               = Resolve (Pipeline.transcript_public_url Mock.env "RE1", "Second summary."))
    by (apply Hiff; split; reflexivity).
  split; [exact H2|].
  destruct (Hrec H2) as (H3 & _). rewrite H3. reflexivity.
Defined.

(** C7, as the specification has it, fails with a bucket that does not
    overwrite: the first call succeeds, the second one throws on its
    upload, and the record keeps the summary of the first call. *)
Lemma second_store_is_refused_counterexample :
  fst (StorageService.storeTranscriptionAndSummary Mock.no_overwrite "RE1"
         "hello world" "First summary." world_with_record)
  = Resolve ("https://storage.test/object/public/recordings/RE1_transcript.txt",
             "First summary.")
  /\ fst (StorageService.storeTranscriptionAndSummary Mock.no_overwrite "RE1"
            "hello world, again" "Second summary."
            (snd (StorageService.storeTranscriptionAndSummary Mock.no_overwrite "RE1"
                    "hello world" "First summary." world_with_record)))
     = Reject (Error "Failed to upload transcript: The resource already exists")
  /\ map audio_summary
       (recordings
          (snd (StorageService.storeTranscriptionAndSummary Mock.no_overwrite "RE1"
                  "hello world, again" "Second summary."
                  (snd (StorageService.storeTranscriptionAndSummary Mock.no_overwrite
                          "RE1" "hello world" "First summary." world_with_record)))))
     = [Some "First summary."].
Proof. repeat split; reflexivity. Qed.

(** ** Strings read as numbers *)

Section Parsing.

Lemma is_white_space_In (s : string) :
  Js.is_white_space s = true -> In s Js.white_space.
Proof.
  unfold Js.is_white_space. intros H. apply existsb_exists in H.
  destruct H as (u & Hu & He). apply String.eqb_eq in He. now subst.
Qed.

Lemma trimStart_white (u s : string) :
  In u Js.white_space -> Js.trimStart (u ++ s) = Js.trimStart s.
Proof.
  intros H. cbv [Js.white_space map string_of_list_byte] in H.
  repeat (destruct H as [<- | H]; [reflexivity|]). destruct H.
Qed.

Lemma append_assoc (a b c : string) : (a ++ b) ++ c = a ++ (b ++ c).
Proof. induction a as [|x a IH]; cbn; [reflexivity | now rewrite IH]. Qed.

Lemma trimStart_blank (ws s : string) :
  blank ws -> Js.trimStart (ws ++ s) = Js.trimStart s.
Proof.
  induction 1 as [|u ws Hu Hb IH]; [reflexivity|].
  rewrite append_assoc, trimStart_white by exact Hu. exact IH.
Qed.

Lemma trimStart_id (t : string) : ~ starts_blank t -> Js.trimStart t = t.
Proof.
  intros H.
  assert (Hw : forall u r, t = u ++ r -> Js.is_white_space u = false).
  { intros u r Ht. destruct (Js.is_white_space u) eqn:E; [|reflexivity].
    exfalso. apply H. exists u, r. split; [now apply is_white_space_In | exact Ht]. }
  destruct t as [|c1 [|c2 [|c3 r3]]]; cbn [Js.trimStart]; [reflexivity|..].
  - now rewrite (Hw (String c1 "") "" eq_refl).
  - rewrite (Hw (String c1 "") (String c2 "") eq_refl).
    now rewrite (Hw (String c1 (String c2 "")) "" eq_refl).
  - rewrite (Hw (String c1 "") (String c2 (String c3 r3)) eq_refl).
    rewrite (Hw (String c1 (String c2 "")) (String c3 r3) eq_refl).
    now rewrite (Hw (String c1 (String c2 (String c3 ""))) r3 eq_refl).
Qed.

Lemma sign_not_blank (c : ascii) (r : string) :
  is_sign c = true -> ~ starts_blank (String c r).
Proof.
  intros Hs (u & r' & Hu & He).
  cbv [Js.white_space map string_of_list_byte] in Hu.
  repeat (destruct Hu as [<- | Hu];
          [cbn in He; injection He as -> _; vm_compute in Hs; discriminate|]).
  destruct Hu.
Qed.


(** Digits of a radix, as the reader and as the specification see them. *)
Lemma decimal_digit_read (c : ascii) :
  Js.radix_digit 10 c = if is_decimal_digit c then Some (digit c) else None.
Proof. destruct c as [[] [] [] [] [] [] [] []]; reflexivity. Qed.

Lemma hex_digit_read (c : ascii) :
  Js.radix_digit 16 c = if is_hex_digit c then Some (digit c) else None.
Proof. destruct c as [[] [] [] [] [] [] [] []]; reflexivity. Qed.

Lemma read_digits_stop (radix : Z) (p : ascii -> bool) (tail : string) (seen : bool) (acc : Z) :
  (forall c, Js.radix_digit radix c = if p c then Some (digit c) else None) ->
  first_is p tail = false ->
  Js.read_digits radix tail seen acc = if seen then Some acc else None.
Proof.
  intros Hp Ht. destruct tail as [|c r]; [reflexivity|].
  cbn [Js.read_digits first_is] in *. now rewrite Hp, Ht.
Qed.

Lemma read_digits_numeral (radix : Z) (p : ascii -> bool) (tail : string) :
  (forall c, Js.radix_digit radix c = if p c then Some (digit c) else None) ->
  first_is p tail = false ->
  forall ds seen acc,
    forallb p (list_ascii_of_string ds) = true ->
    Js.read_digits radix (ds ++ tail) seen acc
    = if (seen || negb (String.eqb ds ""))%bool
      then Some (acc * radix ^ Z.of_nat (String.length ds) + numeral radix ds)
      else None.
Proof.
  intros Hp Ht. induction ds as [|c r IH]; intros seen acc Hall.
  - cbn [append]. rewrite (read_digits_stop radix p tail seen acc Hp Ht).
    cbn. rewrite orb_false_r. destruct seen; [f_equal; lia | reflexivity].
  - cbn [list_ascii_of_string forallb] in Hall. apply andb_true_iff in Hall.
    destruct Hall as (Hc & Hr).
    cbn [append Js.read_digits]. rewrite Hp, Hc, (IH true _ Hr).
    cbn [orb String.eqb negb numeral String.length]. rewrite orb_true_r. f_equal.
    rewrite Nat2Z.inj_succ, Z.pow_succ_r by lia. ring.
Qed.

Lemma sign_branch_none (t : string) :
  first_is is_sign t = false ->
  match t with
  | String "-" r => (-1, r)
  | String "+" r => (1, r)
  | _ => (1, t)
  end = (1, t).
Proof.
  destruct t as [|c r]; [reflexivity|]. cbn [first_is].
  destruct c as [[] [] [] [] [] [] [] []]; intros H; try reflexivity;
    vm_compute in H; discriminate.
Qed.

Lemma radix_branch_decimal (t : string) :
  hex_prefix t = false ->
  match t with
  | String "0" (String "x" r) => (16, r)
  | String "0" (String "X" r) => (16, r)
  | _ => (10, t)
  end = (10, t).
Proof.
  intros H. destruct t as [|c r]; [reflexivity|].
  destruct c as [[] [] [] [] [] [] [] []]; try reflexivity.
  destruct r as [|c2 r2]; [reflexivity|].
  destruct c2 as [[] [] [] [] [] [] [] []]; try reflexivity;
    destruct r2; vm_compute in H; discriminate H.
Qed.

Lemma no_digit_no_hex_prefix (t : string) :
  first_is is_decimal_digit t = false -> hex_prefix t = false.
Proof.
  destruct t as [|c r]; [reflexivity|]. cbn [first_is].
  destruct c as [[] [] [] [] [] [] [] []]; intros H; try reflexivity;
    vm_compute in H; discriminate.
Qed.

(** [parseInt] after the white space and the sign. *)
Lemma parseInt_string_signed (ws sg rest : string) :
  blank ws -> In sg [""; "+"; "-"] ->
  (sg = "" -> ~ starts_blank rest /\ first_is is_sign rest = false) ->
  Js.parseInt_string (ws ++ sg ++ rest)
  = let '(radix, s3) :=
      match rest with
      | String "0" (String "x" r) => (16, r)
      | String "0" (String "X" r) => (16, r)
      | _ => (10, rest)
      end in
    Js.of_digits (sign_of sg) (Js.read_digits radix s3 false 0).
Proof.
  intros Hws Hsg Hrest. unfold Js.parseInt_string.
  rewrite (trimStart_blank ws (sg ++ rest) Hws).
  destruct Hsg as [<- | [<- | [<- | []]]].
  - destruct (Hrest eq_refl) as (Hb & Hs). cbn [append].
    rewrite (trimStart_id rest Hb), (sign_branch_none rest Hs). reflexivity.
  - rewrite trimStart_id by (now apply sign_not_blank). reflexivity.
  - rewrite trimStart_id by (now apply sign_not_blank). reflexivity.
Qed.

Lemma all_decimal_digits_forallb (ds : string) :
  all_decimal_digits ds = forallb is_decimal_digit (list_ascii_of_string ds).
Proof. induction ds as [|c r IH]; cbn; [reflexivity | now rewrite IH]. Qed.

Lemma all_hex_digits_forallb (ds : string) :
  all_hex_digits ds = forallb is_hex_digit (list_ascii_of_string ds).
Proof. induction ds as [|c r IH]; cbn; [reflexivity | now rewrite IH]. Qed.

(** No digit after the white space and the sign: [NaN]. *)
Lemma parseInt_string_no_digit (ws sg rest : string) :
  blank ws -> In sg [""; "+"; "-"] ->
  (sg = "" -> ~ starts_blank rest /\ first_is is_sign rest = false) ->
  first_is is_decimal_digit rest = false ->
  Js.parseInt_string (ws ++ sg ++ rest) = Js.NaN.
Proof.
  intros Hws Hsg Hrest Hd. rewrite parseInt_string_signed by assumption.
  rewrite (radix_branch_decimal rest (no_digit_no_hex_prefix rest Hd)).
  now rewrite (read_digits_stop 10 is_decimal_digit rest false 0 decimal_digit_read Hd).
Qed.

(** A decimal numeral after the white space and the sign. *)
Lemma parseInt_string_decimal (ws sg ds tail : string) :
  blank ws -> In sg [""; "+"; "-"] ->
  (sg = "" -> ~ starts_blank (ds ++ tail) /\ first_is is_sign (ds ++ tail) = false) ->
  ds <> "" -> all_decimal_digits ds = true ->
  first_is is_decimal_digit tail = false -> hex_prefix (ds ++ tail) = false ->
  Js.parseInt_string (ws ++ sg ++ ds ++ tail)
  = Js.of_digits (sign_of sg) (Some (numeral 10 ds)).
Proof.
  intros Hws Hsg Hrest Hne Hall Ht Hx. rewrite parseInt_string_signed by assumption.
  rewrite (radix_branch_decimal _ Hx).
  rewrite (read_digits_numeral 10 is_decimal_digit tail decimal_digit_read Ht)
    by (now rewrite <- all_decimal_digits_forallb).
  destruct ds; [congruence|]. cbn [orb String.eqb negb]. reflexivity.
Qed.

(** A hexadecimal numeral after the white space, the sign and [0x]. *)
Lemma parseInt_string_hex (ws sg x hs tail : string) :
  blank ws -> In sg [""; "+"; "-"] -> x = "x" \/ x = "X" ->
  all_hex_digits hs = true -> first_is is_hex_digit tail = false ->
  Js.parseInt_string (ws ++ sg ++ "0" ++ x ++ hs ++ tail)
  = Js.of_digits (sign_of sg)
      (if String.eqb hs "" then None else Some (numeral 16 hs)).
Proof.
  intros Hws Hsg Hx Hall Ht.
  rewrite parseInt_string_signed; [|assumption..|].
  - assert (E : forall r, match "0" ++ x ++ r with
                          | String "0" (String "x" r') => (16, r')
                          | String "0" (String "X" r') => (16, r')
                          | _ => (10, "0" ++ x ++ r)
                          end = (16, r))
      by (intros r; destruct Hx as [-> | ->]; reflexivity).
    rewrite E.
    rewrite (read_digits_numeral 16 is_hex_digit tail hex_digit_read Ht)
      by (now rewrite <- all_hex_digits_forallb).
    destruct hs; cbn [orb String.eqb negb]; reflexivity.
  - intros _. split; [|reflexivity].
    intros (u & r' & Hu & He).
    cbv [Js.white_space map string_of_list_byte] in Hu.
    repeat (destruct Hu as [<- | Hu]; [cbn in He; discriminate He|]). destruct Hu.
Qed.

(** Integers up to 2^53 in absolute value are doubles. *)
Lemma to_double_exact (z : Z) : Z.abs z <= 2 ^ 53 -> Js.to_double z = Js.Int z.
Proof.
  intros H. unfold Js.to_double. cbv zeta.
  destruct (Z.leb_spec (Z.abs z) (2 ^ 53)); [reflexivity | lia].
Qed.

Lemma of_digits_exact (sign n : Z) :
  sign = 1 \/ sign = -1 -> 0 < n <= 2 ^ 53 ->
  Js.of_digits sign (Some n) = Js.Int (sign * n).
Proof.
  intros Hs Hn. unfold Js.of_digits.
  destruct (Z.eqb_spec n 0); [lia|]. apply to_double_exact.
  destruct Hs as [-> | ->]; lia.
Qed.


Lemma product_maximal (A B q P : Z) :
  0 < q <= A -> 0 < P <= B -> A * B <= q * P -> q = A /\ P = B.
Proof. intros Hq HP H. split; nia. Qed.

(** No double lies strictly between two neighbours of 53 bits. *)
Lemma double_gap (q e b : Z) :
  0 <= e -> 2 ^ 52 <= q -> double_integer b ->
  b <= q * 2 ^ e \/ (q + 1) * 2 ^ e <= b.
Proof.
  intros He Hq (m & e' & He' & Hm & -> & _).
  destruct (Z_lt_le_dec (q * 2 ^ e) (m * 2 ^ e')) as [Hlo|]; [|now left].
  destruct (Z_lt_le_dec (m * 2 ^ e') ((q + 1) * 2 ^ e)) as [Hhi|]; [|now right].
  exfalso.
  assert (Hpe : 0 < 2 ^ e) by (apply Z.pow_pos_nonneg; lia).
  assert (Hpe' : 0 < 2 ^ e') by (apply Z.pow_pos_nonneg; lia).
  destruct (Z_lt_le_dec e' e) as [Hlt|Hge].
  - replace e with (e' + (e - e')) in Hlo by lia.
    rewrite Z.pow_add_r in Hlo by lia.
    assert (H2 : 2 <= 2 ^ (e - e')).
    { change 2 with (2 ^ 1) at 1. apply Z.pow_le_mono_r; lia. }
    assert (Hm' : q * 2 ^ (e - e') < m) by nia.
    assert (2 ^ 53 <= q * 2 ^ (e - e')) by (change (2 ^ 53) with (2 ^ 52 * 2); nia).
    lia.
  - replace e' with (e + (e' - e)) in Hlo, Hhi by lia.
    rewrite Z.pow_add_r in Hlo, Hhi by lia.
    assert (0 < 2 ^ (e' - e)) by (apply Z.pow_pos_nonneg; lia).
    assert (q < m * 2 ^ (e' - e)) by nia.
    assert (m * 2 ^ (e' - e) < q + 1) by nia.
    lia.
Qed.

Lemma double_integer_opp (y : Z) : double_integer y -> double_integer (- y).
Proof.
  intros (m & e & He & Hm & -> & Hy). exists (- m), e.
  rewrite Z.abs_opp, Z.mul_opp_l, Z.abs_opp. auto.
Qed.

(** Rounding a magnitude above 2^53 to 53 bits. *)
Lemma round_nearest (a : Z) :
  2 ^ 53 < a ->
  let e := Z.log2 a - 52 in
  let q := a / 2 ^ e in
  let rest := a mod 2 ^ e in
  let half := 2 ^ (e - 1) in
  let q' := if (half <? rest) || ((rest =? half) && Z.odd q) then q + 1 else q in
  let m := q' * 2 ^ e in
  0 < m
  /\ (m < 2 ^ 1024 -> rounds_to a m)
  /\ (2 ^ 1024 <= m <-> 2 ^ 1024 - 2 ^ 970 <= a).
Proof.
  intros Hbig. cbv zeta.
  set (e := Z.log2 a - 52).
  assert (Ha : 0 < a) by lia.
  destruct (Z.log2_spec a Ha) as (Hlo & Hhi).
  assert (He : 1 <= e).
  { unfold e. assert (53 <= Z.log2 a); [|lia].
    apply Z.log2_le_pow2; lia. }
  set (P := 2 ^ e).
  assert (HP : 0 < P) by (apply Z.pow_pos_nonneg; lia).
  assert (Hhalf : P = 2 * 2 ^ (e - 1)).
  { unfold P. replace e with (Z.succ (e - 1)) at 1 by lia.
    rewrite Z.pow_succ_r by lia. reflexivity. }
  assert (HL : 2 ^ Z.log2 a = 2 ^ 52 * P).
  { unfold P, e. rewrite <- Z.pow_add_r by lia. f_equal. lia. }
  assert (HL1 : 2 ^ Z.succ (Z.log2 a) = 2 ^ 53 * P).
  { rewrite Z.pow_succ_r by (apply Z.log2_nonneg). rewrite HL.
    change (2 ^ 53) with (2 * 2 ^ 52). ring. }
  pose proof (Z.div_mod a P ltac:(lia)) as Hdm.
  pose proof (Z.mod_pos_bound a P HP) as Hmod.
  set (q := a / P) in *. set (rest := a mod P) in *.
  assert (Hq : 2 ^ 52 <= q < 2 ^ 53).
  { rewrite HL in Hlo. rewrite HL1 in Hhi. clear - Hlo Hhi Hdm Hmod HP.
    split; nia. }
  set (half := 2 ^ (e - 1)) in *.
  assert (Hh : 0 < half) by (apply Z.pow_pos_nonneg; lia).
  set (up := ((half <? rest) || ((rest =? half) && Z.odd q))%bool).
  assert (Hup : if up then half < rest \/ (rest = half /\ Z.odd q = true)
                else rest < half \/ (rest = half /\ Z.odd q = false)).
  { unfold up. destruct (Z.ltb_spec half rest); cbn [orb]; [auto|].
    destruct (Z.eqb_spec rest half); cbn [andb]; [|left; lia].
    destruct (Z.odd q); auto. }
  set (q' := if up then q + 1 else q).
  assert (Hq' : q' = q \/ q' = q + 1) by (unfold q'; destruct up; auto).
  assert (Elo : a - q * P = rest) by lia.
  assert (Ehi : (q + 1) * P - a = P - rest) by lia.
  assert (Hm : 0 < q' * P) by (apply Z.mul_pos_pos; lia).
  assert (Heven : forall k, Z.odd k = false -> (2 * P | k * P)).
  { intros k Hk. rewrite <- Z.negb_even in Hk. apply negb_false_iff in Hk.
    apply Z.even_spec in Hk. destruct Hk as (k' & ->). exists k'. ring. }
  assert (Hodd : forall k, Z.odd k = true -> (2 * P | (k + 1) * P)).
  { intros k Hk. apply Z.odd_spec in Hk. destruct Hk as (k' & ->).
    exists (k' + 1). ring. }
  split; [exact Hm|]. split.
  - intros Hfin. refine (conj _ (conj _ _)).
    + destruct (Z.eq_dec q' (2 ^ 53)) as [E|E].
      * exists (2 ^ 52), (e + 1). split; [lia|]. split; [lia|]. split; [|lia].
        rewrite E, Z.pow_add_r by lia. fold P.
        change (2 ^ 53) with (2 ^ 52 * 2 ^ 1). ring.
      * exists q', e. split; [lia|]. split; [lia|]. split; [reflexivity | lia].
    + intros b Hb.
      destruct (double_gap q e b ltac:(lia) ltac:(lia) Hb) as [Hg|Hg]; fold P in Hg.
      * assert (D : rest <= Z.abs (a - b)) by lia.
        eapply Z.le_trans; [|exact D].
        unfold q'. destruct up; [|lia].
        replace (a - (q + 1) * P) with (- (P - rest)) by lia. lia.
      * assert (D : P - rest <= Z.abs (a - b)) by lia.
        eapply Z.le_trans; [|exact D].
        unfold q'. destruct up; [|lia].
        replace (a - (q + 1) * P) with (- (P - rest)) by lia. lia.
    + intros b Hb Heq.
      destruct (double_gap q e b ltac:(lia) ltac:(lia) Hb) as [Hg|Hg]; fold P in Hg;
        unfold q' in *; destruct up.
      * (* b below, rounded up: a tie *)
        right.
        assert (Ea : Z.abs (a - (q + 1) * P) = P - rest) by lia.
        assert (Eb : Z.abs (a - b) = a - b) by lia.
        destruct Hup as [Hup | (Hr & Ho)]; [lia|].
        assert (b = q * P) by lia. subst b.
        replace (Z.abs ((q + 1) * P - q * P)) with P by lia. now apply Hodd.
      * left. lia.
      * left. lia.
      * (* b above, rounded down: a tie *)
        right.
        assert (Ea : Z.abs (a - q * P) = rest) by lia.
        assert (Eb : Z.abs (a - b) = b - a) by lia.
        destruct Hup as [Hup | (Hr & Ho)]; [lia|].
        assert (b = (q + 1) * P) by lia. subst b.
        replace (Z.abs (q * P - (q + 1) * P)) with P by lia. now apply Heven.
  - split.
    + intros Hover.
      assert (Hcases : 1024 <= Z.log2 a \/ Z.log2 a <= 1023) by lia.
      destruct Hcases as [Hc|Hc].
      * assert (2 ^ 1024 <= 2 ^ Z.log2 a) by (apply Z.pow_le_mono_r; lia).
        lia.
      * assert (He971 : e <= 971) by (unfold e; lia).
        assert (HP971 : P <= 2 ^ 971) by (apply Z.pow_le_mono_r; lia).
        assert (Hq'53 : 0 < q' <= 2 ^ 53) by lia.
        change (2 ^ 1024) with (2 ^ 53 * 2 ^ 971) in Hover.
        destruct (product_maximal (2 ^ 53) (2 ^ 971) q' P Hq'53 (conj HP HP971) Hover)
          as (Hqq & HP').
        assert (Hup' : up = true).
        { unfold q' in Hqq. destruct up; [reflexivity | lia]. }
        rewrite Hup' in Hup. unfold q' in Hqq. rewrite Hup' in Hqq.
        rewrite HP' in Hhalf, Hdm.
        replace q with (2 ^ 53 - 1) in Hdm by lia. lia.
    + intros Hbound.
      assert (H1023 : 2 ^ 1023 <= a) by lia.
      assert (HL1023 : 1023 <= Z.log2 a) by (apply Z.log2_le_pow2; lia).
      assert (Hcases : 1024 <= Z.log2 a \/ Z.log2 a = 1023) by lia.
      destruct Hcases as [Hc|Hc].
      * assert (2 ^ 1024 <= 2 ^ Z.log2 a) by (apply Z.pow_le_mono_r; lia).
        assert (2 ^ 52 * P <= q' * P) by (apply Z.mul_le_mono_nonneg_r; lia).
        lia.
      * assert (He971 : e = 971) by (unfold e; lia).
        assert (HP' : P = 2 ^ 971) by (unfold P; now rewrite He971).
        assert (Hh' : half = 2 ^ 970) by (unfold half; now rewrite He971).
        assert (Hq53 : q = 2 ^ 53 - 1).
        { rewrite HP' in Hdm, Hmod. clear - Hdm Hmod Hbound Hq. lia. }
        assert (Hrest : half <= rest).
        { rewrite HP', Hq53 in Hdm. rewrite Hh'. clear - Hdm Hbound. lia. }
        assert (Hup' : up = true).
        { unfold up. destruct (Z.ltb_spec half rest); [reflexivity|].
          replace rest with half by lia. rewrite Z.eqb_refl, Hq53. reflexivity. }
        unfold q'. rewrite Hup', Hq53, HP'. reflexivity.
Qed.

Lemma rounds_to_opp (z y : Z) : rounds_to z y -> rounds_to (- z) (- y).
Proof.
  intros (Hd & Hn & Ht). refine (conj _ (conj _ _)).
  - now apply double_integer_opp.
  - intros y' Hy'. specialize (Hn (- y') (double_integer_opp y' Hy')). lia.
  - intros y' Hy' He.
    destruct (Ht (- y') (double_integer_opp y' Hy') ltac:(lia)) as [E | D].
    + left. lia.
    + right. replace (- y - y') with (- (y - - y')) by lia.
      rewrite Z.abs_opp. now apply Z.divide_opp_r.
Qed.

(** [to_double] rounds to the nearest double, a tie to the even one, and
    is infinite exactly from 2^1024 - 2^970 on. *)
Lemma to_double_nearest (z : Z) :
  match Js.to_double z with
  | Js.Int y => rounds_to z y /\ Z.abs z < 2 ^ 1024 - 2 ^ 970
  | Js.Infinity => 2 ^ 1024 - 2 ^ 970 <= z
  | Js.NegInfinity => z <= - (2 ^ 1024 - 2 ^ 970)
  | _ => False
  end.
Proof.
  unfold Js.to_double. cbv zeta.
  destruct (Z.leb_spec (Z.abs z) (2 ^ 53)) as [Hsmall|Hbig].
  { split; [|lia]. refine (conj _ (conj _ _)).
    - destruct (Z.eq_dec (Z.abs z) (2 ^ 53)) as [E|E].
      + exists (Z.sgn z * 2 ^ 52), 1. repeat split; lia.
      + exists z, 0. repeat split; lia.
    - intros y' _. lia.
    - intros y' _ He. left. lia. }
  destruct (round_nearest (Z.abs z) Hbig) as (Hm & Hfin & Hover).
  cbv zeta in Hm, Hfin, Hover.
  match type of Hm with 0 < ?x => set (m := x) in * end.
  destruct (Z.leb_spec (2 ^ 1024) m) as [Ho|Hf].
  - apply Hover in Ho. destruct (Z.ltb_spec z 0); lia.
  - specialize (Hfin Hf).
    assert (Hlt : Z.abs z < 2 ^ 1024 - 2 ^ 970).
    { destruct (Z_lt_le_dec (Z.abs z) (2 ^ 1024 - 2 ^ 970)) as [H|H]; [exact H|].
      apply Hover in H. lia. }
    split; [|exact Hlt]. clear Hover.
    destruct (Z_lt_le_dec z 0) as [Hneg|Hpos].
    + replace (Z.sgn z) with (-1) by lia. replace (-1 * m) with (- m) by lia.
      replace (Z.abs z) with (- z) in Hfin by lia.
      apply rounds_to_opp in Hfin. now rewrite Z.opp_involutive in Hfin.
    + replace (Z.sgn z) with 1 by lia. rewrite Z.mul_1_l.
      now replace (Z.abs z) with z in Hfin by lia.
Qed.

(** What [parseInt] makes of the digits read. *)
Lemma signed_integer_cases (sign n : Z) :
  sign = 1 \/ sign = -1 -> 0 <= n ->
  match signed_integer sign n with
  | Js.Int y =>
      rounds_to (sign * n) y
      /\ n < 2 ^ 1024 - 2 ^ 970
      /\ (n <= 2 ^ 53 -> y = sign * n)
      /\ (n = 0 -> sign = 1)
  | Js.NegZero => n = 0 /\ sign = -1
  | Js.Infinity => sign = 1 /\ 2 ^ 1024 - 2 ^ 970 <= n
  | Js.NegInfinity => sign = -1 /\ 2 ^ 1024 - 2 ^ 970 <= n
  | Js.NaN => False
  end.
Proof.
  intros Hs Hn. unfold signed_integer, Js.of_digits.
  destruct (Z.eqb_spec n 0) as [-> | Hn0].
  - destruct (Z.ltb_spec sign 0); [split; lia|].
    replace sign with 1 by lia.
    pose proof (to_double_nearest 0) as H0. cbn in H0.
    destruct H0 as (H0 & _). repeat split; try lia; apply H0.
  - pose proof (to_double_nearest (sign * n)) as Hnear.
    pose proof (to_double_exact (sign * n)) as Hexact.
    destruct (Js.to_double (sign * n)) as [|y| | |]; try contradiction.
    + destruct Hnear as (Hd & Hlt). split; [exact Hd|]. split; [lia|].
      split; [|lia].
      intros Hle. assert (E : Js.Int y = Js.Int (sign * n)) by (apply Hexact; lia).
      congruence.
    + lia.
    + lia.
Qed.

End Parsing.

(** ** The webhook *)

Section Webhook.
Variable env : Env.

Lemma truthy_nonempty (s : string) : s <> "" -> Js.truthy (Some s) = true.
Proof. destruct s; [congruence | reflexivity]. Qed.

Lemma or_else_nonempty_id (s d : string) : s <> "" -> Js.or_else (Some s) d = s.
Proof. destruct s; [congruence | reflexivity]. Qed.

(** The handler hands a request with its three required fields to the
    pipeline and replies by its outcome. *)
Lemma handleRecordingStatus_eq (body : RecordingController.RecordingStatusRequest)
    (url sid callSid : string) (w : World) :
  RecordingController.RecordingUrl body = Some url -> url <> "" ->
  RecordingController.RecordingSid body = Some sid -> sid <> "" ->
  RecordingController.CallSid body = Some callSid -> callSid <> "" ->
  RecordingController.handleRecordingStatus env body w
  = match RecordingService.processRecording env sid callSid url
            (RecordingController.RecordingDuration body) w with
    | (Resolve _, w') =>
        (Resolve {| RecordingController.reply_status := 200;
                    RecordingController.reply_text := "Recording status processed" |},
         w')
    | (Reject e, w') =>
        (Resolve {| RecordingController.reply_status := 500;
                    RecordingController.reply_text :=
                      "Error processing recording status" |},
         logged "Error handling recording status:" (message_or_unknown e) w')
    | (Diverge, w') => (Diverge, w')
    end.
Proof.
  intros Hu Hu' Hs Hs' Hc Hc'.
  unfold RecordingController.handleRecordingStatus, try_catch, bind.
  rewrite Hu, Hs, Hc, !truthy_nonempty, !or_else_nonempty_id by assumption.
  cbn [negb orb].
  destruct (RecordingService.processRecording env sid callSid url _ w)
    as [[[]|e|] w']; reflexivity.
Qed.

End Webhook.

(** [parseInt] on some values: a no-break space (U+00A0) is skipped,
    [0x] selects radix 16, white space or a sign alone is [NaN], minus
    zero keeps its sign, 2^53 + 1 is rounded, and a numeral of 400
    digits is infinite. *)
Example parseInt_examples :
  Js.parseInt (Some (string_of_list_byte [Byte.xc2; Byte.xa0] ++ "7")) = Js.Int 7
  /\ Js.parseInt (Some "0x1A") = Js.Int 26
  /\ Js.parseInt (Some "   ") = Js.NaN
  /\ Js.parseInt (Some "-") = Js.NaN
  /\ Js.parseInt (Some "-0") = Js.NegZero
  /\ Js.parseInt (Some " -42 seconds") = Js.Int (-42)
  /\ Js.parseInt (Some "9007199254740993") = Js.Int 9007199254740992
  /\ Js.parseInt (Some (Js.show_int (10 ^ 399))) = Js.Infinity.
Proof. repeat split; vm_compute; reflexivity. Qed.

(** C8, as the code has it.  A request with [RecordingUrl],
    [RecordingSid] and [CallSid] is never answered 400, whatever its
    [RecordingDuration]: the pipeline runs on it and the reply is 200 or
    500 by its outcome.  The Metadata Record that the storage task
    inserts carries [parseInt] of the value.  That is [NaN] when the
    value is missing, and when no decimal digit follows its leading
    white space and its optional sign, or none follows a [0x] there.
    Otherwise it is the number of the longest run of digits found
    there, decimal or else hexadecimal after [0x], with that sign,
    whatever comes after the digits: the integer itself up to 2^53, the
    nearest double beyond (the even one of two that are as near), an
    infinity from 2^1024 - 2^970 on, and zero with its sign. *)
Theorem duration_is_stored_as_parsed
    (env : Env) (body : RecordingController.RecordingStatusRequest)
    (url sid callSid : string) (w : World) :
  RecordingController.RecordingUrl body = Some url -> url <> "" ->
  RecordingController.RecordingSid body = Some sid -> sid <> "" ->
  RecordingController.CallSid body = Some callSid -> callSid <> "" ->
  let d := RecordingController.RecordingDuration body in
  let p := RecordingService.processRecording env sid callSid url d w in
  let r := RecordingController.handleRecordingStatus env body w in
  (exists reply,
      fst r = Resolve reply
      /\ RecordingController.reply_status reply
         = match fst p with Resolve _ => 200 | _ => 500 end)
  /\ recordings (snd r) = recordings (snd p)
  /\ (forall resp,
        fetch env (url ++ ".mp3") (Pipeline.authorization env) = Resolved resp ->
        http_ok resp = true ->
        storage_upload env (objects w)
          (Pipeline.audio_object sid (http_body resp)) = None ->
        table_insert env (recordings w) (Pipeline.inserted_row env sid callSid d) = None ->
        exists rows row,
          recordings (snd r) = (rows ++ [row])%list
          /\ length rows = length (recordings w)
          /\ recording_sid row = sid
          /\ duration row = Js.parseInt d)
  /\ (d = None -> Js.parseInt d = Js.NaN)
  /\ (forall ws sg rest,
        d = Some (ws ++ sg ++ rest) ->
        blank ws -> In sg [""; "+"; "-"] ->
        (sg = "" -> ~ starts_blank rest /\ first_is is_sign rest = false) ->
        (first_is is_decimal_digit rest = false -> Js.parseInt d = Js.NaN)
        /\ (forall ds tail,
              rest = ds ++ tail -> ds <> "" -> all_decimal_digits ds = true ->
              first_is is_decimal_digit tail = false -> hex_prefix rest = false ->
              Js.parseInt d = signed_integer (sign_of sg) (numeral 10 ds))
        /\ (forall x hs tail,
              rest = "0" ++ x ++ hs ++ tail -> x = "x" \/ x = "X" ->
              all_hex_digits hs = true -> first_is is_hex_digit tail = false ->
              Js.parseInt d = if String.eqb hs "" then Js.NaN
                              else signed_integer (sign_of sg) (numeral 16 hs)))
  /\ (forall sign n,
        sign = 1 \/ sign = -1 -> 0 <= n ->
        match signed_integer sign n with
        | Js.Int y =>
            rounds_to (sign * n) y
            /\ n < 2 ^ 1024 - 2 ^ 970
            /\ (n <= 2 ^ 53 -> y = sign * n)
            /\ (n = 0 -> sign = 1)
        | Js.NegZero => n = 0 /\ sign = -1
        | Js.Infinity => sign = 1 /\ 2 ^ 1024 - 2 ^ 970 <= n
        | Js.NegInfinity => sign = -1 /\ 2 ^ 1024 - 2 ^ 970 <= n
        | Js.NaN => False
        end).
Proof.
  intros Hu Hu' Hs Hs' Hc Hc'. cbv zeta.
  rewrite (handleRecordingStatus_eq env body url sid callSid w) by assumption.
  destruct (processRecording_cases env sid callSid url
              (RecordingController.RecordingDuration body) w) as (Hd & Hcases).
  cbv zeta in Hcases.
  set (d := RecordingController.RecordingDuration body) in *.
  assert (Hrec : recordings
                   (snd (match RecordingService.processRecording env sid callSid url d w with
                         | (Resolve _, w') =>
                             (Resolve {| RecordingController.reply_status := 200;
                                         RecordingController.reply_text :=
                                           "Recording status processed" |}, w')
                         | (Reject e, w') =>
                             (Resolve {| RecordingController.reply_status := 500;
                                         RecordingController.reply_text :=
                                           "Error processing recording status" |},
                              logged "Error handling recording status:"
                                (message_or_unknown e) w')
                         | (Diverge, w') => (@Diverge RecordingController.HttpReply, w')
                         end))
                 = recordings (snd (RecordingService.processRecording env sid callSid
                                      url d w))).
  { destruct (RecordingService.processRecording env sid callSid url d w)
      as [[[]|e|] w']; reflexivity. }
  refine (conj _ (conj Hrec (conj _ (conj _ (conj _ _))))).
  - destruct (RecordingService.processRecording env sid callSid url d w)
      as [[[]|e|] w']; cbn [fst snd] in *; [| |now elim Hd]; eexists; split; reflexivity.
  - intros resp Hfetch Hok Hup Hins. rewrite Hrec.
    rewrite Hfetch, Hok, Hup, Hins in Hcases.
    destruct Hcases as [(_ & ->) | (s & ->)].
    + exists (recordings w), (Pipeline.inserted_row env sid callSid d).
      repeat split; reflexivity.
    + rewrite map_app. cbn [map].
      eexists _, _. split; [reflexivity|].
      rewrite length_map, update_row_recording_sid, update_row_duration.
      repeat split; reflexivity.
  - intros ->. reflexivity.
  - intros ws sg rest -> Hws Hsg Hrest. unfold Js.parseInt, Js.show.
    refine (conj _ (conj _ _)).
    + intros Hnd. now apply parseInt_string_no_digit.
    + intros ds tail -> Hne Hall Ht Hx. now apply parseInt_string_decimal.
    + intros x hs tail -> Hx Hall Ht. unfold signed_integer.
      rewrite (parseInt_string_hex ws sg x hs tail) by assumption.
      destruct (String.eqb hs ""); reflexivity.
  - intros sign n Hsign Hn. apply signed_integer_cases; assumption.
Qed.

Lemma duration_is_stored_as_parsed_witness :
  (exists reply,
      fst (RecordingController.handleRecordingStatus Mock.env (status_request None)
             empty_world) = Resolve reply
      /\ RecordingController.reply_status reply = 200)
  /\ map duration
       (recordings (snd (RecordingController.handleRecordingStatus Mock.env
                           (status_request None) empty_world)))
     = [Js.NaN].
Proof.
  assert (Hne : forall c s, String c s <> "") by discriminate.
  destruct (duration_is_stored_as_parsed Mock.env (status_request None)
              Mock.recording_url "RE1" "CA1" empty_world
              eq_refl (Hne _ _) eq_refl (Hne _ _) eq_refl (Hne _ _))
    as (Hreply & Hrec & _).
  split.
  - exact Hreply.
  - rewrite Hrec. reflexivity.
Defined.

(** C8, as the specification has it, fails on a value that is not
    numeric but starts with digits: the request is accepted and the
    record is inserted with the number of those digits, not with [NaN]. *)
Lemma numeric_prefix_duration_counterexample :
  numeric_duration (Some "12abc") = false
  /\ fst (RecordingController.handleRecordingStatus Mock.env
            (status_request (Some "12abc")) empty_world)
     = Resolve {| RecordingController.reply_status := 200;
                  RecordingController.reply_text := "Recording status processed" |}
  /\ map duration
       (recordings (snd (RecordingController.handleRecordingStatus Mock.env
                           (status_request (Some "12abc")) empty_world)))
     = [Js.Int 12]
  /\ Js.parseInt (Some "12abc") <> Js.NaN.
Proof. repeat split; try reflexivity. discriminate. Qed.

(** * Further properties *)

(** ** The adapter, beyond the retry loops *)

Section AdapterMore.
Import RecordingProcessorService.
Variable env : Env.

(** How the transcription loop comes to throw. *)
Lemma transcribe_loop_rejects fuel : forall audio rc w err,
  (transcribe_maxRetries - rc <= fuel)%nat ->
  fst (transcribe_loop env fuel audio rc w) = Reject err ->
  (exists e, isQuotaError e = true
             /\ err = Error ("OpenAI API quota exceeded. Please check your billing details: "
                             ++ Js.show (message e)))
  \/ (exists e, isQuotaError e = false
                /\ err = Error ("Transcription failed after 5 attempts: "
                                ++ Js.show (message e)))
  \/ ((transcribe_maxRetries <= rc)%nat
      /\ err = Error "Failed to transcribe after maximum retries").
Proof.
  induction fuel as [|fuel IH]; intros audio rc w err Hfuel H.
  - rewrite transcribe_loop_exit in H by lia. injection H as <-.
    right; right. split; [lia | reflexivity].
  - destruct (Nat.le_gt_cases transcribe_maxRetries rc) as [Hge|Hlt].
    { rewrite transcribe_loop_exit in H by lia. injection H as <-.
      right; right. split; [lia | reflexivity]. }
    destruct (whisper env (transcription_requests w) audio) as [text|e] eqn:Hw.
    { rewrite (transcribe_step_resolved env _ _ _ _ _ Hlt Hw) in H. discriminate. }
    destruct (isQuotaError e) eqn:Hq.
    { rewrite (transcribe_step_quota env _ _ _ _ _ Hlt Hw Hq) in H. injection H as <-.
      left. exists e. auto. }
    destruct (Nat.le_gt_cases transcribe_maxRetries (S rc)) as [Hlast|Hmore].
    { rewrite (transcribe_step_last env _ _ _ _ _ Hlt Hlast Hw Hq) in H.
      injection H as <-. right; left. exists e. auto. }
    rewrite (transcribe_step_retry env _ _ _ _ _ Hmore Hw Hq) in H.
    apply IH in H; [|lia].
    destruct H as [H | [H | (Hrc & _)]]; [now left | now right; left | lia].
Qed.

(** The summary loop only throws its quota error. *)
Lemma summary_loop_rejects fuel : forall transcript rc w err,
  fst (summary_loop env fuel transcript rc w) = Reject err ->
  exists e, isQuotaError e = true
            /\ err = Error ("OpenAI API quota exceeded when generating summary. Please check your billing details: "
                            ++ Js.show (message e)).
Proof.
  induction fuel as [|fuel IH]; intros transcript rc w err H.
  - destruct (Nat.le_gt_cases summary_maxRetries rc) as [Hge|Hlt].
    + rewrite summary_loop_exit in H by lia. discriminate.
    + cbn [summary_loop] in H. apply Nat.ltb_lt in Hlt. rewrite Hlt in H. discriminate.
  - destruct (Nat.le_gt_cases summary_maxRetries rc) as [Hge|Hlt].
    { rewrite summary_loop_exit in H by lia. discriminate. }
    destruct (chat env (completion_requests w) (summary_request transcript))
      as [r|e] eqn:Hc.
    { rewrite (summary_step_resolved env _ _ _ _ _ Hlt Hc) in H. discriminate. }
    destruct (isQuotaError e) eqn:Hq.
    { rewrite (summary_step_quota env _ _ _ _ _ Hlt Hc Hq) in H. injection H as <-.
      exists e. auto. }
    destruct (Nat.le_gt_cases summary_maxRetries (S rc)) as [Hlast|Hmore].
    { rewrite (summary_step_last env _ _ _ _ _ Hlt Hlast Hc Hq) in H. discriminate. }
    rewrite (summary_step_retry env _ _ _ _ _ Hmore Hc Hq) in H.
    now apply IH in H.
Qed.

(** An error made of a message is classified by that message alone. *)
Lemma isQuotaError_Error (m : string) :
  isQuotaError (Error m)
  = Js.includes "quota" (Js.toLowerCase m)
    || Js.includes "billing" (Js.toLowerCase m)
    || Js.includes "rate limit" (Js.toLowerCase m).
Proof.
  unfold isQuotaError. cbn.
  assert (El : Js.or_else (Some (Js.toLowerCase m)) "" = Js.toLowerCase m).
  { unfold Js.or_else. simpl. destruct (Js.toLowerCase m); reflexivity. }
  now rewrite El.
Qed.

(** The quota errors that the two loops throw are quota errors again. *)
Lemma transcription_quota_error_is_quota (x : string) :
  isQuotaError (Error ("OpenAI API quota exceeded. Please check your billing details: "
                       ++ x)) = true.
Proof.
  rewrite isQuotaError_Error.
  change ("OpenAI API quota exceeded. Please check your billing details: " ++ x)
    with ("OpenAI API " ++ "quota" ++ (" exceeded. Please check your billing details: " ++ x)).
  rewrite !toLowerCase_append.
  change (Js.toLowerCase "quota") with "quota".
  now rewrite includes_intro.
Qed.

Lemma summary_quota_error_is_quota (x : string) :
  isQuotaError (Error ("OpenAI API quota exceeded when generating summary. Please check your billing details: "
                       ++ x)) = true.
Proof.
  rewrite isQuotaError_Error.
  change ("OpenAI API quota exceeded when generating summary. Please check your billing details: " ++ x)
    with ("OpenAI API " ++ "quota"
          ++ (" exceeded when generating summary. Please check your billing details: " ++ x)).
  rewrite !toLowerCase_append.
  change (Js.toLowerCase "quota") with "quota".
  now rewrite includes_intro.
Qed.

Lemma includes_skip (n : string) (c : ascii) (r : string) :
  String.prefix n (String c r) = false ->
  Js.includes n (String c r) = Js.includes n r.
Proof. intros H. rewrite includes_unfold, H. reflexivity. Qed.

(** What [isQuotaError e = false] says of the message of [e]. *)
Lemma not_quota_message (e : ApiError) :
  isQuotaError e = false ->
  Js.includes "quota" (Js.toLowerCase (Js.show (message e))) = false
  /\ Js.includes "billing" (Js.toLowerCase (Js.show (message e))) = false
  /\ Js.includes "rate limit" (Js.toLowerCase (Js.show (message e))) = false.
Proof.
  unfold isQuotaError.
  destruct (is_string (response_code e) _ || is_string (response_type e) _);
    [discriminate|].
  destruct (is_number (response_status e) 429); [discriminate|].
  destruct (message e) as [m|]; [|intros _; repeat split; reflexivity].
  assert (El : Js.or_else (Some (Js.toLowerCase m)) "" = Js.toLowerCase m).
  { unfold Js.or_else. simpl. destruct (Js.toLowerCase m); reflexivity. }
  rewrite El. cbn [Js.show]. intros H.
  apply orb_false_iff in H. destruct H as (H & H3).
  apply orb_false_iff in H. destruct H as (H1 & H2). auto.
Qed.

(** The terminal error of the transcription is not a quota error when
    the last failure was not one. *)
Lemma terminal_error_is_not_quota (e : ApiError) :
  isQuotaError e = false ->
  isQuotaError (Error ("Transcription failed after 5 attempts: "
                       ++ Js.show (message e))) = false.
Proof.
  intros H. destruct (not_quota_message e H) as (H1 & H2 & H3).
  rewrite isQuotaError_Error, toLowerCase_append.
  set (s := Js.toLowerCase (Js.show (message e))) in *.
  cbn [Js.toLowerCase Js.lower_ascii nat_of_ascii].
  cbn.
  rewrite H1, H2, H3. reflexivity.
Qed.

End AdapterMore.

Section AdapterComposition.
Import RecordingProcessorService.
Variable env : Env.

(** A quota error of the summary loop is the reply to one of its
    requests. *)
Lemma summary_loop_rejects_at fuel : forall transcript rc w err,
  fst (summary_loop env fuel transcript rc w) = Reject err ->
  exists n e,
    (rc + n < summary_maxRetries)%nat
    /\ chat env (completion_requests w + n) (summary_request transcript) = Rejected e
    /\ isQuotaError e = true.
Proof.
  induction fuel as [|fuel IH]; intros transcript rc w err H.
  - destruct (Nat.le_gt_cases summary_maxRetries rc) as [Hge|Hlt].
    + rewrite summary_loop_exit in H by lia. discriminate.
    + cbn [summary_loop] in H. apply Nat.ltb_lt in Hlt. rewrite Hlt in H. discriminate.
  - destruct (Nat.le_gt_cases summary_maxRetries rc) as [Hge|Hlt].
    { rewrite summary_loop_exit in H by lia. discriminate. }
    destruct (chat env (completion_requests w) (summary_request transcript))
      as [r|e] eqn:Hc.
    { rewrite (summary_step_resolved env _ _ _ _ _ Hlt Hc) in H. discriminate. }
    destruct (isQuotaError e) eqn:Hq.
    { exists 0%nat, e. rewrite !Nat.add_0_r. auto. }
    destruct (Nat.le_gt_cases summary_maxRetries (S rc)) as [Hlast|Hmore].
    { rewrite (summary_step_last env _ _ _ _ _ Hlt Hlast Hc Hq) in H. discriminate. }
    rewrite (summary_step_retry env _ _ _ _ _ Hmore Hc Hq) in H.
    apply IH in H. destruct H as (n & e' & Hn & He' & Hq').
    rewrite completion_rejected_requests in He'.
    exists (S n), e'. repeat split; auto; try lia.
    rewrite <- He'. f_equal. lia.
Qed.

(** The world after five transient failures of the transcription. *)
Lemma transcribeAudio_exhausted audio w :
  transient_transcriptions env audio w 5 ->
  exists e,
    whisper env (transcription_requests w + 4) audio = Rejected e
    /\ isQuotaError e = false
    /\ fst (transcribeAudio env audio w)
       = Reject (Error ("Transcription failed after 5 attempts: " ++ Js.show (message e)))
    /\ transcription_requests (snd (transcribeAudio env audio w))
       = (transcription_requests w + 5)%nat
    /\ completion_requests (snd (transcribeAudio env audio w)) = completion_requests w.
Proof.
  intros Ht.
  destruct (Ht 4%nat) as (e & He & Hq); [lia|]. apply not_quota_false in Hq.
  exists e. split; [exact He|]. split; [exact Hq|].
  destruct (transcribe_loop_run env transcribe_maxRetries audio 0 w)
    as (_ & _ & _ & _ & _ & _ & Hcomp & _); [lia|].
  fold (transcribeAudio env audio w) in Hcomp.
  destruct (transcribeAudio_after_transient env 4 audio w) as (w1 & E1 & Hreq1 & _);
    [unfold transcribe_maxRetries; lia
    | intros i Hi; apply Ht; lia |].
  rewrite <- Hreq1 in He. split; [|split; [|exact Hcomp]]; rewrite E1;
    change (transcribe_maxRetries - 4)%nat with 1%nat;
    rewrite (transcribe_step_last env 0 audio 4 w1 e); auto;
    try (unfold transcribe_maxRetries; lia).
  cbn [fst snd]. unfold logged. cbn [transcription_requests set_error_log].
  rewrite transcription_rejected_requests. lia.
Qed.

End AdapterComposition.

(** X1. [checkApiQuota] fails open: it always resolves after exactly one
    completion request and no delay, and it answers [false] only when
    that request is rejected with an error of the quota class. *)
Theorem checkApiQuota_fails_open (env : Env) (w : World) :
  let r := RecordingProcessorService.checkApiQuota env w in
  (exists b, fst r = Resolve b)
  /\ (fst r = Resolve false <->
      exists e, chat env (completion_requests w) quota_probe = Rejected e
                /\ QuotaClass e)
  /\ completion_requests (snd r) = S (completion_requests w)
  /\ transcription_requests (snd r) = transcription_requests w
  /\ timeouts (snd r) = timeouts w
  /\ same_stores w (snd r).
Proof.
  cbv zeta.
  unfold RecordingProcessorService.checkApiQuota, try_catch, bind,
    RecordingProcessorService.chat_completions_create, logger_error, modify, ret.
  fold quota_probe.
  destruct (chat env (completion_requests w) quota_probe) as [c|e] eqn:Hc; cbn.
  - unfold same_stores. repeat split; eauto; try discriminate.
    intros (e & He & _). discriminate.
  - destruct (RecordingProcessorService.isQuotaError e) eqn:Hq; cbn;
      unfold same_stores; repeat split; eauto; try discriminate.
    + intros _. exists e. split; [reflexivity | now apply isQuotaError_iff].
    + intros (e' & [= <-] & Hq'). apply isQuotaError_iff in Hq'. congruence.
Qed.

(** X2. [processRecording] of the processor throws one of two errors
    only: the combined quota error, or the terminal transcription error
    built from a failure outside the quota class.  No raw API error and
    no failure of the summary other than quota comes out of it. *)
Theorem processor_throws_two_errors_only
    (env : Env) (audio : list Byte.byte) (w : World) (err : ApiError) :
  fst (RecordingProcessorService.processRecording env audio w) = Reject err ->
  err = Error "OpenAI API quota exceeded. Please check your billing details or try again later."
  \/ exists e, ~ QuotaClass e
               /\ err = Error ("Transcription failed after 5 attempts: "
                               ++ Js.show (message e)).
Proof.
  unfold RecordingProcessorService.processRecording, try_catch, bind,
    RecordingProcessorService.transcribeAudio,
    RecordingProcessorService.generateSummary.
  destruct (RecordingProcessorService.transcribe_loop env _ audio 0 w)
    as [[text|e0|] w1] eqn:E1.
  - destruct (RecordingProcessorService.summary_loop env _ text 0 w1)
      as [[s|e1|] w2] eqn:E2; cbn; try discriminate.
    apply (f_equal fst) in E2. cbn [fst] in E2.
    apply summary_loop_rejects in E2. destruct E2 as (e & _ & ->).
    unfold logger_error, modify, throw.
    rewrite summary_quota_error_is_quota. cbn. intros [= <-]. now left.
  - apply (f_equal fst) in E1. cbn [fst] in E1.
    apply transcribe_loop_rejects in E1; [|lia].
    unfold logger_error, modify, throw.
    destruct E1 as [(e & _ & ->) | [(e & Hq & ->) | (Hrc & _)]].
    + rewrite transcription_quota_error_is_quota. cbn. intros [= <-]. now left.
    + rewrite (terminal_error_is_not_quota e Hq). cbn. intros [= <-].
      right. exists e. split; [now apply quota_false_not_class | reflexivity].
    + unfold RecordingProcessorService.transcribe_maxRetries in Hrc. lia.
  - cbn. discriminate.
Qed.

Lemma processor_throws_two_errors_only_witness :
  fst (RecordingProcessorService.processRecording Mock.out_of_quota Mock.mp3 empty_world)
  = Reject (Error "OpenAI API quota exceeded. Please check your billing details or try again later.")
  /\ (Error "OpenAI API quota exceeded. Please check your billing details or try again later."
      = Error "OpenAI API quota exceeded. Please check your billing details or try again later."
      \/ exists e, ~ QuotaClass e
                   /\ Error "OpenAI API quota exceeded. Please check your billing details or try again later."
                      = Error ("Transcription failed after 5 attempts: "
                               ++ Js.show (message e))).
Proof.
  assert (H : fst (RecordingProcessorService.processRecording Mock.out_of_quota
                     Mock.mp3 empty_world)
              = Reject (Error "OpenAI API quota exceeded. Please check your billing details or try again later."))
    by reflexivity.
  split; [exact H|].
  exact (processor_throws_two_errors_only Mock.out_of_quota Mock.mp3 empty_world _ H).
Defined.

(** X3. When the transcription fails five times with errors outside the
    quota class, [processRecording] of the processor throws the terminal
    transcription error as it is, after exactly 5 transcription requests,
    and no completion request is issued: the summary is never attempted
    without a transcript. *)
Theorem exhausted_transcription_skips_summary
    (env : Env) (audio : list Byte.byte) (w : World) :
  transient_transcriptions env audio w 5 ->
  exists e,
    whisper env (transcription_requests w + 4) audio = Rejected e
    /\ fst (RecordingProcessorService.processRecording env audio w)
       = Reject (Error ("Transcription failed after 5 attempts: "
                        ++ Js.show (message e)))
    /\ transcription_requests (snd (RecordingProcessorService.processRecording env audio w))
       = (transcription_requests w + 5)%nat
    /\ completion_requests (snd (RecordingProcessorService.processRecording env audio w))
       = completion_requests w.
Proof.
  intros Ht.
  destruct (transcribeAudio_exhausted env audio w Ht) as (e & He & Hq & Hf & Hreq & Hcomp).
  exists e. split; [exact He|].
  unfold RecordingProcessorService.processRecording, try_catch, bind.
  destruct (RecordingProcessorService.transcribeAudio env audio w) as [[t|e0|] w1];
    cbn [fst snd] in *; try discriminate.
  replace e0 with (Error ("Transcription failed after 5 attempts: "
                          ++ Js.show (message e))) by congruence.
  unfold logger_error, modify, throw.
  rewrite (terminal_error_is_not_quota e Hq). cbn. auto.
Qed.

Lemma exhausted_transcription_skips_summary_witness :
  transient_transcriptions Mock.unreachable Mock.mp3 empty_world 5
  /\ fst (RecordingProcessorService.processRecording Mock.unreachable Mock.mp3 empty_world)
     = Reject (Error "Transcription failed after 5 attempts: socket hang up")
  /\ completion_requests
       (snd (RecordingProcessorService.processRecording Mock.unreachable Mock.mp3
               empty_world)) = 0%nat.
Proof.
  assert (Ht : transient_transcriptions Mock.unreachable Mock.mp3 empty_world 5).
  { intros i Hi. exists Mock.network_error.
    split; [reflexivity | apply quota_false_not_class; reflexivity]. }
  destruct (exhausted_transcription_skips_summary Mock.unreachable Mock.mp3 empty_world Ht)
    as (e & He & Hf & _ & Hc).
  injection He as <-.
  repeat split; assumption.
Defined.

Section AdapterCost.
Import RecordingProcessorService.
Variable env : Env.

Lemma retry_delays_transcription (r : nat) :
  (r <= 4)%nat ->
  retry_delays 30000 r = firstn r [2000; 4000; 8000; 16000].
Proof.
  intros H. destruct r as [|[|[|[|[|r]]]]]; try lia; reflexivity.
Qed.

Lemma retry_delays_summary (r : nat) :
  (r <= 2)%nat ->
  retry_delays 10000 r = firstn r [2000; 4000].
Proof.
  intros H. destruct r as [|[|[|r]]]; try lia; reflexivity.
Qed.

(** The cost of a run of the processor. *)
Lemma processor_cost (audio : list Byte.byte) (w : World) :
  bounded_cost w (snd (processRecording env audio w)).
Proof.
  unfold processRecording, try_catch, bind, transcribeAudio, generateSummary.
  destruct (transcribe_loop_run env transcribe_maxRetries audio 0 w)
    as (m & _ & Hm & Hm1 & Hreq & Htime & Hcomp & _); [lia|].
  unfold transcribe_maxRetries in Hm, Hm1 at 1. cbn in Hm.
  specialize (Hm1 ltac:(lia)).
  rewrite attempt_delays_retries in Htime by lia.
  rewrite retry_delays_transcription in Htime by lia.
  assert (Hbound : forall r s,
             (r <= 4)%nat -> (s <= 2)%nat ->
             total (firstn r [2000; 4000; 8000; 16000] ++ firstn s [2000; 4000]) <= 36000
             /\ Forall (fun d => 2000 <= d <= 16000)
                       (firstn r [2000; 4000; 8000; 16000] ++ firstn s [2000; 4000])).
  { intros r s Hr Hs.
    destruct r as [|[|[|[|[|r]]]]]; try lia;
      destruct s as [|[|[|s]]]; try lia; cbn;
      (split; [lia | repeat constructor; lia]). }
  destruct (transcribe_loop env transcribe_maxRetries audio 0 w) as [[text|e|] w1];
    cbn [fst snd] in *.
  - destruct (summary_loop_run env summary_maxRetries text 0 w1)
      as (m' & _ & Hm' & Hm1' & Hreq' & Htime' & Htr' & _); [lia|].
    unfold summary_maxRetries in Hm', Hm1' at 1. cbn in Hm'.
    specialize (Hm1' ltac:(lia)).
    rewrite attempt_delays_retries in Htime' by lia.
    rewrite retry_delays_summary in Htime' by lia.
    assert (Hw2 : bounded_cost w (snd (summary_loop env summary_maxRetries text 0 w1))).
    { unfold bounded_cost. rewrite Htr', Hreq', Htime', Hreq, Hcomp, Htime.
      split; [lia|]. split; [lia|].
      exists (firstn (m - 1) [2000; 4000; 8000; 16000] ++ firstn (m' - 1) [2000; 4000])%list.
      rewrite app_assoc. split; [reflexivity|]. apply Hbound; lia. }
    destruct (summary_loop env summary_maxRetries text 0 w1) as [[s|e|] w2];
      cbn [fst snd] in *; try exact Hw2.
    unfold logger_error, modify, throw.
    destruct (isQuotaError e); exact Hw2.
  - assert (Hw1 : bounded_cost w w1).
    { unfold bounded_cost. rewrite Hreq, Hcomp, Htime.
      split; [lia|]. split; [lia|].
      exists (firstn (m - 1) [2000; 4000; 8000; 16000] ++ firstn 0 [2000; 4000])%list.
      split; [now rewrite app_nil_r | apply Hbound; lia]. }
    unfold logger_error, modify, throw.
    destruct (isQuotaError e); exact Hw1.
  - unfold bounded_cost. rewrite Hreq, Hcomp, Htime.
    split; [lia|]. split; [lia|].
    exists (firstn (m - 1) [2000; 4000; 8000; 16000] ++ firstn 0 [2000; 4000])%list.
    split; [now rewrite app_nil_r | apply Hbound; lia].
Qed.

End AdapterCost.

(** X4. A failure of the summary is not fatal unless it is a quota
    error: when the transcription resolves and no completion request is
    rejected with an error of the quota class, [processRecording] of the
    processor resolves with that transcript and a summary that is not
    empty. *)
Theorem summary_failure_is_not_fatal
    (env : Env) (audio : list Byte.byte) (w w1 : World) (t : string) :
  RecordingProcessorService.transcribeAudio env audio w = (Resolve t, w1) ->
  (forall i e, (i < 3)%nat ->
     chat env (completion_requests w1 + i)
       (RecordingProcessorService.summary_request t) = Rejected e ->
     ~ QuotaClass e) ->
  exists s,
    fst (RecordingProcessorService.processRecording env audio w)
    = Resolve {| RecordingProcessorService.transcription := t;
                 RecordingProcessorService.summary := s |}
    /\ s <> "".
Proof.
  intros Ht Hchat.
  unfold RecordingProcessorService.processRecording, try_catch, bind.
  rewrite Ht. unfold RecordingProcessorService.generateSummary.
  destruct (summary_loop_run env RecordingProcessorService.summary_maxRetries t 0 w1)
    as (_ & Hd & _); [lia|].
  destruct (RecordingProcessorService.summary_loop env _ t 0 w1) as [[s|e|] w2] eqn:E;
    cbn [fst snd] in *; [| |now elim Hd].
  - exists s. split; [reflexivity|].
    apply (f_equal fst) in E. cbn [fst] in E.
    apply summary_loop_resolves in E; [|lia].
    destruct E as [(n & r & _ & _ & _ & ->) | [(_ & _ & ->) | (Hrc & _)]].
    + apply or_else_nonempty. discriminate.
    + discriminate.
    + unfold RecordingProcessorService.summary_maxRetries in Hrc. lia.
  - apply (f_equal fst) in E. cbn [fst] in E.
    apply summary_loop_rejects_at in E. destruct E as (n & e' & Hn & He' & Hq').
    unfold RecordingProcessorService.summary_maxRetries in Hn.
    exfalso. apply (Hchat n e'); [lia | exact He' | now apply isQuotaError_iff].
Qed.

Lemma summary_failure_is_not_fatal_witness :
  exists s,
    fst (RecordingProcessorService.processRecording summary_down Mock.mp3 empty_world)
    = Resolve {| RecordingProcessorService.transcription := "hello world";
                 RecordingProcessorService.summary := s |}
    /\ s <> "".
Proof.
  apply (summary_failure_is_not_fatal summary_down Mock.mp3 empty_world
           (set_transcription_requests S empty_world) "hello world" eq_refl).
  intros i e Hi He. injection He as <-.
  apply quota_false_not_class. reflexivity.
Defined.

(** ** The artifact store, beyond the double update *)

Section StoreMore.
Variable env : Env.

Lemma update_row_call_sid (sid url s : string) (r : Row) :
  call_sid (StorageService.update_row sid url s r) = call_sid r.
Proof.
  unfold StorageService.update_row.
  destruct (String.eqb (recording_sid r) sid); reflexivity.
Qed.

Lemma update_row_created_at (sid url s : string) (r : Row) :
  created_at (StorageService.update_row sid url s r) = created_at r.
Proof.
  unfold StorageService.update_row.
  destruct (String.eqb (recording_sid r) sid); reflexivity.
Qed.

Lemma update_rows_unknown (sid url s : string) (l : list Row) :
  (forall r, In r l -> recording_sid r <> sid) ->
  map (StorageService.update_row sid url s) l = l.
Proof.
  intros H. induction l as [|r l IH]; [reflexivity|].
  cbn [map]. rewrite update_row_other by (apply H; now left).
  rewrite IH; [reflexivity|]. intros r' Hr'. apply H. now right.
Qed.


Lemma append_cancel_l (p a b : string) : p ++ a = p ++ b -> a = b.
Proof.
  induction p as [|c p IH]; cbn; [auto|]. intros [= H]. auto.
Qed.

Lemma length_append (a b : string) :
  String.length (a ++ b) = (String.length a + String.length b)%nat.
Proof. induction a as [|c a IH]; cbn; [reflexivity | now rewrite IH]. Qed.

Lemma append_cancel_r (a b q : string) : a ++ q = b ++ q -> a = b.
Proof.
  revert b. induction a as [|c a IH]; intros b H.
  - destruct b as [|d b]; [reflexivity|].
    apply (f_equal String.length) in H. cbn in H. rewrite length_append in H. lia.
  - destruct b as [|d b].
    + apply (f_equal String.length) in H. cbn in H. rewrite length_append in H. lia.
    + cbn in H. injection H as -> H. f_equal. auto.
Qed.

End StoreMore.



(** X6. [storeTranscriptionAndSummary] for a recording that has no
    Metadata Record does not fail: when the provider accepts the upload
    and the update, it resolves, the transcript is stored in the bucket,
    and the table is exactly as it was - no record is created and none is
    changed. *)
Theorem update_of_unknown_recording_is_silent
    (env : Env) (sid transcription summary : string) (w : World) :
  (forall r, In r (recordings w) -> recording_sid r <> sid) ->
  storage_upload env (objects w) (Pipeline.transcript_object sid transcription) = None ->
  table_update env (recordings w) sid = None ->
  let r := StorageService.storeTranscriptionAndSummary env sid transcription summary w in
  fst r = Resolve (Pipeline.transcript_public_url env sid, summary)
  /\ recordings (snd r) = recordings w
  /\ objects (snd r)
     = (objects w ++ [Pipeline.transcript_object sid transcription])%list.
Proof.
  intros Hnone Hup Hupd. cbv zeta.
  rewrite storeTranscriptionAndSummary_eq. cbv zeta. rewrite Hup, Hupd.
  cbn [fst snd recordings objects set_recordings set_objects].
  rewrite update_rows_unknown by exact Hnone. auto.
Qed.

Lemma update_of_unknown_recording_is_silent_witness :
  fst (StorageService.storeTranscriptionAndSummary Mock.env "RE2" "hello" "A summary."
         world_with_record)
  = Resolve ("https://storage.test/object/public/recordings/RE2_transcript.txt",
             "A summary.")
  /\ recordings (snd (StorageService.storeTranscriptionAndSummary Mock.env "RE2" "hello"
                        "A summary." world_with_record))
     = [Mock.inserted].
Proof.
  destruct (update_of_unknown_recording_is_silent Mock.env "RE2" "hello" "A summary."
              world_with_record) as (H1 & H2 & _).
  - intros r [<- | []]. discriminate.
  - reflexivity.
  - reflexivity.
  - split; assumption.
Defined.

(** X7. Whatever the provider answers, [storeTranscriptionAndSummary]
    keeps the rows of the table in number and order, with their
    recording id, call id, duration, [audio_url] and creation time, and
    leaves the records of other recordings untouched; when it throws,
    the table is as it was. *)
Theorem update_keeps_the_rest_of_the_table
    (env : Env) (sid transcription summary : string) (w : World) :
  let r := StorageService.storeTranscriptionAndSummary env sid transcription summary w in
  fst r <> Diverge
  /\ map recording_sid (recordings (snd r)) = map recording_sid (recordings w)
  /\ map call_sid (recordings (snd r)) = map call_sid (recordings w)
  /\ map duration (recordings (snd r)) = map duration (recordings w)
  /\ map audio_url (recordings (snd r)) = map audio_url (recordings w)
  /\ map created_at (recordings (snd r)) = map created_at (recordings w)
  /\ filter (fun x => negb (String.eqb (recording_sid x) sid)) (recordings (snd r))
     = filter (fun x => negb (String.eqb (recording_sid x) sid)) (recordings w)
  /\ (is_reject (fst r) -> recordings (snd r) = recordings w).
Proof.
  cbv zeta. rewrite storeTranscriptionAndSummary_eq. cbv zeta.
  destruct (storage_upload env (objects w) _) as [m|];
    [cbn; repeat split; auto; discriminate|].
  destruct (table_update env (recordings w) sid) as [m|];
    [cbn; repeat split; auto; discriminate|].
  cbn [fst snd recordings set_recordings set_objects].
  rewrite !map_map.
  refine (conj _ (conj _ (conj _ (conj _ (conj _ (conj _ (conj _ _))))))).
  - discriminate.
  - apply map_ext. intros x. apply update_row_recording_sid.
  - apply map_ext. intros x. apply update_row_call_sid.
  - apply map_ext. intros x. apply update_row_duration.
  - apply map_ext. intros x. apply update_row_audio_url.
  - apply map_ext. intros x. apply update_row_created_at.
  - induction (recordings w) as [|x l IH]; [reflexivity|].
    cbn [map filter]. rewrite update_row_recording_sid, IH.
    destruct (String.eqb (recording_sid x) sid) eqn:E; cbn [negb]; [reflexivity|].
    rewrite update_row_other; [reflexivity|]. now apply String.eqb_neq.
  - intros [].
Qed.

(** X8. Insert then update: when the provider accepts everything,
    [storeRecording] followed by [storeTranscriptionAndSummary] for the
    same recording leaves, as the last row of the table, the complete
    Metadata Record: the fields given to the first call, the audio URL
    it returned, and the transcript URL and the summary of the second. *)
Theorem store_then_update_completes_the_record
    (env : Env) (audio : list Byte.byte) (md : RecordingMetadata)
    (transcription summary : string) (w : World) :
  let sid := md_recording_sid md in
  let row :=
    {| recording_sid := sid;
       call_sid := md_call_sid md;
       duration := md_duration md;
       audio_summary := Js.or_null (md_audio_summary md);
       audio_url := Some (Pipeline.audio_public_url env sid);
       transcript_url := Js.or_null (md_transcript_url md);
       created_at := now env |} in
  let r1 := StorageService.storeRecording env audio md w in
  let r2 := StorageService.storeTranscriptionAndSummary env sid transcription summary
              (snd r1) in
  storage_upload env (objects w) (Pipeline.audio_object sid audio) = None ->
  table_insert env (recordings w) row = None ->
  storage_upload env (objects w ++ [Pipeline.audio_object sid audio])
    (Pipeline.transcript_object sid transcription) = None ->
  table_update env (recordings w ++ [row]) sid = None ->
  exists audioUrl transcriptUrl,
    fst r1 = Resolve audioUrl
    /\ fst r2 = Resolve (transcriptUrl, summary)
    /\ recordings (snd r2)
       = (map (StorageService.update_row sid transcriptUrl summary) (recordings w)
          ++ [ {| recording_sid := sid;
                  call_sid := md_call_sid md;
                  duration := md_duration md;
                  audio_summary := Some summary;
                  audio_url := Some audioUrl;
                  transcript_url := Some transcriptUrl;
                  created_at := now env |} ])%list
    /\ map obj_name (objects (snd r2))
       = (map obj_name (objects w) ++ [(sid ++ ".mp3")%string; (sid ++ "_transcript.txt")%string])%list.
Proof.
  cbv zeta. intros Hu1 Hi Hu2 Hupd.
  rewrite storeRecording_eq. cbv zeta. rewrite Hu1, Hi. cbn [fst snd].
  rewrite storeTranscriptionAndSummary_eq. cbv zeta.
  cbn [objects recordings set_objects set_recordings].
  rewrite Hu2, Hupd. cbn [fst snd objects recordings set_objects set_recordings].
  eexists _, _. split; [reflexivity|]. split; [reflexivity|]. split.
  - rewrite map_app. cbn [map]. f_equal.
    unfold StorageService.update_row. cbn [recording_sid].
    rewrite String.eqb_refl. reflexivity.
  - rewrite !map_app. cbn. now rewrite <- app_assoc.
Qed.

Lemma store_then_update_completes_the_record_witness :
  recordings
    (snd (StorageService.storeTranscriptionAndSummary Mock.env "RE1" "hello world"
            "Quick call about hello world."
            (snd (StorageService.storeRecording Mock.env Mock.mp3
                    (mkRecordingMetadata "RE1" "CA1" (Js.Int 12) (Some Mock.recording_url)
                       (Some "") (Some "")) empty_world))))
  = [Mock.updated].
Proof.
  destruct (store_then_update_completes_the_record Mock.env Mock.mp3
              (mkRecordingMetadata "RE1" "CA1" (Js.Int 12) (Some Mock.recording_url)
                 (Some "") (Some "")) "hello world" "Quick call about hello world."
              empty_world eq_refl eq_refl eq_refl eq_refl)
    as (a & t & H1 & H2 & H3 & _).
  refine (eq_trans H3 _). cbn in H1, H2.
  injection H1 as <-. injection H2 as <-. reflexivity.
Defined.

(** X9. The three objects of one recording have three different names,
    so they never overwrite one another in the bucket, and the name of
    an object of a kind tells the recording it belongs to. *)
Theorem artifact_names_do_not_collide
    (sid sid' : string) (a a' : list Byte.byte) (t t' : string) :
  obj_name (Pipeline.audio_object sid a) <> obj_name (Pipeline.transcript_object sid t)
  /\ obj_name (Pipeline.audio_object sid a) <> obj_name (Pipeline.speech_object sid a')
  /\ obj_name (Pipeline.transcript_object sid t) <> obj_name (Pipeline.speech_object sid a')
  /\ (obj_name (Pipeline.audio_object sid a) = obj_name (Pipeline.audio_object sid' a')
      -> sid = sid')
  /\ (obj_name (Pipeline.transcript_object sid t)
      = obj_name (Pipeline.transcript_object sid' t') -> sid = sid')
  /\ (obj_name (Pipeline.speech_object sid a) = obj_name (Pipeline.speech_object sid' a')
      -> sid = sid').
Proof.
  cbn [obj_name Pipeline.audio_object Pipeline.transcript_object Pipeline.speech_object].
  refine (conj _ (conj _ (conj _ (conj _ (conj _ _))))).
  - intros H. apply append_cancel_l in H. discriminate.
  - intros H. apply append_cancel_l in H. discriminate.
  - intros H. apply append_cancel_l in H. discriminate.
  - apply append_cancel_r.
  - apply append_cancel_r.
  - apply append_cancel_r.
Qed.

(** ** The speech synthesizer *)

(** X10. [generateSpeech] asks for the speech exactly once and stores it
    only when it succeeds.  When it resolves, the URL returned is the
    public URL of [<sid>_summary_speech.mp3] and that object, holding the
    synthesized audio, is the one object added to the bucket.  When it
    throws - the synthesis was rejected, or the upload refused - the
    bucket is as it was and the error is logged.  It never touches the
    table. *)
Theorem generateSpeech_stores_only_on_success
    (env : Env) (text sid : string) (w : World) :
  let r := TtsService.generateSpeech env text sid w in
  fst r <> Diverge
  /\ speech_requests (snd r) = (speech_requests w ++ [text])%list
  /\ recordings (snd r) = recordings w
  /\ adapters_quiet w (snd r)
  /\ (forall url, fst r = Resolve url ->
        url = speech_public_url env sid
        /\ error_log (snd r) = error_log w
        /\ exists audio,
             speech env "tts-1" "nova" text = Resolved audio
             /\ objects (snd r) = (objects w ++ [Pipeline.speech_object sid audio])%list)
  /\ (forall e, fst r = Reject e ->
        objects (snd r) = objects w
        /\ error_log (snd r)
           = (error_log w ++ [("Error generating speech:", message_or_unknown e)])%list
        /\ (speech env "tts-1" "nova" text = Rejected e
            \/ exists audio m,
                 speech env "tts-1" "nova" text = Resolved audio
                 /\ storage_upload env (objects w) (Pipeline.speech_object sid audio)
                    = Some m
                 /\ e = Error ("Failed to upload speech: " ++ m))).
Proof.
  cbv zeta.
  unfold TtsService.generateSpeech, try_catch, bind, TtsService.speech_create,
    StorageService.upload, logger_error, modify, throw, ret, adapters_quiet,
    speech_public_url.
  destruct (speech env "tts-1" "nova" text) as [audio|e0]; cbn.
  - fold (Pipeline.speech_object sid audio).
    destruct (storage_upload env (objects w) (Pipeline.speech_object sid audio))
      as [m|] eqn:Hup; cbn.
    + refine (conj _ (conj eq_refl (conj eq_refl (conj _ (conj _ _)))));
        [discriminate | auto | discriminate |].
      intros e [= <-]. split; [reflexivity|]. split; [reflexivity|].
      right. exists audio, m. auto.
    + refine (conj _ (conj eq_refl (conj eq_refl (conj _ (conj _ _)))));
        [discriminate | auto | | discriminate].
      intros url [= <-]. split; [reflexivity|]. split; [reflexivity|].
      exists audio. auto.
  - refine (conj _ (conj eq_refl (conj eq_refl (conj _ (conj _ _)))));
      [discriminate | auto | discriminate |].
    intros e [= <-]. auto.
Qed.

(** ** The pipeline, beyond the Metadata Record *)

Section PipelineMore.
Variable env : Env.

Lemma adapters_quiet_refl (w : World) : adapters_quiet w w.
Proof. unfold adapters_quiet. auto. Qed.

Lemma adapters_quiet_trans (w1 w2 w3 : World) :
  adapters_quiet w1 w2 -> adapters_quiet w2 w3 -> adapters_quiet w1 w3.
Proof. unfold adapters_quiet. intros (?&?&?) (?&?&?). repeat split; congruence. Qed.

Lemma bounded_cost_quiet_l (w1 w2 w3 : World) :
  adapters_quiet w1 w2 -> bounded_cost w2 w3 -> bounded_cost w1 w3.
Proof.
  unfold adapters_quiet, bounded_cost. intros (H1 & H2 & H3) (B1 & B2 & B3).
  rewrite <- H1, <- H2, <- H3. auto.
Qed.

Lemma bounded_cost_quiet_r (w1 w2 w3 : World) :
  bounded_cost w1 w2 -> adapters_quiet w2 w3 -> bounded_cost w1 w3.
Proof.
  unfold adapters_quiet, bounded_cost. intros (B1 & B2 & B3) (H1 & H2 & H3).
  rewrite H1, H2, H3. auto.
Qed.

Lemma generateSpeech_frame (text sid : string) (w : World) :
  let r := TtsService.generateSpeech env text sid w in
  adapters_quiet w (snd r)
  /\ (forall url, fst r = Resolve url ->
        url = speech_public_url env sid
        /\ exists audio, objects (snd r) = (objects w ++ [Pipeline.speech_object sid audio])%list)
  /\ (is_reject (fst r) -> objects (snd r) = objects w).
Proof.
  cbv zeta.
  unfold TtsService.generateSpeech, try_catch, bind, TtsService.speech_create,
    StorageService.upload, logger_error, modify, throw, ret, adapters_quiet,
    speech_public_url.
  destruct (speech env "tts-1" "nova" text) as [audio|e0]; cbn.
  - fold (Pipeline.speech_object sid audio).
    destruct (storage_upload env (objects w) (Pipeline.speech_object sid audio)); cbn.
    + repeat split; auto; discriminate.
    + split; [auto|]. split; [|intros []].
      intros url [= <-]. split; [reflexivity|]. exists audio. reflexivity.
  - repeat split; auto; discriminate.
Qed.

(** The call back, in full: it resolves, asks for the speech of the
    summary once, and either places the one call that plays it or places
    none. *)
Lemma call_back_cases (sid summary callerNumber : string) (w : World) :
  let r := RecordingService.call_back env sid summary callerNumber w in
  fst r = Resolve tt
  /\ recordings (snd r) = recordings w
  /\ adapters_quiet w (snd r)
  /\ speech_requests (snd r) = (speech_requests w ++ [summary_speech summary])%list
  /\ ((calls_created (snd r)
       = (calls_created w ++ [outbound_call env sid callerNumber])%list
       /\ exists audio,
            objects (snd r) = (objects w ++ [Pipeline.speech_object sid audio])%list)
      \/ calls_created (snd r) = calls_created w).
Proof.
  cbv zeta.
  unfold RecordingService.call_back, try_catch, bind. cbv zeta.
  fold (summary_speech summary).
  destruct (generateSpeech_run env (summary_speech summary) sid w) as (Hd & Hr & Hc & Hs).
  destruct (generateSpeech_frame (summary_speech summary) sid w) as (Hq & Hres & Hrej).
  cbv zeta in Hq, Hres, Hrej.
  destruct (TtsService.generateSpeech env (summary_speech summary) sid w)
    as [[speechUrl|e|] w1]; cbn [fst snd] in *; [| |congruence].
  - destruct (Hres speechUrl eq_refl) as (-> & audio & Ho).
    unfold RecordingService.twilio_calls_create, logger_error, modify, ret.
    fold (outbound_call env sid callerNumber).
    destruct (calls_create env (outbound_call env sid callerNumber)) as [e|]; cbn.
    + repeat split; auto; try apply Hq.
    + split; [reflexivity|]. split; [exact Hr|]. split; [exact Hq|].
      split; [exact Hs|]. left. rewrite Hc. split; [reflexivity|].
      exists audio. exact Ho.
  - unfold logger_error, modify. cbn. repeat split; auto; apply Hq.
Qed.

(** Step 4, in full. *)
Lemma step_4_cases (sid callSid : string)
    (pr : RecordingProcessorService.ProcessedRecording) (w : World) :
  let r := Pipeline.step_4 env sid callSid pr w in
  adapters_quiet w (snd r)
  /\ recordings (snd r) = recordings w
  /\ ((speech_requests (snd r) = speech_requests w
       /\ calls_created (snd r) = calls_created w)
      \/ exists c number,
           calls_fetch env callSid = Resolved c
           /\ from c = Some number /\ number <> ""
           /\ speech_requests (snd r)
              = (speech_requests w
                 ++ [summary_speech (RecordingProcessorService.summary pr)])%list
           /\ ((calls_created (snd r)
                = (calls_created w ++ [outbound_call env sid number])%list
                /\ exists audio, In (Pipeline.speech_object sid audio) (objects (snd r)))
               \/ calls_created (snd r) = calls_created w)).
Proof.
  cbv zeta.
  destruct (calls_fetch env callSid) as [c|e] eqn:Hc.
  - rewrite (step_4_lookup_ok env sid callSid pr w c Hc).
    destruct (from c) as [[|ch number]|] eqn:Hfrom; cbn [Js.truthy];
      try (cbn [fst snd]; split; [apply adapters_quiet_refl|]; split; [reflexivity|];
           left; split; reflexivity).
    cbn [snd].
    destruct (call_back_cases sid (RecordingProcessorService.summary pr)
                (Js.or_else (Some (String ch number)) "") w)
      as (_ & Hr & Hq & Hs & Hcall).
    cbv zeta in Hr, Hq, Hs, Hcall.
    split; [exact Hq|]. split; [exact Hr|]. right.
    exists c, (String ch number). rewrite Hfrom.
    split; [reflexivity|]. split; [reflexivity|]. split; [discriminate|].
    split; [exact Hs|].
    destruct Hcall as [(Hcc & audio & Ho) | Hcc]; [left | right; exact Hcc].
    split; [exact Hcc|]. exists audio. rewrite Ho. apply in_or_app. right. now left.
  - rewrite (step_4_lookup_fails env sid callSid pr w e Hc). cbn [fst snd].
    split; [apply adapters_quiet_refl|]. split; [reflexivity|]. left. auto.
Qed.

Lemma storeRecording_quiet (audio : list Byte.byte) (md : RecordingMetadata) (w : World) :
  exists f g,
    snd (StorageService.storeRecording env audio md w)
    = set_objects f (set_recordings g w).
Proof.
  rewrite storeRecording_eq. cbv zeta.
  destruct (storage_upload env (objects w) _).
  { exists (fun l => l), (fun l => l). destruct w; reflexivity. }
  match goal with
  | |- context [table_insert env (recordings w) ?row] =>
      destruct (table_insert env (recordings w) row); cbn [snd];
      [ exists (fun l => (l ++ [Pipeline.audio_object (md_recording_sid md) audio])%list),
               (fun l => l)
      | exists (fun l => (l ++ [Pipeline.audio_object (md_recording_sid md) audio])%list),
               (fun l => (l ++ [row])%list) ]
  end; destruct w; reflexivity.
Qed.

Lemma storeTranscriptionAndSummary_quiet (sid t s : string) (w : World) :
  adapters_quiet w (snd (StorageService.storeTranscriptionAndSummary env sid t s w)).
Proof.
  rewrite storeTranscriptionAndSummary_eq. cbv zeta. unfold adapters_quiet.
  destruct (storage_upload env (objects w) _); [auto|].
  destruct (table_update env (recordings w) _); cbn; auto.
Qed.

(** The cost of steps 1 to 3: none when the download fails, that of the
    processor otherwise. *)
Lemma steps_1_to_3_cost (sid callSid url : string) (d : option string) (w : World) :
  match fetch env (url ++ ".mp3") (Pipeline.authorization env) with
  | Rejected _ => adapters_quiet w (snd (Pipeline.steps_1_to_3 env sid callSid url d w))
  | Resolved resp =>
      if http_ok resp
      then bounded_cost w (snd (Pipeline.steps_1_to_3 env sid callSid url d w))
      else adapters_quiet w (snd (Pipeline.steps_1_to_3 env sid callSid url d w))
  end.
Proof.
  remember (Pipeline.steps_1_to_3 env sid callSid url d w) as r eqn:Er.
  unfold Pipeline.steps_1_to_3, bind, RecordingService.fetch_get,
    RecordingService.promise_all in Er.
  destruct (fetch env _ _) as [resp|e]; [|subst r; apply adapters_quiet_refl].
  destruct (http_ok resp); cbn [negb] in Er;
    [|subst r; apply adapters_quiet_refl].
  cbv zeta in Er.
  match type of Er with
  | context [StorageService.storeRecording env ?a ?md w] =>
      destruct (storeRecording_quiet a md w) as (f & g & Hst);
      destruct (StorageService.storeRecording env a md w) as [ra w1]
  end.
  cbn [snd] in Hst. subst w1.
  pose proof (stores_blind_processRecording env (http_body resp) f g w) as Hb.
  pose proof (processor_cost env (http_body resp) w) as Hcost.
  rewrite Hb in Er.
  set (P := RecordingProcessorService.processRecording env (http_body resp) w) in *.
  assert (Hw2 : bounded_cost w (set_objects f (set_recordings g (snd P)))).
  { eapply bounded_cost_quiet_r; [exact Hcost|]. unfold adapters_quiet. auto. }
  destruct ra as [x|ea|]; destruct (fst P) as [pr|e|]; try (subst r; exact Hw2).
  cbn [snd RecordingProcessorService.transcription RecordingProcessorService.summary] in Er.
  match type of Er with
  | context [StorageService.storeTranscriptionAndSummary env ?a ?b ?c ?w0] =>
      pose proof (storeTranscriptionAndSummary_quiet a b c w0) as Hq;
      destruct (StorageService.storeTranscriptionAndSummary env a b c w0)
        as [[y|e|] w3]
  end; cbn [snd] in Hq; subst r; cbn [snd];
    eapply bounded_cost_quiet_r; eauto.
Qed.

(** Steps 1 to 3, when they resolve: the record is complete and carries
    the summary they return. *)
Lemma steps_1_to_3_resolved (sid callSid url : string) (d : option string) (w w3 : World)
    (pr : RecordingProcessorService.ProcessedRecording) :
  Pipeline.steps_1_to_3 env sid callSid url d w = (Resolve pr, w3) ->
  recordings w3
  = map (StorageService.update_row sid (Pipeline.transcript_public_url env sid)
           (RecordingProcessorService.summary pr))
        (recordings w ++ [Pipeline.inserted_row env sid callSid d]).
Proof.
  intros H.
  destruct (steps_1_to_3_cases env sid callSid url d w) as (_ & Hc).
  rewrite H in Hc. cbn [fst snd] in Hc.
  destruct (fetch env _ _) as [resp|e]; [|discriminate].
  destruct (http_ok resp); [|discriminate].
  destruct (storage_upload env _ _); [now destruct Hc|].
  destruct (table_insert env _ _); [now destruct Hc|].
  destruct Hc as [(Hrej & _) | (pr' & [= <-] & Hrec)]; [now elim Hrej | exact Hrec].
Qed.

(** The whole of [processRecording] over steps 1 to 3 and step 4. *)
Lemma processRecording_split (sid callSid url : string) (d : option string) (w : World) :
  let r := RecordingService.processRecording env sid callSid url d w in
  let r3 := Pipeline.steps_1_to_3 env sid callSid url d w in
  match fst r3 with
  | Resolve pr =>
      fst r = fst (Pipeline.step_4 env sid callSid pr (snd r3))
      /\ recordings (snd r) = recordings (snd r3)
      /\ speech_requests (snd r)
         = speech_requests (snd (Pipeline.step_4 env sid callSid pr (snd r3)))
      /\ calls_created (snd r)
         = calls_created (snd (Pipeline.step_4 env sid callSid pr (snd r3)))
      /\ objects (snd r) = objects (snd (Pipeline.step_4 env sid callSid pr (snd r3)))
      /\ adapters_quiet (snd (Pipeline.step_4 env sid callSid pr (snd r3))) (snd r)
  | _ =>
      is_reject (fst r)
      /\ recordings (snd r) = recordings (snd r3)
      /\ speech_requests (snd r) = speech_requests w
      /\ calls_created (snd r) = calls_created w
      /\ objects (snd r) = objects (snd r3)
      /\ adapters_quiet (snd r3) (snd r)
  end.
Proof.
  cbv zeta. rewrite processRecording_steps.
  destruct (steps_1_to_3_cases env sid callSid url d w) as (Hd & _).
  destruct (steps_1_to_3_frame env sid callSid url d w) as (Hs3 & Hc3).
  unfold try_catch, bind, logger_error, modify, throw, adapters_quiet.
  destruct (Pipeline.steps_1_to_3 env sid callSid url d w) as [[pr|e|] w3];
    cbn [fst snd] in *; [| |now elim Hd].
  - destruct (step_4_run env sid callSid pr w3) as (_ & Hr4).
    destruct (Pipeline.step_4 env sid callSid pr w3) as [[[]|e|] w4];
      cbn [fst snd] in *; auto 10.
  - cbn. auto 10.
Qed.

End PipelineMore.

Section PipelineEffects.
Variable env : Env.

(** The table after [processRecording], in three cases. *)
Lemma processRecording_table (sid callSid url : string) (d : option string) (w : World) :
  let r := RecordingService.processRecording env sid callSid url d w in
  let row := Pipeline.inserted_row env sid callSid d in
  (is_reject (fst r) /\ recordings (snd r) = recordings w)
  \/ (is_reject (fst r) /\ recordings (snd r) = (recordings w ++ [row])%list)
  \/ exists s,
       recordings (snd r)
       = map (StorageService.update_row sid (Pipeline.transcript_public_url env sid) s)
             (recordings w ++ [row]).
Proof.
  cbv zeta.
  destruct (processRecording_cases env sid callSid url d w) as (_ & Hc).
  cbv zeta in Hc.
  destruct (fetch env _ _) as [resp|e].
  - destruct (http_ok resp).
    + destruct (storage_upload env _ _); [now left|].
      destruct (table_insert env _ _); [now left|].
      destruct Hc as [Hc | Hc]; [right; left; exact Hc | right; right; exact Hc].
    + destruct Hc as (Hf & Hr & _). left. rewrite Hf. split; [exact I | exact Hr].
  - destruct Hc as (Hf & Hr & _). left. rewrite Hf. split; [exact I | exact Hr].
Qed.

(** What step 4 adds to a run: nothing, or - after steps 1 to 3 have
    resolved and the lookup has found a caller number - the speech of
    the stored summary and at most the one call that plays it. *)
Lemma processRecording_call_back (sid callSid url : string) (d : option string) (w : World) :
  let r := RecordingService.processRecording env sid callSid url d w in
  (speech_requests (snd r) = speech_requests w
   /\ calls_created (snd r) = calls_created w)
  \/ exists s c number,
       fst r = Resolve tt
       /\ recordings (snd r)
          = map (StorageService.update_row sid (Pipeline.transcript_public_url env sid) s)
                (recordings w ++ [Pipeline.inserted_row env sid callSid d])
       /\ calls_fetch env callSid = Resolved c
       /\ from c = Some number /\ number <> ""
       /\ speech_requests (snd r) = (speech_requests w ++ [summary_speech s])%list
       /\ ((calls_created (snd r)
            = (calls_created w ++ [outbound_call env sid number])%list
            /\ exists audio, In (Pipeline.speech_object sid audio) (objects (snd r)))
           \/ calls_created (snd r) = calls_created w).
Proof.
  cbv zeta.
  pose proof (processRecording_split env sid callSid url d w) as Hsplit.
  cbv zeta in Hsplit.
  destruct (steps_1_to_3_frame env sid callSid url d w) as (Hs3 & Hc3).
  destruct (Pipeline.steps_1_to_3 env sid callSid url d w) as [[pr|e|] w3] eqn:E;
    cbn [fst snd] in *;
    try (destruct Hsplit as (_ & _ & Hs & Hc & _); left; split; assumption).
  destruct Hsplit as (Hf & Hr & Hs & Hc & Ho & _).
  pose proof (steps_1_to_3_resolved env sid callSid url d w w3 pr E) as Hrec.
  destruct (step_4_cases env sid callSid pr w3) as (_ & _ & H4). cbv zeta in H4.
  destruct H4 as [(Hs4 & Hc4) | (c & number & Hfetch & Hfrom & Hne & Hs4 & Hc4)].
  - left. split; congruence.
  - right. exists (RecordingProcessorService.summary pr), c, number.
    split.
    { rewrite Hf, (step_4_lookup_ok env sid callSid pr w3 c Hfetch).
      destruct (Js.truthy (from c)); reflexivity. }
    split; [rewrite Hr; exact Hrec|].
    split; [exact Hfetch|]. split; [exact Hfrom|]. split; [exact Hne|].
    split; [rewrite Hs, Hs4, Hs3; reflexivity|].
    rewrite Hc, Ho, <- Hc3. exact Hc4.
Qed.

Lemma records_of_app (sid : string) (l1 l2 : list Row) :
  records_of sid (l1 ++ l2) = (records_of sid l1 + records_of sid l2)%nat.
Proof. unfold records_of. now rewrite filter_app, length_app. Qed.

Lemma records_of_update (sid' sid url s : string) (l : list Row) :
  records_of sid' (map (StorageService.update_row sid url s) l) = records_of sid' l.
Proof.
  unfold records_of. induction l as [|x l IH]; [reflexivity|].
  cbn [map filter]. rewrite update_row_recording_sid.
  destruct (String.eqb (recording_sid x) sid'); cbn [length]; now rewrite IH.
Qed.

End PipelineEffects.

(** X11. The cost of one run of [processRecording] is bounded.  A run
    whose download is rejected, or answered with a status outside
    200-299, issues no transcription or completion request and awaits no
    delay.  Any other run issues between 1 and 5 transcription requests
    and at most 3 completion requests, and awaits backoff delays of 2 to
    16 seconds that add up to 36 seconds at most.  Every run issues at
    most one speech request, places at most one outbound call and adds
    at most one Metadata Record. *)
Theorem pipeline_cost_is_bounded
    (env : Env) (sid callSid url : string) (d : option string) (w : World) :
  let r := RecordingService.processRecording env sid callSid url d w in
  match fetch env (url ++ ".mp3") (Pipeline.authorization env) with
  | Rejected _ => adapters_quiet w (snd r)
  | Resolved resp =>
      if http_ok resp then bounded_cost w (snd r) else adapters_quiet w (snd r)
  end
  /\ (speech_requests (snd r) = speech_requests w
      \/ exists text, speech_requests (snd r) = (speech_requests w ++ [text])%list)
  /\ (calls_created (snd r) = calls_created w
      \/ exists c, calls_created (snd r) = (calls_created w ++ [c])%list)
  /\ (length (recordings w) <= length (recordings (snd r))
      <= length (recordings w) + 1)%nat.
Proof.
  cbv zeta. split; [|split; [|split]].
  - pose proof (processRecording_split env sid callSid url d w) as Hsplit.
    cbv zeta in Hsplit.
    pose proof (steps_1_to_3_cost env sid callSid url d w) as H3.
    assert (Hq : adapters_quiet (snd (Pipeline.steps_1_to_3 env sid callSid url d w))
                   (snd (RecordingService.processRecording env sid callSid url d w))).
    { destruct (fst (Pipeline.steps_1_to_3 env sid callSid url d w)) as [pr|e|].
      - destruct Hsplit as (_ & _ & _ & _ & _ & Hq).
        eapply adapters_quiet_trans; [|exact Hq].
        apply (step_4_cases env sid callSid pr).
      - apply Hsplit.
      - apply Hsplit. }
    destruct (fetch env (url ++ ".mp3") (Pipeline.authorization env)) as [resp|e].
    + destruct (http_ok resp).
      * eapply bounded_cost_quiet_r; eauto.
      * eapply adapters_quiet_trans; eauto.
    + eapply adapters_quiet_trans; eauto.
  - destruct (processRecording_call_back env sid callSid url d w)
      as [(Hs & _) | (s & c & number & _ & _ & _ & _ & _ & Hs & _)];
      [now left | right; eauto].
  - destruct (processRecording_call_back env sid callSid url d w)
      as [(_ & Hc) | (s & c & number & _ & _ & _ & _ & _ & _ & [(Hc & _) | Hc])];
      [now left | right; eauto | now left].
  - destruct (processRecording_table env sid callSid url d w)
      as [(_ & ->) | [(_ & ->) | (s & ->)]];
      rewrite ?length_map, ?length_app; cbn [length]; lia.
Qed.

(** X12. The call back comes after the commit and speaks what was
    stored: when a run has requested speech or placed a call, it resolves,
    the Metadata Record of the run is complete in the table, and the one
    speech requested is the greeting around the very summary stored in
    that record. *)
Theorem call_back_follows_the_commit
    (env : Env) (sid callSid url : string) (d : option string) (w : World) :
  let r := RecordingService.processRecording env sid callSid url d w in
  speech_requests (snd r) <> speech_requests w
  \/ calls_created (snd r) <> calls_created w ->
  fst r = Resolve tt
  /\ exists s,
       recordings (snd r)
       = map (StorageService.update_row sid (Pipeline.transcript_public_url env sid) s)
             (recordings w ++ [Pipeline.inserted_row env sid callSid d])
       /\ speech_requests (snd r) = (speech_requests w ++ [summary_speech s])%list.
Proof.
  cbv zeta. intros Hne.
  destruct (processRecording_call_back env sid callSid url d w)
    as [(Hs & Hc) | (s & c & number & Hf & Hrec & _ & _ & _ & Hs & _)].
  - destruct Hne as [Hne | Hne]; contradiction.
  - split; [exact Hf|]. exists s. split; assumption.
Qed.

Lemma call_back_follows_the_commit_witness :
  fst (RecordingService.processRecording Mock.env "RE1" "CA1" Mock.recording_url
         (Some "12") empty_world) = Resolve tt
  /\ exists s,
       recordings (snd (RecordingService.processRecording Mock.env "RE1" "CA1"
                          Mock.recording_url (Some "12") empty_world))
       = map (StorageService.update_row "RE1"
                (Pipeline.transcript_public_url Mock.env "RE1") s)
             ([] ++ [Pipeline.inserted_row Mock.env "RE1" "CA1" (Some "12")])
       /\ speech_requests (snd (RecordingService.processRecording Mock.env "RE1" "CA1"
                                  Mock.recording_url (Some "12") empty_world))
          = ([] ++ [summary_speech s])%list.
Proof.
  apply (call_back_follows_the_commit Mock.env "RE1" "CA1" Mock.recording_url
           (Some "12") empty_world).
  left. vm_compute. discriminate.
Defined.

(** X13. A run places at most one outbound call, and only a call to the
    number the call resource gives as its caller, from the configured
    number, playing the public URL of the speech object of the
    recording, which is then in the bucket. *)
Theorem outbound_call_plays_the_stored_speech
    (env : Env) (sid callSid url : string) (d : option string) (w : World) :
  let r := RecordingService.processRecording env sid callSid url d w in
  calls_created (snd r) = calls_created w
  \/ exists c number,
       calls_fetch env callSid = Resolved c
       /\ from c = Some number /\ number <> ""
       /\ calls_created (snd r)
          = (calls_created w ++ [outbound_call env sid number])%list
       /\ exists audio, In (Pipeline.speech_object sid audio) (objects (snd r)).
Proof.
  cbv zeta.
  destruct (processRecording_call_back env sid callSid url d w)
    as [(_ & Hc) | (s & c & number & _ & _ & Hfetch & Hfrom & Hne & _ & [Hc | Hc])].
  - now left.
  - right. exists c, number. destruct Hc as (Hc & Ho). auto.
  - now left.
Qed.

(** X14. There is no idempotency check: a run that resolves adds exactly
    one Metadata Record for its recording, also when the table already
    holds one; a run that throws adds one or none; and no run changes
    the number of records of another recording. *)
Theorem each_run_adds_a_record
    (env : Env) (sid callSid url : string) (d : option string) (w : World) :
  let r := RecordingService.processRecording env sid callSid url d w in
  (fst r = Resolve tt ->
   records_of sid (recordings (snd r)) = S (records_of sid (recordings w)))
  /\ (records_of sid (recordings w) <= records_of sid (recordings (snd r))
      <= S (records_of sid (recordings w)))%nat
  /\ forall sid', sid' <> sid ->
       records_of sid' (recordings (snd r)) = records_of sid' (recordings w).
Proof.
  cbv zeta.
  assert (Hrow : forall sid',
             records_of sid' [Pipeline.inserted_row env sid callSid d]
             = if String.eqb sid sid' then 1%nat else 0%nat).
  { intros sid'. unfold records_of. cbn. destruct (String.eqb sid sid'); reflexivity. }
  destruct (processRecording_table env sid callSid url d w)
    as [(Hrej & ->) | [(Hrej & ->) | (s & ->)]];
    rewrite ?records_of_update, ?records_of_app, ?Hrow, ?String.eqb_refl.
  - split; [intros H; rewrite H in Hrej; now elim Hrej|]. split; [lia | reflexivity].
  - split; [intros H; rewrite H in Hrej; now elim Hrej|]. split; [lia|].
    intros sid' Hne. rewrite records_of_app, Hrow.
    destruct (String.eqb_spec sid sid'); [congruence | lia].
  - split; [intros _; lia|]. split; [lia|].
    intros sid' Hne. rewrite records_of_update, records_of_app, Hrow.
    destruct (String.eqb_spec sid sid'); [congruence | lia].
Qed.

Lemma each_run_adds_a_record_witness :
  records_of "RE1"
    (recordings (snd (RecordingService.processRecording Mock.env "RE1" "CA1"
                        Mock.recording_url (Some "12") world_with_record)))
  = 2%nat.
Proof.
  exact (proj1 (each_run_adds_a_record Mock.env "RE1" "CA1" Mock.recording_url
                  (Some "12") world_with_record) eq_refl).
Defined.

(** ** The error log *)

Create HintDb grows.

Section LogGrows.
Variable env : Env.

Lemma log_grows_same {A} (c : Async A) :
  (forall w, error_log (snd (c w)) = error_log w) -> log_grows c.
Proof. intros H w. exists []. now rewrite H, app_nil_r. Qed.

Lemma log_grows_ret {A} (a : A) : log_grows (ret a).
Proof. now apply log_grows_same. Qed.

Lemma log_grows_throw {A} (e : ApiError) : log_grows (@throw A e).
Proof. now apply log_grows_same. Qed.

Lemma log_grows_diverge {A} : log_grows (@diverge A).
Proof. now apply log_grows_same. Qed.

Lemma log_grows_bind {A B} (c : Async A) (k : A -> Async B) :
  log_grows c -> (forall a, log_grows (k a)) -> log_grows (bind c k).
Proof.
  intros Hc Hk w. unfold bind. destruct (Hc w) as (l1 & H1).
  destruct (c w) as [[a|e|] w1]; cbn [fst snd] in *; [|now exists l1..].
  destruct (Hk a w1) as (l2 & H2). exists (l1 ++ l2)%list.
  now rewrite H2, H1, app_assoc.
Qed.

Lemma log_grows_try_catch {A} (c : Async A) (h : ApiError -> Async A) :
  log_grows c -> (forall e, log_grows (h e)) -> log_grows (try_catch c h).
Proof.
  intros Hc Hh w. unfold try_catch. destruct (Hc w) as (l1 & H1).
  destruct (c w) as [[a|e|] w1]; cbn [fst snd] in *; [now exists l1| |now exists l1].
  destruct (Hh e w1) as (l2 & H2). exists (l1 ++ l2)%list.
  now rewrite H2, H1, app_assoc.
Qed.

Lemma log_grows_attempt {A} (c : Async A) : log_grows c -> log_grows (attempt c).
Proof.
  intros Hc. unfold attempt. apply log_grows_try_catch.
  - apply log_grows_bind; [exact Hc | intros a; apply log_grows_ret].
  - intros e. apply log_grows_ret.
Qed.

Lemma log_grows_sleep (ms : Z) : log_grows (sleep ms).
Proof. now apply log_grows_same. Qed.

Lemma log_grows_logger_error (label detail : string) :
  log_grows (logger_error label detail).
Proof. intros w. now exists [(label, detail)]. Qed.

Lemma log_grows_post_transcription (audio : list Byte.byte) :
  log_grows (RecordingProcessorService.post_transcription env audio).
Proof.
  apply log_grows_same. intros w. unfold RecordingProcessorService.post_transcription.
  destruct (whisper env _ _); reflexivity.
Qed.

Lemma log_grows_chat_completions_create (req : ChatRequest) :
  log_grows (RecordingProcessorService.chat_completions_create env req).
Proof.
  apply log_grows_same. intros w.
  unfold RecordingProcessorService.chat_completions_create.
  destruct (chat env _ _); reflexivity.
Qed.

Lemma log_grows_upload (bucket name : string) (body : list Byte.byte) (ct cc : string) :
  log_grows (StorageService.upload env bucket name body ct cc).
Proof.
  apply log_grows_same. intros w. unfold StorageService.upload.
  destruct (storage_upload env _ _); reflexivity.
Qed.

Lemma log_grows_insert (row : Row) : log_grows (StorageService.insert env row).
Proof.
  apply log_grows_same. intros w. unfold StorageService.insert.
  destruct (table_insert env _ _); reflexivity.
Qed.

Lemma log_grows_update (sid url summary : string) :
  log_grows (StorageService.update env sid url summary).
Proof.
  apply log_grows_same. intros w. unfold StorageService.update.
  destruct (table_update env _ _); reflexivity.
Qed.

Lemma log_grows_speech_create (model voice input : string) :
  log_grows (TtsService.speech_create env model voice input).
Proof.
  apply log_grows_same. intros w. unfold TtsService.speech_create.
  destruct (speech env _ _ _); reflexivity.
Qed.

Lemma log_grows_fetch_get (url authorization : string) :
  log_grows (RecordingService.fetch_get env url authorization).
Proof.
  apply log_grows_same. intros w. unfold RecordingService.fetch_get.
  destruct (fetch env _ _); reflexivity.
Qed.

Lemma log_grows_twilio_calls_fetch (callSid : string) :
  log_grows (RecordingService.twilio_calls_fetch env callSid).
Proof.
  apply log_grows_same. intros w. unfold RecordingService.twilio_calls_fetch.
  destruct (calls_fetch env _); reflexivity.
Qed.

Lemma log_grows_twilio_calls_create (c : OutboundCall) :
  log_grows (RecordingService.twilio_calls_create env c).
Proof.
  apply log_grows_same. intros w. unfold RecordingService.twilio_calls_create.
  destruct (calls_create env _); reflexivity.
Qed.

Lemma log_grows_promise_all {A B} (a : Async A) (b : Async B) :
  log_grows a -> log_grows b -> log_grows (RecordingService.promise_all env a b).
Proof.
  intros Ha Hb w. unfold RecordingService.promise_all.
  destruct (Ha w) as (l1 & H1). destruct (a w) as [ra w1]. cbn [snd] in H1.
  destruct (Hb w1) as (l2 & H2). destruct (b w1) as [rb w2]. cbn [snd] in H2.
  exists (l1 ++ l2)%list. rewrite app_assoc, <- H1, <- H2.
  destruct ra, rb; reflexivity.
Qed.

#[local] Hint Resolve log_grows_ret log_grows_throw log_grows_diverge log_grows_sleep
  log_grows_logger_error log_grows_post_transcription
  log_grows_chat_completions_create log_grows_upload log_grows_insert
  log_grows_update log_grows_speech_create log_grows_fetch_get
  log_grows_twilio_calls_fetch log_grows_twilio_calls_create : grows.

Ltac grows :=
  repeat first
    [ progress auto with grows
    | match goal with
      | |- log_grows (attempt _) => apply log_grows_attempt
      | |- log_grows (try_catch _ _) => apply log_grows_try_catch; [|intros ?]
      | |- log_grows (bind _ _) => apply log_grows_bind; [|intros ?]
      | |- log_grows (if ?b then _ else _) => destruct b
      | |- log_grows (match ?x with inl _ => _ | inr _ => _ end) => destruct x
      | |- log_grows (match ?x with Some _ => _ | None => _ end) => destruct x
      end ].

Lemma log_grows_transcribe_loop (fuel : nat) : forall audio rc,
  log_grows (RecordingProcessorService.transcribe_loop env fuel audio rc).
Proof.
  induction fuel as [|fuel IH]; intros audio rc;
    cbn [RecordingProcessorService.transcribe_loop]; grows.
Qed.

Lemma log_grows_summary_loop (fuel : nat) : forall transcript rc,
  log_grows (RecordingProcessorService.summary_loop env fuel transcript rc).
Proof.
  induction fuel as [|fuel IH]; intros transcript rc;
    cbn [RecordingProcessorService.summary_loop]; grows.
Qed.

Lemma log_grows_processor (audio : list Byte.byte) :
  log_grows (RecordingProcessorService.processRecording env audio).
Proof.
  unfold RecordingProcessorService.processRecording,
    RecordingProcessorService.transcribeAudio,
    RecordingProcessorService.generateSummary.
  apply log_grows_try_catch.
  - apply log_grows_bind; [apply log_grows_transcribe_loop|]. intros t.
    apply log_grows_bind; [apply log_grows_summary_loop|]. intros s.
    apply log_grows_ret.
  - intros e. grows.
Qed.

Lemma log_grows_storeRecording (audio : list Byte.byte) (md : RecordingMetadata) :
  log_grows (StorageService.storeRecording env audio md).
Proof. unfold StorageService.storeRecording. cbv zeta. grows. Qed.

Lemma log_grows_storeTranscriptionAndSummary (sid t s : string) :
  log_grows (StorageService.storeTranscriptionAndSummary env sid t s).
Proof. unfold StorageService.storeTranscriptionAndSummary. cbv zeta. grows. Qed.

Lemma log_grows_generateSpeech (text sid : string) :
  log_grows (TtsService.generateSpeech env text sid).
Proof. unfold TtsService.generateSpeech. cbv zeta. grows. Qed.

Lemma log_grows_call_back (sid summary number : string) :
  log_grows (RecordingService.call_back env sid summary number).
Proof.
  unfold RecordingService.call_back. cbv zeta.
  apply log_grows_try_catch; [|intros e; grows].
  apply log_grows_bind; [apply log_grows_generateSpeech|]. intros u. grows.
Qed.

(** The body of [processRecording], before its handler. *)
Lemma log_grows_steps (sid callSid url : string) (d : option string) :
  log_grows (pr <- Pipeline.steps_1_to_3 env sid callSid url d ;;
             Pipeline.step_4 env sid callSid pr).
Proof.
  apply log_grows_bind.
  - unfold Pipeline.steps_1_to_3.
    apply log_grows_bind; [apply log_grows_fetch_get|]. intros resp.
    destruct (negb (http_ok resp)); [apply log_grows_throw|]. cbv zeta.
    apply log_grows_bind.
    + apply log_grows_promise_all;
        [apply log_grows_storeRecording | apply log_grows_processor].
    + intros results.
      apply log_grows_bind; [apply log_grows_storeTranscriptionAndSummary|].
      intros x. apply log_grows_ret.
  - intros pr. unfold Pipeline.step_4.
    apply log_grows_bind; [apply log_grows_twilio_calls_fetch|]. intros call.
    apply log_grows_bind; [|intros x; apply log_grows_ret].
    destruct (Js.truthy (from call)); [apply log_grows_call_back | apply log_grows_ret].
Qed.

End LogGrows.

(** X15. No failure of the pipeline goes unlogged: when [processRecording]
    throws, its handler has written, among the lines that the run has
    added to the error log, the label of the orchestrator with the
    message of the error thrown. *)
Theorem pipeline_failures_are_logged
    (env : Env) (sid callSid url : string) (d : option string) (w : World)
    (e : ApiError) :
  fst (RecordingService.processRecording env sid callSid url d w) = Reject e ->
  exists before after,
    error_log (snd (RecordingService.processRecording env sid callSid url d w))
    = (error_log w ++ before
       ++ [("Error processing recording:", message_or_unknown e)] ++ after)%list.
Proof.
  rewrite processRecording_steps.
  destruct (log_grows_steps env sid callSid url d w) as (before & Hlog).
  unfold try_catch, logger_error, modify, throw.
  match goal with
  | |- context [bind ?c ?k w] => destruct (bind c k w) as [[x|e0|] w1]
  end; cbn in *; try discriminate.
  intros [= <-]. exists before, []. now rewrite Hlog, <- app_assoc.
Qed.

Lemma pipeline_failures_are_logged_witness :
  exists before after,
    error_log (snd (RecordingService.processRecording Mock.not_found "RE1" "CA1"
                      Mock.recording_url (Some "12") empty_world))
    = (error_log empty_world ++ before
       ++ [("Error processing recording:",
            message_or_unknown (Error "Failed to download recording: 404 Not Found"))]
       ++ after)%list.
Proof.
  exact (pipeline_failures_are_logged Mock.not_found "RE1" "CA1" Mock.recording_url
           (Some "12") empty_world _ eq_refl).
Defined.

(** ** The webhook, the duration and the rest *)

Section Durations.

Lemma read_digits_acc (d : Decimal.uint) : forall acc,
  Js.read_digits 10 (DecimalString.NilEmpty.string_of_uint d) true (Zpos acc)
  = Some (Zpos (Pos.of_uint_acc d acc)).
Proof.
  induction d; intros acc;
    cbn [DecimalString.NilEmpty.string_of_uint Js.read_digits Pos.of_uint_acc];
    [reflexivity|..];
    match goal with
    | |- context [Js.radix_digit 10 ?c] =>
        let v := eval vm_compute in (Js.radix_digit 10 c) in
        change (Js.radix_digit 10 c) with v
    end; cbv iota beta;
    match goal with
    | |- Js.read_digits _ _ _ ?a = Some (Zpos (Pos.of_uint_acc _ ?b)) =>
        replace a with (Zpos b) by lia
    end; apply IHd.
Qed.

Lemma read_digits_uint (d : Decimal.uint) : forall seen p,
  Pos.of_uint d = Npos p ->
  Js.read_digits 10 (DecimalString.NilEmpty.string_of_uint d) seen 0 = Some (Zpos p).
Proof.
  induction d; intros seen p H;
    cbn [DecimalString.NilEmpty.string_of_uint Js.read_digits Pos.of_uint] in *;
    [discriminate|..];
    match goal with
    | |- context [Js.radix_digit 10 ?c] =>
        let v := eval vm_compute in (Js.radix_digit 10 c) in
        change (Js.radix_digit 10 c) with v
    end; cbv iota beta;
    try (now apply IHd);
    injection H as <-; apply read_digits_acc.
Qed.

Lemma uint_digits (d : Decimal.uint) :
  all_decimal_digits (DecimalString.NilEmpty.string_of_uint d) = true.
Proof. induction d; cbn; auto. Qed.

Lemma uint_string_nonempty (d : Decimal.uint) :
  d <> Decimal.Nil -> DecimalString.NilEmpty.string_of_uint d <> "".
Proof. destruct d; [congruence | discriminate..]. Qed.

(** A decimal numeral starts with no white space, no sign and no [0x]. *)
Lemma digits_start (ds : string) :
  ds <> "" -> all_decimal_digits ds = true ->
  ~ starts_blank ds /\ first_is is_sign ds = false /\ hex_prefix ds = false.
Proof.
  destruct ds as [|c r]; [congruence|]. intros _ Hall.
  cbn [all_decimal_digits] in Hall. apply andb_true_iff in Hall.
  destruct Hall as (Hc & Hr). refine (conj _ (conj _ _)).
  - intros (u & r' & Hu & He).
    cbv [Js.white_space map string_of_list_byte] in Hu.
    repeat (destruct Hu as [<- | Hu];
            [cbn in He; injection He as -> _; vm_compute in Hc; discriminate|]).
    destruct Hu.
  - cbn [first_is].
    destruct c as [[] [] [] [] [] [] [] []]; try reflexivity;
      vm_compute in Hc; discriminate.
  - destruct c as [[] [] [] [] [] [] [] []];
      try (vm_compute in Hc; discriminate);
      try (destruct r; reflexivity).
    destruct r as [|c2 r2]; [reflexivity|].
    cbn [all_decimal_digits] in Hr. apply andb_true_iff in Hr. destruct Hr as (Hc2 & _).
    destruct c2 as [[] [] [] [] [] [] [] []];
      try (vm_compute in Hc2; discriminate); destruct r2; reflexivity.
Qed.


(** [parseInt(s, 10)] after the white space and the sign. *)
Lemma parseInt10_string_signed (ws sg rest : string) :
  blank ws -> In sg [""; "+"; "-"] ->
  (sg = "" -> ~ starts_blank rest /\ first_is is_sign rest = false) ->
  JsMore.parseInt10_string (ws ++ sg ++ rest)
  = Js.of_digits (sign_of sg) (Js.read_digits 10 rest false 0).
Proof.
  intros Hws Hsg Hrest. unfold JsMore.parseInt10_string.
  rewrite (trimStart_blank ws (sg ++ rest) Hws).
  destruct Hsg as [<- | [<- | [<- | []]]].
  - destruct (Hrest eq_refl) as (Hb & Hs). cbn [append].
    rewrite (trimStart_id rest Hb), (sign_branch_none rest Hs). reflexivity.
  - rewrite trimStart_id by (now apply sign_not_blank). reflexivity.
  - rewrite trimStart_id by (now apply sign_not_blank). reflexivity.
Qed.

Lemma string_of_uint_nonnil (d : Decimal.uint) :
  d <> Decimal.Nil ->
  DecimalString.NilZero.string_of_uint d = DecimalString.NilEmpty.string_of_uint d.
Proof. destruct d; [congruence | reflexivity..]. Qed.


Lemma show_int_nonempty (z : Z) : Js.show_int z <> "".
Proof.
  unfold Js.show_int. destruct z as [|p|p]; [discriminate| |discriminate].
  cbn [Z.to_int DecimalString.NilZero.string_of_int].
  rewrite string_of_uint_nonnil by apply DecimalPos.Unsigned.to_uint_nonnil.
  apply uint_string_nonempty, DecimalPos.Unsigned.to_uint_nonnil.
Qed.

(** [parseInt(s, 10)] of the decimal rendering of an integer. *)
Lemma parseInt10_show_int (z : Z) :
  JsMore.parseInt10_string (Js.show_int z) = Js.to_double z.
Proof.
  unfold Js.show_int.
  destruct z as [|p|p]; [reflexivity| |];
    cbn [Z.to_int DecimalString.NilZero.string_of_int];
    rewrite string_of_uint_nonnil by apply DecimalPos.Unsigned.to_uint_nonnil;
    destruct (digits_start _
                (uint_string_nonempty _ (DecimalPos.Unsigned.to_uint_nonnil p))
                (uint_digits (Pos.to_uint p))) as (Hb & Hs & _).
  - pose proof (parseInt10_string_signed "" "" _ blank_nil (or_introl eq_refl)
                  (fun _ => conj Hb Hs)) as E.
    cbn [append] in E. rewrite E.
    rewrite (read_digits_uint _ false p (DecimalPos.Unsigned.of_to p)).
    reflexivity.
  - pose proof (parseInt10_string_signed "" "-"
                  (DecimalString.NilEmpty.string_of_uint (Pos.to_uint p)) blank_nil
                  (or_intror (or_intror (or_introl eq_refl)))) as E.
    cbn [append] in E. rewrite E by discriminate.
    rewrite (read_digits_uint _ false p (DecimalPos.Unsigned.of_to p)).
    reflexivity.
Qed.

End Durations.


Section WebhookMore.
Variable env : Env.

Lemma truthy_some (v : option string) :
  Js.truthy v = true -> exists s, v = Some s /\ s <> "".
Proof.
  destruct v as [[|c s]|]; cbn; try discriminate.
  intros _. exists (String c s). split; [reflexivity | discriminate].
Qed.

End WebhookMore.

(** X17. A webhook request in which [RecordingUrl], [RecordingSid] or
    [CallSid] is missing or empty is answered 400 and nothing else
    happens: the pipeline is not run, and the world changes by one line
    of the error log only. *)
Theorem incomplete_requests_are_refused
    (env : Env) (body : RecordingController.RecordingStatusRequest) (w : World) :
  incomplete body ->
  RecordingController.handleRecordingStatus env body w
  = (Resolve reply_missing_fields,
     logged "Missing required fields in recording callback:" "" w).
Proof.
  unfold incomplete, RecordingController.handleRecordingStatus, try_catch, bind.
  intros [H | [H | H]]; rewrite H; cbn [negb orb]; rewrite ?orb_true_r; reflexivity.
Qed.

Lemma incomplete_requests_are_refused_witness :
  RecordingController.handleRecordingStatus Mock.env
    {| RecordingController.RecordingUrl := Some Mock.recording_url;
       RecordingController.RecordingSid := Some "RE1";
       RecordingController.CallSid := Some "";
       RecordingController.RecordingDuration := Some "12";
       RecordingController.RecordingStatus := Some "completed" |} empty_world
  = (Resolve reply_missing_fields,
     logged "Missing required fields in recording callback:" "" empty_world).
Proof.
  apply incomplete_requests_are_refused. right. right. reflexivity.
Defined.


(** ** The standalone server *)

Section Standalone.

Lemma replace_colon_dot_clean (s : string) :
  no_colon_no_dot (JsMore.replace_colon_dot s).
Proof.
  induction s as [|c s IH]; cbn [JsMore.replace_colon_dot no_colon_no_dot]; [exact I|].
  split; [|split; [|exact IH]].
  - destruct (Ascii.eqb_spec c ":"); cbn [orb]; [discriminate|].
    destruct (Ascii.eqb c "."); [discriminate | assumption].
  - destruct (Ascii.eqb_spec c "."); rewrite ?orb_true_r; [discriminate|].
    rewrite orb_false_r. destruct (Ascii.eqb c ":"); [discriminate | assumption].
Qed.

Lemma replace_colon_dot_length (s : string) :
  String.length (JsMore.replace_colon_dot s) = String.length s.
Proof. induction s as [|c s IH]; cbn; [reflexivity | now rewrite IH]. Qed.

Lemma replace_colon_dot_get (s : string) : forall i c,
  String.get i s = Some c ->
  String.get i (JsMore.replace_colon_dot s)
  = Some (if (Ascii.eqb c ":" || Ascii.eqb c ".")%bool then "-"%char else c).
Proof.
  induction s as [|x s IH]; intros i c H; [destruct i; discriminate|].
  destruct i as [|i]; cbn [String.get JsMore.replace_colon_dot] in *.
  - now injection H as ->.
  - now apply IH.
Qed.

End Standalone.

(** X19. [saveRecordingToFile] of the standalone server writes nothing
    and cannot fail.  The timestamp of its file name and metadata is the
    clock reading in which every colon and every dot has become a dash
    and every other character is as it was: of the same length, with no
    colon or dot left.  A duration that is missing or empty is recorded
    as 0 (where the pipeline stores [NaN]), and the decimal numeral of a
    natural number as the double of that number: the number itself up to
    2^53. *)
Theorem saveRecordingToFile_is_pure
    (env : Env) (recordingsDir : string) (path_join : string -> string -> string)
    (recordingSid callSid : string) (fileBuffer : list Byte.byte)
    (duration : option string) (w : World) :
  exists saved,
    StandaloneServer.saveRecordingToFile env recordingsDir path_join recordingSid callSid
      fileBuffer duration w = (Resolve saved, w)
    /\ StandaloneServer.filePath saved
       = path_join recordingsDir
           (callSid ++ "_"
            ++ StandaloneServer.fm_created_at (StandaloneServer.metadata saved) ++ ".mp3")
    /\ StandaloneServer.fm_file_path (StandaloneServer.metadata saved)
       = StandaloneServer.filePath saved
    /\ no_colon_no_dot (StandaloneServer.fm_created_at (StandaloneServer.metadata saved))
    /\ String.length (StandaloneServer.fm_created_at (StandaloneServer.metadata saved))
       = String.length (now env)
    /\ (forall i c,
          String.get i (now env) = Some c ->
          (c = ":"%char \/ c = "."%char ->
           String.get i (StandaloneServer.fm_created_at (StandaloneServer.metadata saved))
           = Some "-"%char)
          /\ (c <> ":"%char -> c <> "."%char ->
              String.get i (StandaloneServer.fm_created_at (StandaloneServer.metadata saved))
              = Some c))
    /\ (duration = None \/ duration = Some "" ->
        StandaloneServer.fm_duration (StandaloneServer.metadata saved) = Js.Int 0)
    /\ (forall n, duration = Some (Js.show_int (Z.of_nat n)) ->
        StandaloneServer.fm_duration (StandaloneServer.metadata saved)
        = Js.to_double (Z.of_nat n)
        /\ (Z.of_nat n <= 2 ^ 53 ->
            StandaloneServer.fm_duration (StandaloneServer.metadata saved)
            = Js.Int (Z.of_nat n))).
Proof.
  eexists. split; [reflexivity|].
  cbn [StandaloneServer.filePath StandaloneServer.metadata StandaloneServer.fm_created_at
       StandaloneServer.fm_file_path StandaloneServer.fm_duration].
  split; [reflexivity|]. split; [reflexivity|].
  split; [apply replace_colon_dot_clean|].
  split; [apply replace_colon_dot_length|].
  split; [|split].
  - intros i c Hget. rewrite (replace_colon_dot_get _ i c Hget). split.
    + intros [-> | ->]; reflexivity.
    + intros H1 H2. apply Ascii.eqb_neq in H1, H2. now rewrite H1, H2.
  - intros [-> | ->]; reflexivity.
  - intros n ->.
    assert (Hor : forall s, s <> "" -> Js.or_else (Some s) "0" = s)
      by (intros [|c s] Hs; [congruence | reflexivity]).
    rewrite (Hor _ (show_int_nonempty (Z.of_nat n))), parseInt10_show_int.
    split; [reflexivity|]. intros Hn. apply to_double_exact. lia.
Qed.

(** X20. The [/recording-status] route of the standalone server touches
    none of the collaborators but the download: it leaves the world as
    it is.  It answers 400 to an incomplete request, 200 when the
    download succeeds, and 500 with the message of the failure in the
    body when the download is rejected or answered with a status outside
    200-299. *)
Theorem standalone_route_only_downloads
    (env : Env) (recordingsDir : string) (path_join : string -> string -> string)
    (body : RecordingController.RecordingStatusRequest) (w : World) :
  let r := StandaloneServer.recording_status env recordingsDir path_join body w in
  snd r = w
  /\ ((incomplete body /\ fst r = Resolve reply_missing_fields)
      \/ exists url,
           RecordingController.RecordingUrl body = Some url
           /\ ~ incomplete body
           /\ match fetch env (url ++ ".mp3") (Pipeline.authorization env) with
              | Rejected e =>
                  fst r = Resolve
                    {| RecordingController.reply_status := 500;
                       RecordingController.reply_text :=
                         "Error downloading recording: " ++ string_of_error e |}
              | Resolved resp =>
                  if http_ok resp then fst r = Resolve reply_processed
                  else
                    fst r = Resolve
                      {| RecordingController.reply_status := 500;
                         RecordingController.reply_text :=
                           "Error downloading recording: Failed to download recording: "
                           ++ Js.show_int (http_status resp) ++ " "
                           ++ http_statusText resp |}
              end).
Proof.
  cbv zeta.
  unfold StandaloneServer.recording_status, incomplete.
  destruct (Js.truthy (RecordingController.RecordingUrl body)) eqn:Hu;
    [|unfold try_catch; cbn; split; [reflexivity | left; auto]].
  destruct (Js.truthy (RecordingController.RecordingSid body)) eqn:Hs;
    [|unfold try_catch; cbn; split; [reflexivity | left; auto]].
  destruct (Js.truthy (RecordingController.CallSid body)) eqn:Hc;
    [|unfold try_catch; cbn; split; [reflexivity | left; auto]].
  cbn [negb orb].
  destruct (truthy_some _ Hu) as (url & Eu & Nu).
  rewrite Eu, (or_else_nonempty_id url "" Nu).
  fold (Pipeline.authorization env).
  assert (Hcomplete : ~ (true = false \/ true = false \/ true = false))
    by (intros [H | [H | H]]; discriminate).
  destruct (fetch env (url ++ ".mp3") (Pipeline.authorization env)) as [resp|e] eqn:Hf;
    unfold try_catch, bind, RecordingService.fetch_get,
      StandaloneServer.saveRecordingToFile, try_catch, throw, ret;
    rewrite Hf.
  - destruct (http_ok resp) eqn:Hok; cbn [negb fst snd];
      (split; [reflexivity|]); right; exists url; rewrite Hf, Hok; auto.
  - cbn [fst snd]. split; [reflexivity|]. right. exists url. rewrite Hf. auto.
Qed.

(** ** The configuration *)

(** X21. Only the two Twilio credentials are checked at start-up: a
    variable is reported missing exactly when it is one of them and is
    unset or empty; an unset OpenAI key, Supabase URL or key, phone
    number or port is never reported, and the settings then hold the
    empty string (the port 3000). *)
Theorem only_twilio_credentials_are_checked
    (cwd : string) (path_join : string -> string -> string)
    (process_env : Config.ProcessEnv) :
  (forall v, In v (Config.missingVars process_env) <->
     (v = "TWILIO_ACCOUNT_SID" \/ v = "TWILIO_AUTH_TOKEN")
     /\ Js.truthy (process_env v) = false)
  /\ (Config.missingVars process_env = [] <->
      Js.truthy (process_env "TWILIO_ACCOUNT_SID") = true
      /\ Js.truthy (process_env "TWILIO_AUTH_TOKEN") = true)
  /\ (Js.truthy (process_env "OPENAI_API_KEY") = false ->
      Config.cfg_openai_apiKey (Config.settings cwd path_join process_env) = "")
  /\ (Js.truthy (process_env "SUPABASE_URL") = false ->
      Config.cfg_url (Config.cfg_supabase (Config.settings cwd path_join process_env)) = "")
  /\ (Js.truthy (process_env "SUPABASE_KEY") = false ->
      Config.cfg_key (Config.cfg_supabase (Config.settings cwd path_join process_env)) = "")
  /\ (Js.truthy (process_env "PORT") = false ->
      Config.cfg_port (Config.settings cwd path_join process_env) = inr 3000).
Proof.
  unfold Config.missingVars, Config.requiredEnvVars.
  refine (conj _ (conj _ (conj _ (conj _ (conj _ _))))).
  - intros v. rewrite filter_In. cbn [In]. rewrite negb_true_iff.
    split; intros (H & Ht); (split; [|exact Ht]); intuition congruence.
  - cbn [filter].
    destruct (Js.truthy (process_env "TWILIO_ACCOUNT_SID"));
      destruct (Js.truthy (process_env "TWILIO_AUTH_TOKEN")); cbn [negb];
      split; try discriminate; auto; intros (H1 & H2); discriminate.
  - intros H. cbn. unfold Js.or_else. now rewrite H.
  - intros H. cbn. unfold Js.or_else. now rewrite H.
  - intros H. cbn. unfold Js.or_else. now rewrite H.
  - intros H. cbn [Config.settings Config.cfg_port]. now rewrite H.
Qed.

(** ** Retries that succeed, and the concurrent phase *)

(** X22. The retry loops stop at the first success: when the first [k]
    requests fail with errors outside the quota class and the next one
    is answered, [transcribeAudio] resolves with the text of that answer
    and [generateSummary] with the content of its first choice (or
    ['No summary generated'] when it has none), after exactly [k + 1]
    requests and the [k] backoff delays that precede the retries. *)
Theorem retries_stop_at_the_first_success
    (env : Env) (audio : list Byte.byte) (transcript : string) (w : World) (k : nat)
    (text : string) (completion : ChatCompletion) :
  ((k < 5)%nat ->
   transient_transcriptions env audio w k ->
   whisper env (transcription_requests w + k) audio = Resolved text ->
   fst (RecordingProcessorService.transcribeAudio env audio w) = Resolve text
   /\ transcription_requests (snd (RecordingProcessorService.transcribeAudio env audio w))
      = (transcription_requests w + k + 1)%nat
   /\ timeouts (snd (RecordingProcessorService.transcribeAudio env audio w))
      = (timeouts w ++ retry_delays 30000 k)%list)
  /\ ((k < 3)%nat ->
      transient_completions env transcript w k ->
      chat env (completion_requests w + k)
        (RecordingProcessorService.summary_request transcript) = Resolved completion ->
      fst (RecordingProcessorService.generateSummary env transcript w)
      = Resolve (Js.or_else (RecordingProcessorService.first_content completion)
                   "No summary generated")
      /\ completion_requests (snd (RecordingProcessorService.generateSummary env transcript w))
         = (completion_requests w + k + 1)%nat
      /\ timeouts (snd (RecordingProcessorService.generateSummary env transcript w))
         = (timeouts w ++ retry_delays 10000 k)%list).
Proof.
  split; intros Hk Ht He.
  - destruct (transcribeAudio_after_transient env k audio w Hk Ht)
      as (w' & -> & Hreq & Htime).
    rewrite <- Hreq in He.
    destruct (RecordingProcessorService.transcribe_maxRetries - k)%nat as [|fuel] eqn:Hf;
      [unfold RecordingProcessorService.transcribe_maxRetries in Hf; lia|].
    rewrite (transcribe_step_resolved env fuel audio k w' text Hk He).
    cbn [fst snd]. split; [reflexivity|].
    unfold before_attempt.
    rewrite <- (attempt_delays_snoc 30000 k). unfold attempt_delay at 2.
    destruct (0 <? k)%nat; cbn [transcription_requests timeouts set_timeouts
      set_transcription_requests]; rewrite Hreq, Htime, ?app_nil_r, <- ?app_assoc;
      split; try lia; reflexivity.
  - destruct (generateSummary_after_transient env k transcript w Hk Ht)
      as (w' & -> & Hreq & Htime).
    rewrite <- Hreq in He.
    destruct (RecordingProcessorService.summary_maxRetries - k)%nat as [|fuel] eqn:Hf;
      [unfold RecordingProcessorService.summary_maxRetries in Hf; lia|].
    rewrite (summary_step_resolved env fuel transcript k w' completion Hk He).
    cbn [fst snd]. split; [reflexivity|].
    unfold before_attempt.
    rewrite <- (attempt_delays_snoc 10000 k). unfold attempt_delay at 2.
    destruct (0 <? k)%nat; cbn [completion_requests timeouts set_timeouts
      set_completion_requests]; rewrite Hreq, Htime, ?app_nil_r, <- ?app_assoc;
      split; try lia; reflexivity.
Qed.

Lemma retries_stop_at_the_first_success_witness :
  fst (RecordingProcessorService.transcribeAudio Mock.flaky Mock.mp3 empty_world)
  = Resolve "hello world"
  /\ transcription_requests
       (snd (RecordingProcessorService.transcribeAudio Mock.flaky Mock.mp3 empty_world))
     = 2%nat
  /\ fst (RecordingProcessorService.generateSummary Mock.flaky "hello world" empty_world)
     = Resolve "Quick call about hello world."
  /\ completion_requests
       (snd (RecordingProcessorService.generateSummary Mock.flaky "hello world"
               empty_world)) = 2%nat.
Proof.
  assert (Ht : transient_transcriptions Mock.flaky Mock.mp3 empty_world 1).
  { intros i Hi. exists Mock.network_error. destruct i as [|i]; [|lia].
    split; [reflexivity | apply quota_false_not_class; reflexivity]. }
  assert (Hs : transient_completions Mock.flaky "hello world" empty_world 1).
  { intros i Hi. exists Mock.network_error. destruct i as [|i]; [|lia].
    split; [reflexivity | apply quota_false_not_class; reflexivity]. }
  destruct (retries_stop_at_the_first_success Mock.flaky Mock.mp3 "hello world"
              empty_world 1 "hello world"
              (Mock.completion "Quick call about hello world.")) as [HT HS].
  destruct HT as (T1 & T2 & _); [lia | exact Ht | reflexivity |].
  destruct HS as (S1 & S2 & _); [lia | exact Hs | reflexivity |].
  repeat split; assumption.
Defined.

(** X23. The concurrent phase succeeds exactly when its two tasks
    succeed each on its own, and it leaves what the two tasks leave,
    in whichever order they run: storing the audio and transcribing it
    never interfere. *)
Theorem concurrent_phase_tasks_are_independent
    (env : Env) (audio : list Byte.byte) (md : RecordingMetadata) (w : World) :
  let store := StorageService.storeRecording env audio md in
  let process := RecordingProcessorService.processRecording env audio in
  let r := RecordingService.promise_all env store process w in
  snd r = snd (store (snd (process w)))
  /\ snd r = snd (process (snd (store w)))
  /\ (forall a b, fst r = Resolve (a, b) <->
                  fst (store w) = Resolve a /\ fst (process w) = Resolve b)
  /\ (is_reject (fst r) <-> is_reject (fst (store w)) \/ is_reject (fst (process w))).
Proof.
  cbv zeta.
  destruct (concurrent_phase_order env audio md w) as (_ & Hp & Hw).
  cbv zeta in Hp, Hw.
  destruct (processor_run env audio w) as (Hd & _).
  assert (Hsd : fst (StorageService.storeRecording env audio md w) <> Diverge).
  { rewrite storeRecording_eq. cbv zeta.
    destruct (storage_upload env (objects w) _); [discriminate|].
    destruct (table_insert env (recordings w) _); discriminate. }
  unfold RecordingService.promise_all.
  rewrite Hw.
  destruct (StorageService.storeRecording env audio md w) as [ra w1].
  cbn [fst snd] in *.
  destruct (RecordingProcessorService.processRecording env audio w1) as [rb w2].
  cbn [fst snd] in *. rewrite <- Hp.
  destruct ra as [a|ea|]; destruct rb as [b|eb|]; cbn [fst snd];
    try (now elim Hsd); try (now elim Hd);
    (split; [reflexivity|]); (split; [reflexivity|]); split;
    try (intros a' b'); split; cbn;
    try (intros [= <- <-]); try (intros ([= <-] & [= <-])); try discriminate;
    try (intros (H1 & H2); discriminate); try tauto; try (intros [[] | []]); auto.
Qed.
